(** * Gesture-driven particle tree: classifier, mode machine and morph animator

    A shallow embedding of the gesture and animation core of the
    christmas-tree-wish sources:

    - [main.js]: [detectGesture], [predictWebcam], the blend update of
      [animate], [snoise] and [main] of the vertex shader, the loop that
      fills the particle buffers and the fragment shader;
    - [script.js], first and last document: the three definitions of
      [ChristmasApp.handleGestures], [ChristmasApp.animate], and
      [ParticleManager] (the constructor, [addPhoto], [calculateTreePos],
      [calculateScatterPos], [triggerFocus] and [update]);
    - [script.js], second document: the photo wall ([onResults], the pointer
      listeners, [updateHandStateFromInput], [updateCursor], [setupPhotos],
      [updateInteractions] and the photo and snow steps of [animate]).  The
      third and the fourth document, two more variants of the photo wall,
      are not modelled.

    JavaScript and GLSL numbers are modelled by the real numbers: a finite
    number is a real, arithmetic is exact, and [Math.sqrt], [Math.hypot],
    [sin], [cos] and [Math.acos] are the real functions.  Rounding, overflow
    and signed zeros are outside the model, but for the stores into the
    [Float32Array] buffers of [main.js], which round.  Landmark coordinates, which
    come from outside, may also be [NaN].  [Math.random] returns the next
    value of a sequence that is part of the world. *)

From Stdlib Require Import Reals Lra Lia List Bool Arith ZArith Zfloor.
Import ListNotations.

Open Scope R_scope.

(** ** Decidable comparisons on reals, as booleans *)

Definition Rltb (a b : R) : bool := if Rlt_dec a b then true else false.
Definition Rgtb (a b : R) : bool := Rltb b a.

(** ** Numbers that may be NaN

    Landmark coordinates come from outside.  A coordinate that is [NaN], or
    that is missing (reading it gives [undefined], which arithmetic turns
    into [NaN]), is [NaN] here.  Every operation propagates [NaN] and every
    comparison with [NaN] is false. *)

Module Num.

Inductive t : Type :=
| NaN
| Fin (r : R).

Definition lift2 (f : R -> R -> R) (a b : t) : t :=
  match a, b with
  | Fin u, Fin v => Fin (f u v)
  | _, _ => NaN
  end.

Definition add := lift2 Rplus.
Definition sub := lift2 Rminus.
Definition mul := lift2 Rmult.
Definition div := lift2 Rdiv.

(** [Math.pow(a, 2)] *)
Definition pow2 (a : t) : t :=
  match a with Fin u => Fin (u ^ 2) | NaN => NaN end.

(** [Math.sqrt]: NaN on a negative argument. *)
Definition sqrt (a : t) : t :=
  match a with
  | Fin u => if Rltb u 0 then NaN else Fin (R_sqrt.sqrt u)
  | NaN => NaN
  end.

(** [Math.hypot(a, b)] *)
Definition hypot (a b : t) : t :=
  match a, b with
  | Fin u, Fin v => Fin (R_sqrt.sqrt (u ^ 2 + v ^ 2))
  | _, _ => NaN
  end.

Definition ltb (a b : t) : bool :=
  match a, b with
  | Fin u, Fin v => Rltb u v
  | _, _ => false
  end.

Definition gtb (a b : t) : bool := ltb b a.


End Num.

Declare Scope num_scope.
Delimit Scope num_scope with num.
Bind Scope num_scope with Num.t.
Infix "+" := Num.add : num_scope.
Infix "-" := Num.sub : num_scope.
Infix "*" := Num.mul : num_scope.
Infix "/" := Num.div : num_scope.
Infix "<?" := Num.ltb (at level 70) : num_scope.
Infix ">?" := Num.gtb (at level 70) : num_scope.
Coercion Num.Fin : R >-> Num.t.

(** ** Results of code that may throw

    Reading a property of [undefined] raises a [TypeError]; nothing in the
    modelled code catches it, so it ends the call. *)

Inductive Result (A : Type) : Type :=
| Ok (a : A)
| TypeError.
Arguments Ok {A} a.
Arguments TypeError {A}.

Definition bind {A B : Type} (m : Result A) (k : A -> Result B) : Result B :=
  match m with
  | Ok a => k a
  | TypeError => TypeError
  end.

Notation "x <- m ;; k" := (bind m (fun x => k))
  (at level 61, m at next level, right associativity).

(** [arr.forEach(f)] where [f] updates the variables [s] it closes over. *)
Fixpoint forEach {A S : Type} (f : A -> S -> Result S) (arr : list A) (s : S)
  : Result S :=
  match arr with
  | [] => Ok s
  | a :: rest => s' <- f a s ;; forEach f rest s'
  end.

(** ** Landmarks *)

Module Landmark.
Record t : Type := mk { x : Num.t; y : Num.t; z : Num.t }.
End Landmark.


(** [landmarks[i]]: [undefined] (here [None]) outside the array. *)
Definition at_index (landmarks : list Landmark.t) (i : nat) : option Landmark.t :=
  nth_error landmarks i.

(** Reading a property of a value that may be [undefined]. *)
Definition prop {A : Type} (p : option Landmark.t) (field : Landmark.t -> A)
  : Result A :=
  match p with
  | Some l => Ok (field l)
  | None => TypeError
  end.

(** * main.js *)

Module MainJs.

(** The labels [detectGesture] returns and [state.gesture] holds. *)
Inductive Gesture : Type := loading | closed | open | none.

(** The helper [dist] of [detectGesture]. *)
Definition dist (p1 p2 : option Landmark.t) : Result Num.t :=
  x1 <- prop p1 Landmark.x ;; x2 <- prop p2 Landmark.x ;;
  y1 <- prop p1 Landmark.y ;; y2 <- prop p2 Landmark.y ;;
  z1 <- prop p1 Landmark.z ;; z2 <- prop p2 Landmark.z ;;
  Ok (Num.sqrt (Num.pow2 (x1 - x2) + Num.pow2 (y1 - y2) + Num.pow2 (z1 - z2))%num).

Record Finger : Type := { tip : nat; mcp : nat }.

Definition fingerIndices : list Finger :=
  [ {| tip := 8; mcp := 5 |};
    {| tip := 12; mcp := 9 |};
    {| tip := 16; mcp := 13 |};
    {| tip := 20; mcp := 17 |} ].

(** The body of the [forEach] callback: [extendedCount] is the variable it
    updates. *)
Definition countFinger (landmarks : list Landmark.t) (wrist : option Landmark.t)
    (f : Finger) (extendedCount : nat) : Result nat :=
  dTip <- dist (at_index landmarks (tip f)) wrist ;;
  dMcp <- dist (at_index landmarks (mcp f)) wrist ;;
  Ok (if (dTip >? dMcp * 1.5)%num then S extendedCount else extendedCount).

(** [detectGesture(landmarks)]; [None] is a [null] or [undefined]
    argument. *)
Definition detectGesture (landmarks : option (list Landmark.t)) : Result Gesture :=
  match landmarks with
  | None => Ok none
  | Some lm =>
      if (length lm =? 0)%nat then Ok none
      else
        let wrist := at_index lm 0 in
        extendedCount <- forEach (countFinger lm wrist) fingerIndices 0%nat ;;
        if (3 <=? extendedCount)%nat then Ok open
        else if (extendedCount <=? 1)%nat then Ok closed
        else Ok none
  end.

(** The shared [state] object. *)
Record State : Type := {
  gesture : Gesture;
  targetMix : R;
  lastVideoTime : R
}.

Definition state0 : State :=
  {| gesture := loading; targetMix := 0.0; lastVideoTime := -1 |}.

(** What one call of [predictWebcam] reads from its surroundings:
    whether [handLandmarker] is set, [video.currentTime], and the
    [landmarks] field of the detection result ([None] when the field is
    missing). *)
Record Frame : Type := {
  handLandmarker : bool;
  currentTime : R;
  landmarks : option (list (list Landmark.t))
}.

Definition Req_dec_b (a b : R) : bool :=
  if Req_dec_T a b then true else false.

(** [predictWebcam], without the request for the next call. *)
Definition predictWebcam (fr : Frame) (state : State) : Result State :=
  if handLandmarker fr && negb (Req_dec_b (currentTime fr) (lastVideoTime state)) then
    let state := {| gesture := gesture state; targetMix := targetMix state;
                    lastVideoTime := currentTime fr |} in
    match landmarks fr with
    | Some (hand :: _) =>
        gesture' <- detectGesture (Some hand) ;;
        let targetMix' :=
          match gesture' with
          | open => 1.0
          | closed => 0.0
          | _ => targetMix state
          end in
        Ok {| gesture := gesture'; targetMix := targetMix';
              lastVideoTime := lastVideoTime state |}
    | _ =>
        Ok {| gesture := none;
              targetMix := Rmax 0 (targetMix state - 0.02);
              lastVideoTime := lastVideoTime state |}
    end
  else Ok state.

(** The uniforms of [particleMaterial]. *)
Record Uniforms : Type := {
  uTime : R;
  uMix : R;
  uPixelRatio : R
}.

(** [animate], without the scheduling and the render calls. *)
Definition animate (state : State) (u : Uniforms) : Uniforms :=
  let uTime' := uTime u + 0.01 in
  let uMix' := uMix u + (targetMix state - uMix u) * 0.05 in
  {| uTime := uTime'; uMix := uMix'; uPixelRatio := uPixelRatio u |}.

(** [n] display frames with [state] unchanged in between. *)
Fixpoint animate_n (n : nat) (state : State) (u : Uniforms) : Uniforms :=
  match n with
  | O => u
  | S k => animate state (animate_n k state u)
  end.

(** *** The vertex shader

    GLSL [float] is a real here; [vec3] and [vec4] are records, the
    built-ins act component by component, and a scalar operand is
    applied to every component. *)

Record vec3 : Type := Vec3 { x3 : R; y3 : R; z3 : R }.
Record vec4 : Type := Vec4 { x4 : R; y4 : R; z4 : R; w4 : R }.

Definition map3 (f : R -> R) (a : vec3) : vec3 :=
  Vec3 (f (x3 a)) (f (y3 a)) (f (z3 a)).
Definition zip3 (f : R -> R -> R) (a b : vec3) : vec3 :=
  Vec3 (f (x3 a) (x3 b)) (f (y3 a) (y3 b)) (f (z3 a) (z3 b)).
Definition map4 (f : R -> R) (a : vec4) : vec4 :=
  Vec4 (f (x4 a)) (f (y4 a)) (f (z4 a)) (f (w4 a)).
Definition zip4 (f : R -> R -> R) (a b : vec4) : vec4 :=
  Vec4 (f (x4 a) (x4 b)) (f (y4 a) (y4 b)) (f (z4 a) (z4 b)) (f (w4 a) (w4 b)).

Definition floor (a : R) : R := IZR (Zfloor a).
(** [step(edge, a)] *)
Definition step (edge a : R) : R := if Rltb a edge then 0.0 else 1.0.
Definition dot3 (a b : vec3) : R := x3 a * x3 b + y3 a * y3 b + z3 a * z3 b.
Definition dot4 (a b : vec4) : R :=
  x4 a * x4 b + y4 a * y4 b + z4 a * z4 b + w4 a * w4 b.
(** [mix(a, b, t)] on floats and on [vec3] with a float weight. *)
Definition mix (a b t : R) : R := a * (1 - t) + b * t.
Definition mix3 (a b : vec3) (t : R) : vec3 := zip3 (fun u v => mix u v t) a b.

Definition mod289 (a : R) : R := a - floor (a * (1.0 / 289.0)) * 289.0.
Definition mod289_3 : vec3 -> vec3 := map3 mod289.
Definition mod289_4 : vec4 -> vec4 := map4 mod289.
Definition permute (a : vec4) : vec4 :=
  mod289_4 (map4 (fun u => ((u * 34.0) + 1.0) * u) a).
Definition taylorInvSqrt (r : vec4) : vec4 :=
  map4 (fun u => 1.79284291400159 - 0.85373472095314 * u) r.

Definition snoise (v : vec3) : R :=
  let Cx := 1.0 / 6.0 in
  let Cy := 1.0 / 3.0 in
  let D := Vec4 0.0 0.5 1.0 2.0 in
  let i := map3 (fun u => floor (u + dot3 v (Vec3 Cy Cy Cy))) v in
  let x0 := map3 (fun u => u + dot3 i (Vec3 Cx Cx Cx)) (zip3 Rminus v i) in
  let g := zip3 step (Vec3 (y3 x0) (z3 x0) (x3 x0)) x0 in
  let l := map3 (fun u => 1.0 - u) g in
  let i1 := zip3 Rmin g (Vec3 (z3 l) (x3 l) (y3 l)) in
  let i2 := zip3 Rmax g (Vec3 (z3 l) (x3 l) (y3 l)) in
  let x1 := map3 (fun u => u + Cx) (zip3 Rminus x0 i1) in
  let x2 := map3 (fun u => u + Cy) (zip3 Rminus x0 i2) in
  let x3' := map3 (fun u => u - y4 D) x0 in
  let i := mod289_3 i in
  let p :=
    permute
      (zip4 Rplus
         (map4 (fun u => u + x3 i)
            (permute
               (zip4 Rplus
                  (map4 (fun u => u + y3 i)
                     (permute
                        (map4 (fun u => z3 i + u)
                           (Vec4 0.0 (z3 i1) (z3 i2) 1.0))))
                  (Vec4 0.0 (y3 i1) (y3 i2) 1.0))))
         (Vec4 0.0 (x3 i1) (x3 i2) 1.0)) in
  let n_ := 0.142857142857 in
  let ns := zip3 Rminus (map3 (fun u => n_ * u) (Vec3 (w4 D) (y4 D) (z4 D)))
              (Vec3 (x4 D) (z4 D) (x4 D)) in
  let j := zip4 Rminus p
             (map4 (fun u => 49.0 * floor (u * z3 ns * z3 ns)) p) in
  let x_ := map4 (fun u => floor (u * z3 ns)) j in
  let y_ := map4 floor (zip4 Rminus j (map4 (fun u => 7.0 * u) x_)) in
  let x := map4 (fun u => u * x3 ns + y3 ns) x_ in
  let y := map4 (fun u => u * x3 ns + y3 ns) y_ in
  let h := zip4 Rminus (map4 (fun u => 1.0 - Rabs u) x) (map4 Rabs y) in
  let b0 := Vec4 (x4 x) (y4 x) (x4 y) (y4 y) in
  let b1 := Vec4 (z4 x) (w4 x) (z4 y) (w4 y) in
  let s0 := map4 (fun u => floor u * 2.0 + 1.0) b0 in
  let s1 := map4 (fun u => floor u * 2.0 + 1.0) b1 in
  let sh := map4 (fun u => - step u 0.0) h in
  let a0 := zip4 Rplus (Vec4 (x4 b0) (z4 b0) (y4 b0) (w4 b0))
              (zip4 Rmult (Vec4 (x4 s0) (z4 s0) (y4 s0) (w4 s0))
                 (Vec4 (x4 sh) (x4 sh) (y4 sh) (y4 sh))) in
  let a1 := zip4 Rplus (Vec4 (x4 b1) (z4 b1) (y4 b1) (w4 b1))
              (zip4 Rmult (Vec4 (x4 s1) (z4 s1) (y4 s1) (w4 s1))
                 (Vec4 (z4 sh) (z4 sh) (w4 sh) (w4 sh))) in
  let p0 := Vec3 (x4 a0) (y4 a0) (x4 h) in
  let p1 := Vec3 (z4 a0) (w4 a0) (y4 h) in
  let p2 := Vec3 (x4 a1) (y4 a1) (z4 h) in
  let p3 := Vec3 (z4 a1) (w4 a1) (w4 h) in
  let norm := taylorInvSqrt
                (Vec4 (dot3 p0 p0) (dot3 p1 p1) (dot3 p2 p2) (dot3 p3 p3)) in
  let p0 := map3 (fun u => u * x4 norm) p0 in
  let p1 := map3 (fun u => u * y4 norm) p1 in
  let p2 := map3 (fun u => u * z4 norm) p2 in
  let p3 := map3 (fun u => u * w4 norm) p3 in
  let m := map4 (fun u => Rmax (0.6 - u) 0.0)
             (Vec4 (dot3 x0 x0) (dot3 x1 x1) (dot3 x2 x2) (dot3 x3' x3')) in
  let m := zip4 Rmult m m in
  42.0 * dot4 (zip4 Rmult m m)
           (Vec4 (dot3 p0 x0) (dot3 p1 x1) (dot3 p2 x2) (dot3 p3 x3')).

(** The per-vertex attributes read by [main]: [position] holds the tree
    formation and [targetPosition] the scatter formation. *)
Record Vertex : Type := {
  position : vec3;
  targetPosition : vec3;
  aRandom : vec3
}.

(** [vec3 pos = mix(position, targetPosition, t)] *)
Definition main_mix (u : Uniforms) (a : Vertex) : vec3 :=
  let t := uMix u in
  mix3 (position a) (targetPosition a) t.

(** The three noise samples and [pos += n * turbulence]. *)
Definition main_turbulence (u : Uniforms) (a : Vertex) (pos : vec3) : vec3 :=
  let t := uMix u in
  let noiseScale := 0.1 in
  let noiseTime := uTime u * 0.5 in
  let nX := snoise (Vec3 (x3 pos * noiseScale) (y3 pos * noiseScale)
                      (noiseTime + x3 (aRandom a))) in
  let nY := snoise (Vec3 (x3 pos * noiseScale) (y3 pos * noiseScale)
                      (noiseTime + y3 (aRandom a) + 10.0)) in
  let nZ := snoise (Vec3 (x3 pos * noiseScale) (y3 pos * noiseScale)
                      (noiseTime + z3 (aRandom a) + 20.0)) in
  let turbulence := t * 2.0 in
  Vec3 (x3 pos + nX * turbulence) (y3 pos + nY * turbulence)
    (z3 pos + nZ * turbulence).

(** [if (t < 0.5) { ... }]: the rotation about the vertical axis. *)
Definition main_spin (u : Uniforms) (pos : vec3) : vec3 :=
  let t := uMix u in
  if Rltb t 0.5 then
    let rot := uTime u * 0.1 in
    let cx := x3 pos * cos rot - z3 pos * sin rot in
    let cz := x3 pos * sin rot + z3 pos * cos rot in
    Vec3 cx (y3 pos) cz
  else pos.

(** The value of [pos] that [main] hands to [modelViewMatrix]. *)
Definition main_pos (u : Uniforms) (a : Vertex) : vec3 :=
  main_spin u (main_turbulence u a (main_mix u a)).

End MainJs.

(** * script.js

    [script.js] holds several documents.  The first (lines 1-693) and the
    last (lines 2283-2760) are two revisions of the same application; they
    differ in [handleGestures] and agree, line for line, on
    [ParticleManager].  The first document defines [handleGestures] twice in
    the class body (lines 233-287 and 408-469); the second definition is the
    one the class ends up with. *)

(** ** three.js values

    [Vector3] and [MathUtils.lerp] belong to three.js; they are modelled
    from that library: [a.lerp(b, alpha)] adds [(b - a) * alpha] to every
    component of [a], and [MathUtils.lerp(a, b, t)] is [(1 - t) * a + t * b]. *)

Module Vector3.
Record t : Type := mk { x : R; y : R; z : R }.

Definition lerp (a v : t) (alpha : R) : t :=
  mk (x a + (x v - x a) * alpha)
     (y a + (y v - y a) * alpha)
     (z a + (z v - z a) * alpha).

Definition multiplyScalar (a : t) (s : R) : t :=
  mk (x a * s) (y a * s) (z a * s).

(** [a.length()] *)
Definition length (a : t) : R := sqrt (x a * x a + y a * y a + z a * z a).
End Vector3.

Module MathUtils.
Definition lerp (a b t : R) : R := (1 - t) * a + t * b.
End MathUtils.

Module ScriptJs.

Inductive Mode : Type := TREE | SCATTER | FOCUS.
Inductive Gesture : Type := NONE | PINCH | FIST | OPEN.

Definition CONFIG_treeHeight : R := 25.
Definition CONFIG_treeRadius : R := 10.
Definition CONFIG_particleCount : nat := 1500.

Inductive ItemType : Type := PARTICLE | PHOTO.
Inductive Geometry : Type := boxGeo | sphereGeo | frameGeo.
Inductive Texture : Type := defaultCanvas | loaded (n : nat).
Inductive Material : Type := goldMat | redMat | greenMat | framed (tex : Texture).

Record UserData : Type := {
  treePos : Vector3.t;
  scatterPos : Vector3.t;
  rotationSpeed : Vector3.t;
  type : ItemType
}.

(** A mesh of [ParticleManager.items].  Its orientation ([rotation],
    [lookAt]) is left out: no position, scale or selection depends on
    it. *)
Record Mesh : Type := {
  geometry : Geometry;
  material : Material;
  userData : UserData;
  position : Vector3.t;
  scale : Vector3.t
}.

(** The global [STATE].  [targetPhoto] refers to a mesh of
    [ParticleManager.items]; items are only ever appended, so the
    reference is the index of the mesh in [items] and [None] is [null]. *)
Record AppState : Type := {
  mode : Mode;
  targetPhoto : option nat;
  handDetected : bool;
  handRotation : Num.t * Num.t;
  gesture : Gesture
}.

Definition STATE0 : AppState :=
  {| mode := TREE; targetPhoto := None; handDetected := false;
     handRotation := (Num.Fin 0, Num.Fin 0); gesture := NONE |}.

(** The values [Math.random()] is going to return, in order. *)
Definition Rand : Type := nat -> R.

(** Every value of [Math.random()] lies in [0, 1). *)
Definition unit_draws (r : Rand) : Prop := forall n, 0 <= r n < 1.

(** All that the modelled methods read and write. *)
Record World : Type := {
  STATE : AppState;
  items : list Mesh;
  rand : Rand
}.

(** Computations on the world that may throw; what was written before a
    throw stays written. *)
Definition M (A : Type) : Type := World -> Result A * World.

Definition ret {A : Type} (a : A) : M A := fun w => (Ok a, w).
Definition throw {A : Type} : M A := fun w => (TypeError, w).
Definition mbind {A B : Type} (m : M A) (k : A -> M B) : M B :=
  fun w =>
    match m w with
    | (Ok a, w') => k a w'
    | (TypeError, w') => (TypeError, w')
    end.

Declare Scope m_scope.
Delimit Scope m_scope with M.
Notation "x <~ m ;; k" := (mbind m (fun x => k))
  (at level 61, m at next level, right associativity) : m_scope.
Notation "m ;;; k" := (mbind m (fun _ => k))
  (at level 61, right associativity) : m_scope.
Local Open Scope m_scope.

Definition getSTATE : M AppState := fun w => (Ok (STATE w), w).
Definition getItems : M (list Mesh) := fun w => (Ok (items w), w).
Definition on_STATE (f : AppState -> AppState) (w : World) : World :=
  {| STATE := f (STATE w); items := items w; rand := rand w |}.
Definition on_items (f : list Mesh -> list Mesh) (w : World) : World :=
  {| STATE := STATE w; items := f (items w); rand := rand w |}.
Definition setSTATE (f : AppState -> AppState) : M unit :=
  fun w => (Ok tt, on_STATE f w).
Definition setItems (f : list Mesh -> list Mesh) : M unit :=
  fun w => (Ok tt, on_items f w).

(** The world after [k] calls of [Math.random()]. *)
Definition drawn (k : nat) (w : World) : World :=
  {| STATE := STATE w; items := items w; rand := fun n => rand w (k + n)%nat |}.

(** [Math.random()] *)
Definition random : M R := fun w => (Ok (rand w 0%nat), drawn 1 w).

(** [p.field] for a landmark that may be [undefined]. *)
Definition get {A : Type} (p : option Landmark.t) (field : Landmark.t -> A) : M A :=
  match p with
  | Some l => ret (field l)
  | None => throw
  end.

Definition set_mode (m : Mode) (s : AppState) : AppState :=
  {| mode := m; targetPhoto := targetPhoto s; handDetected := handDetected s;
     handRotation := handRotation s; gesture := gesture s |}.
Definition set_targetPhoto (t : option nat) (s : AppState) : AppState :=
  {| mode := mode s; targetPhoto := t; handDetected := handDetected s;
     handRotation := handRotation s; gesture := gesture s |}.
Definition set_handDetected (b : bool) (s : AppState) : AppState :=
  {| mode := mode s; targetPhoto := targetPhoto s; handDetected := b;
     handRotation := handRotation s; gesture := gesture s |}.
Definition set_handRotation (r : Num.t * Num.t) (s : AppState) : AppState :=
  {| mode := mode s; targetPhoto := targetPhoto s; handDetected := handDetected s;
     handRotation := r; gesture := gesture s |}.
Definition set_gesture (g : Gesture) (s : AppState) : AppState :=
  {| mode := mode s; targetPhoto := targetPhoto s; handDetected := handDetected s;
     handRotation := handRotation s; gesture := g |}.

(** [arr.forEach(f)] in [M]. *)
Fixpoint forEachM {A : Type} (f : A -> M unit) (arr : list A) : M unit :=
  match arr with
  | [] => ret tt
  | a :: rest => f a ;;; forEachM f rest
  end.

(** *** ParticleManager *)

(** [calculateTreePos(i, total, surfaceOnly)] *)
Definition calculateTreePos (i total : R) (surfaceOnly : bool) : M Vector3.t :=
  let t := i / total in
  let angle := t * PI * 2 * 12 in
  let y := (t * CONFIG_treeHeight) - (CONFIG_treeHeight / 2) in
  let progress := 1 - t in
  let r := progress * CONFIG_treeRadius in
  r <~ (if negb surfaceOnly then u <~ random ;; ret (r * sqrt u) else ret r) ;;
  let x := cos angle * r in
  let z := sin angle * r in
  ret (Vector3.mk x y z).

(** [calculateScatterPos()] *)
Definition calculateScatterPos : M Vector3.t :=
  u <~ random ;;
  let r := 10 + u * 15 in
  u <~ random ;;
  let theta := u * PI * 2 in
  u <~ random ;;
  let phi := acos ((u * 2) - 1) in
  let x := r * sin phi * cos theta in
  let y := r * sin phi * sin theta in
  let z := r * cos phi in
  ret (Vector3.mk x y z).

(** [this.parent.add(mesh); this.items.push(mesh)] *)
Definition push (mesh : Mesh) : M unit := setItems (fun l => l ++ [mesh]).

(** [addPhoto(texture)] *)
Definition addPhoto (texture : Texture) : M unit :=
  u <~ random ;;
  treePos' <~ calculateTreePos (u * 1000) 1000 true ;;
  scatterPos' <~ calculateScatterPos ;;
  let userData' :=
    {| treePos := treePos'; scatterPos := scatterPos';
       rotationSpeed := Vector3.mk 0.5 0.5 0.5; type := PHOTO |} in
  push {| geometry := frameGeo; material := framed texture;
          userData := userData'; position := treePos userData';
          scale := Vector3.mk 1 1 1 |}.

(** [createDefaultPhoto()] *)
Definition createDefaultPhoto : M unit := addPhoto defaultCanvas.

(** One round of the constructor's loop. *)
Definition newParticle (i count : nat) : M unit :=
  u <~ random ;;
  let geometry' := if Rgtb u 0.5 then boxGeo else sphereGeo in
  u <~ random ;;
  material' <~ (if Rgtb u 0.7 then ret goldMat
                else u <~ random ;; ret (if Rgtb u 0.5 then redMat else greenMat)) ;;
  treePos' <~ calculateTreePos (INR i) (INR count) false ;;
  scatterPos' <~ calculateScatterPos ;;
  u1 <~ random ;; u2 <~ random ;; u3 <~ random ;;
  let rotationSpeed' :=
    Vector3.multiplyScalar (Vector3.mk (u1 - 0.5) (u2 - 0.5) (u3 - 0.5)) 2.0 in
  let userData' :=
    {| treePos := treePos'; scatterPos := scatterPos';
       rotationSpeed := rotationSpeed'; type := PARTICLE |} in
  (* mesh.rotation.set(Math.random()*Math.PI, Math.random()*Math.PI, 0) *)
  _ <~ random ;; _ <~ random ;;
  push {| geometry := geometry'; material := material';
          userData := userData'; position := treePos userData';
          scale := Vector3.mk 1 1 1 |}.

(** [new ParticleManager(parentDetails, count)] *)
Definition constructor (count : nat) : M unit :=
  setItems (fun _ => []) ;;;
  forEachM (fun i => newParticle i count) (seq 0 count) ;;;
  createDefaultPhoto.

(** [i.userData.type === 'PHOTO'] *)
Definition is_photo (m : Mesh) : bool :=
  match type (userData m) with PHOTO => true | PARTICLE => false end.

(** The meshes that [this.items.filter(i => i.userData.type === 'PHOTO')]
    keeps, in order, each as its index in [items]; [i] is the index of the
    head of [l]. *)
Fixpoint photos_from (i : nat) (l : list Mesh) : list nat :=
  match l with
  | [] => []
  | m :: rest =>
      if is_photo m then i :: photos_from (S i) rest else photos_from (S i) rest
  end.

Definition photos_of (l : list Mesh) : list nat := photos_from 0 l.

(** Some mesh of the list is a photo. *)
Definition has_photo (l : list Mesh) : Prop := photos_of l <> [].

(** [m] leaves [ParticleManager.items] as it finds them. *)
Definition keeps_items {A : Type} (m : M A) : Prop :=
  forall w, items (snd (m w)) = items w.

(** [triggerFocus()] *)
Definition triggerFocus : M unit :=
  l <~ getItems ;;
  let photos := photos_of l in
  if (0 <? List.length photos)%nat then
    u <~ random ;;
    (* Math.floor(u * photos.length) is not negative: u is not *)
    let k := Z.to_nat (Zfloor (u * INR (List.length photos))) in
    (* photos[k]; [undefined] outside the array *)
    let target := nth_error photos k in
    setSTATE (set_targetPhoto target)
  else ret tt.

(** The body of the callback of [update]'s [forEach], for the mesh at
    index [i]; [mesh === STATE.targetPhoto] compares references. *)
Definition is_target (targetPhoto : option nat) (i : nat) : bool :=
  match targetPhoto with
  | Some k => (k =? i)%nat
  | None => false
  end.

(** [targetPos] and [targetScale] once the chain of tests on [mode] is
    through. *)
Definition targets (mode' : Mode) (targetPhoto' : option nat) (i : nat) (mesh : Mesh)
  : option Vector3.t * R :=
  match mode' with
  | TREE => (Some (treePos (userData mesh)), 1)
  | SCATTER => (Some (scatterPos (userData mesh)), 1)
  | FOCUS =>
      if is_target targetPhoto' i
      then (Some (Vector3.mk 0 2 35), 4.0)
      else (Some (scatterPos (userData mesh)), 1)
  end.

Definition updateMesh (lerpFactor : R) (mode' : Mode) (targetPhoto' : option nat)
    (i : nat) (mesh : Mesh) : Mesh :=
  let '(targetPos, targetScale) := targets mode' targetPhoto' i mesh in
  let position' :=
    match targetPos with
    | Some target => Vector3.lerp (position mesh) target lerpFactor
    | None => position mesh
    end in
  let currentScale := Vector3.x (scale mesh) in
  let scale' :=
    if Rgtb (Rabs (currentScale - targetScale)) 0.01 then
      let s := MathUtils.lerp currentScale targetScale lerpFactor in
      Vector3.mk s s s
    else scale mesh in
  {| geometry := geometry mesh; material := material mesh;
     userData := userData mesh; position := position'; scale := scale' |}.

Fixpoint updateFrom (lerpFactor : R) (mode' : Mode) (targetPhoto' : option nat)
    (i : nat) (l : list Mesh) : list Mesh :=
  match l with
  | [] => []
  | mesh :: rest =>
      updateMesh lerpFactor mode' targetPhoto' i mesh
        :: updateFrom lerpFactor mode' targetPhoto' (S i) rest
  end.

(** [update(delta, time, mode)] *)
Definition update (delta time : R) (mode' : Mode) : M unit :=
  let lerpFactor := 2.0 * delta in
  s <~ getSTATE ;;
  setItems (updateFrom lerpFactor mode' (targetPhoto s) 0).

(** *** ChristmasApp.handleGestures *)

(** [results.landmarks]: [None] when the field is missing, else the
    hands. *)
Definition Results : Type := option (list (list Landmark.t)).

Fixpoint forEachAcc {A S : Type} (f : A -> S -> M S) (arr : list A) (s : S) : M S :=
  match arr with
  | [] => ret s
  | a :: rest => s' <~ f a s ;; forEachAcc f rest s'
  end.

(** The part of the hand branch that the three definitions share word for
    word (lines 238-253, 414-434 and 2499-2519): the rotation smoothing,
    then [pinchDist] and [avgTipDist]. *)
Definition measure (lm : list Landmark.t) : M (Num.t * Num.t) :=
  let palm := at_index lm 9 in
  palm_y <~ get palm Landmark.y ;;
  let targetRotX := ((palm_y - 0.5) * 1.5)%num in
  palm_x <~ get palm Landmark.x ;;
  let targetRotY := ((palm_x - 0.5) * 2.5)%num in
  setSTATE (fun s =>
    let '(rx, ry) := handRotation s in
    set_handRotation ((rx + (targetRotX - rx) * 0.1)%num, ry) s) ;;;
  setSTATE (fun s =>
    let '(rx, ry) := handRotation s in
    set_handRotation (rx, (ry + (targetRotY - ry) * 0.1)%num) s) ;;;
  let thumb := at_index lm 4 in
  let index := at_index lm 8 in
  let wrist := at_index lm 0 in
  let tips := [at_index lm 8; at_index lm 12; at_index lm 16; at_index lm 20] in
  tx <~ get thumb Landmark.x ;; ix <~ get index Landmark.x ;;
  ty <~ get thumb Landmark.y ;; iy <~ get index Landmark.y ;;
  let pinchDist := Num.hypot (tx - ix) (ty - iy) in
  avgTipDist <~ forEachAcc (fun t avgTipDist =>
      t_x <~ get t Landmark.x ;; wx <~ get wrist Landmark.x ;;
      t_y <~ get t Landmark.y ;; wy <~ get wrist Landmark.y ;;
      ret (avgTipDist + Num.hypot (t_x - wx) (t_y - wy))%num) tips (Num.Fin 0) ;;
  let avgTipDist := (avgTipDist / 4)%num in
  ret (pinchDist, avgTipDist).

Definition hand_of (results : Results) : option (list Landmark.t) :=
  match results with
  | Some (lm :: _) => Some lm
  | _ => None
  end.

(** The first definition, lines 233-287. *)
Definition handleGestures_first (results : Results) : M unit :=
  match hand_of results with
  | Some lm =>
      setSTATE (set_handDetected true) ;;;
      d <~ measure lm ;;
      let '(pinchDist, avgTipDist) := d in
      if (pinchDist <? 0.05)%num then
        setSTATE (set_gesture PINCH) ;;;
        setSTATE (set_mode FOCUS) ;;;
        triggerFocus
      else if (avgTipDist >? 0.45)%num then
        setSTATE (set_gesture OPEN) ;;;
        setSTATE (set_mode SCATTER)
      else if (avgTipDist <? 0.25)%num then
        setSTATE (set_gesture FIST) ;;;
        setSTATE (set_mode TREE)
      else
        setSTATE (set_gesture NONE) ;;;
        s <~ getSTATE ;;
        match mode s with
        | SCATTER => setSTATE (set_mode TREE)
        | _ => ret tt
        end
  | None =>
      setSTATE (set_handDetected false) ;;;
      setSTATE (set_mode TREE)
  end.

(** The second definition, lines 408-469. *)
Definition handleGestures (results : Results) : M unit :=
  match hand_of results with
  | Some lm =>
      setSTATE (set_handDetected true) ;;;
      d <~ measure lm ;;
      let '(pinchDist, avgTipDist) := d in
      if (pinchDist <? 0.05)%num then
        setSTATE (set_gesture PINCH) ;;;
        setSTATE (set_mode FOCUS) ;;;
        triggerFocus
      else if (avgTipDist >? 0.45)%num then
        setSTATE (set_gesture OPEN) ;;;
        setSTATE (set_mode SCATTER)
      else if (avgTipDist <? 0.25)%num then
        setSTATE (set_gesture FIST) ;;;
        setSTATE (set_mode TREE)
      else
        setSTATE (set_gesture NONE) ;;;
        s <~ getSTATE ;;
        match mode s with
        | SCATTER | FOCUS => setSTATE (set_mode TREE)
        | TREE => ret tt
        end
  | None =>
      setSTATE (set_handDetected false) ;;;
      setSTATE (set_mode TREE)
  end.

(** The definition of the last document, lines 2492-2542. *)
Definition handleGestures_last (results : Results) : M unit :=
  match hand_of results with
  | Some lm =>
      setSTATE (set_handDetected true) ;;;
      d <~ measure lm ;;
      let '(pinchDist, avgTipDist) := d in
      if (pinchDist <? 0.05)%num then
        setSTATE (set_gesture PINCH) ;;;
        setSTATE (set_mode FOCUS) ;;;
        triggerFocus
      else if (avgTipDist <? 0.2)%num then
        setSTATE (set_gesture FIST) ;;;
        setSTATE (set_mode TREE)
      else if (avgTipDist >? 0.35)%num then
        setSTATE (set_gesture OPEN) ;;;
        setSTATE (set_mode SCATTER)
      else
        setSTATE (set_gesture NONE)
  | None =>
      setSTATE (set_handDetected false)
  end.

End ScriptJs.

(** * The gesture classifier in the words of the specification

    A hand with finite coordinates is a list of points.  The definitions
    below follow the specification; the theorems compare them with
    [MainJs.detectGesture]. *)

Module GestureSpec.

(** The landmark with the coordinates of a point. *)
Definition landmark (p : Vector3.t) : Landmark.t :=
  Landmark.mk (Num.Fin (Vector3.x p)) (Num.Fin (Vector3.y p)) (Num.Fin (Vector3.z p)).

Definition origin : Vector3.t := Vector3.mk 0 0 0.

(** The landmark of index [i] of a hand. *)
Definition point (hand : list Vector3.t) (i : nat) : Vector3.t := nth i hand origin.

(** Euclidean distance in three dimensions. *)
Definition distance3 (p q : Vector3.t) : R :=
  sqrt ((Vector3.x p - Vector3.x q) ^ 2 + (Vector3.y p - Vector3.y q) ^ 2
        + (Vector3.z p - Vector3.z q) ^ 2).

Definition wrist : nat := 0.

(** The non-thumb fingers, each as (tip, knuckle): index, middle, ring,
    pinky. *)
Definition fingers : list (nat * nat) := [(8, 5); (12, 9); (16, 13); (20, 17)]%nat.

(** A finger is extended iff [dTip > dMcp * 1.5]. *)
Definition extended (hand : list Vector3.t) (finger : nat * nat) : Prop :=
  let dTip := distance3 (point hand (fst finger)) (point hand wrist) in
  let dMcp := distance3 (point hand (snd finger)) (point hand wrist) in
  dTip > dMcp * 1.5.

Definition extended_dec (hand : list Vector3.t) (finger : nat * nat)
  : {extended hand finger} + {~ extended hand finger} :=
  Rgt_dec _ _.

(** The number of extended fingers. *)
Definition extendedCount (hand : list Vector3.t) : nat :=
  List.length (filter (fun f => if extended_dec hand f then true else false) fingers).

End GestureSpec.

(** * What [handleGestures] measures

    The quantities the hand branch of [ScriptJs.handleGestures] computes, as
    functions of the landmark list, and the same for a hand with finite
    coordinates in the words of the specification. *)

Module HandMeasures.

Import ScriptJs.

Definition undefined_landmark : Landmark.t := Landmark.mk Num.NaN Num.NaN Num.NaN.

Definition lm_at (lm : list Landmark.t) (i : nat) : Landmark.t :=
  nth i lm undefined_landmark.

Definition hypot2 (p q : Landmark.t) : Num.t :=
  Num.hypot (Landmark.x p - Landmark.x q) (Landmark.y p - Landmark.y q).

Definition pinchDist (lm : list Landmark.t) : Num.t :=
  hypot2 (lm_at lm 4) (lm_at lm 8).

Definition avgTipDist (lm : list Landmark.t) : Num.t :=
  ((Num.Fin 0 + hypot2 (lm_at lm 8) (lm_at lm 0) + hypot2 (lm_at lm 12) (lm_at lm 0)
    + hypot2 (lm_at lm 16) (lm_at lm 0) + hypot2 (lm_at lm 20) (lm_at lm 0)) / 4)%num.

(** [STATE.handRotation] after the two smoothing assignments. *)
Definition smoothed (lm : list Landmark.t) (r : Num.t * Num.t) : Num.t * Num.t :=
  let palm := lm_at lm 9 in
  let targetRotX := ((Landmark.y palm - 0.5) * 1.5)%num in
  let targetRotY := ((Landmark.x palm - 0.5) * 2.5)%num in
  ((fst r + (targetRotX - fst r) * 0.1)%num, (snd r + (targetRotY - snd r) * 0.1)%num).

(** The world once a hand has been seen and its rotation smoothed. *)
Definition tracked (lm : list Landmark.t) (w : World) : World :=
  on_STATE (fun s => set_handRotation (smoothed lm (handRotation s))
                       (set_handDetected true s)) w.

(** Euclidean distance in the image plane (x and y only). *)
Definition distance2 (p q : Vector3.t) : R :=
  sqrt ((Vector3.x p - Vector3.x q) ^ 2 + (Vector3.y p - Vector3.y q) ^ 2).

(** Thumb tip to index tip. *)
Definition pinchDistance (hand : list Vector3.t) : R :=
  distance2 (GestureSpec.point hand 4) (GestureSpec.point hand 8).

(** Mean distance of the four finger tips from the wrist. *)
Definition avgTipDistance (hand : list Vector3.t) : R :=
  (0 + distance2 (GestureSpec.point hand 8) (GestureSpec.point hand 0)
   + distance2 (GestureSpec.point hand 12) (GestureSpec.point hand 0)
   + distance2 (GestureSpec.point hand 16) (GestureSpec.point hand 0)
   + distance2 (GestureSpec.point hand 20) (GestureSpec.point hand 0)) / 4.

(** The label each definition gives a hand, read off its chain of tests:
    [label] for lines 233-287 and 408-469, which test alike, and
    [label_last] for lines 2492-2542. *)
Definition label (lm : list Landmark.t) : Gesture :=
  if (pinchDist lm <? 0.05)%num then PINCH
  else if (avgTipDist lm >? 0.45)%num then OPEN
  else if (avgTipDist lm <? 0.25)%num then FIST
  else NONE.

Definition label_last (lm : list Landmark.t) : Gesture :=
  if (pinchDist lm <? 0.05)%num then PINCH
  else if (avgTipDist lm <? 0.2)%num then FIST
  else if (avgTipDist lm >? 0.35)%num then OPEN
  else NONE.

(** The video frames handled one after the other, from world [w]: the
    gesture and the mode in [STATE] after each frame.  A frame that throws
    ends the loop, since the next frame is requested after the call. *)
Fixpoint trace (hg : Results -> M unit) (frames : list Results) (w : World)
  : list (Gesture * Mode) :=
  match frames with
  | [] => []
  | fr :: rest =>
      match hg fr w with
      | (Ok _, w') => (gesture (STATE w'), mode (STATE w')) :: trace hg rest w'
      | (TypeError, _) => []
      end
  end.

(** The mode the last definition leaves, from the label and the mode
    before: NONE writes no mode. *)
Definition next_last (g : Gesture) (previous : Mode) : Mode :=
  match g with
  | PINCH => FOCUS
  | FIST => TREE
  | OPEN => SCATTER
  | NONE => previous
  end.

End HandMeasures.

(** * The mode state machine in the words of the specification

    The transition table: PINCH gives FOCUS, OPEN gives SCATTER, a closed
    hand gives TREE, NONE gives TREE from every mode, and so does a frame
    without a hand ([None]). *)

Module ModeSpec.

Import ScriptJs.

Definition next (g : option Gesture) (previous : Mode) : Mode :=
  match g with
  | Some PINCH => FOCUS
  | Some OPEN => SCATTER
  | Some FIST => TREE
  | Some NONE =>
      match previous with
      | SCATTER | FOCUS => TREE
      | TREE => TREE
      end
  | None => TREE
  end.

(** The gestures and modes of a run of the machine whose transition is
    [step], from mode [previous]. *)
Fixpoint run (step : Gesture -> Mode -> Mode) (gs : list Gesture) (previous : Mode)
  : list (Gesture * Mode) :=
  match gs with
  | [] => []
  | g :: rest => let m := step g previous in (g, m) :: run step rest m
  end.

End ModeSpec.

(** * Segments

    [on_segment a b p]: the point [p] is a convex combination of [a] and
    [b]. *)

Definition combination (a b : Vector3.t) (t : R) : Vector3.t :=
  Vector3.mk ((1 - t) * Vector3.x a + t * Vector3.x b)
             ((1 - t) * Vector3.y a + t * Vector3.y b)
             ((1 - t) * Vector3.z a + t * Vector3.z b).



(** * main.js: the particle buffers, the fragment shader and the two loops *)

Module MainJsScene.

Import MainJs.

(** Code that calls [Math.random()]: it consumes the values the calls are
    going to return, in order. *)
Definition Gen (A : Type) : Type := ScriptJs.Rand -> A * ScriptJs.Rand.

Definition gret {A : Type} (a : A) : Gen A := fun r => (a, r).
Definition gbind {A B : Type} (m : Gen A) (k : A -> Gen B) : Gen B :=
  fun r => let '(a, r') := m r in k a r'.
Definition random : Gen R := fun r => (r 0%nat, fun n => r (S n)).

Declare Scope gen_scope.
Delimit Scope gen_scope with gen.
Notation "x <~ m ;; k" := (gbind m (fun x => k))
  (at level 61, m at next level, right associativity) : gen_scope.
Local Open Scope gen_scope.

(** [tempColor] after the chain of tests on [rand]: one of the palette
    colours, or [c_green_deep] moved towards [c_green_light] by [alpha]. *)
Inductive Tint : Type := c_gold | c_red | c_white | leaves (alpha : R).

(** The five buffers are [Float32Array]s (lines 45-49): a store rounds the
    number to the nearest 32-bit float, as [Math.fround] does.  [fround] is
    that rounding.  [float32_store] gathers what is used of it: it is
    monotone, it keeps every multiple of one half up to 100 in size, and it
    moves a number of size at most 100 by at most [1 / 100000] (half the
    gap between two floats below 128 is [2 ^ -18]). *)
Definition float32_store (fround : R -> R) : Prop :=
  (forall a b, a <= b -> fround a <= fround b) /\
  (forall k : Z, (Z.abs k <= 200)%Z -> fround (IZR k / 2) = IZR k / 2) /\
  (forall a, Rabs a <= 100 -> Rabs (fround a - a) <= 1 / 100000).

(** What one round of the loop (lines 60-119) leaves at index [i] of the
    five buffers, each number as stored.  [tint] stands for the three
    components of [tempColor] in [colors]. *)
Record Particle : Type := {
  treePosition : vec3;
  scatterPosition : vec3;
  tint : Tint;
  size : R;
  random3 : vec3
}.

(** One round of the loop. *)
Definition particle (fround : R -> R) : Gen Particle :=
  u <~ random ;;
  let y := u * 20 - 10 in
  let level := (10 - y) / 20 in
  let radiusBase := level * 7.5 in
  u <~ random ;;
  let angle := y * 6.0 + u * 6.28 in
  u <~ random ;;
  let rOffset := u * 1.5 * level in
  let treePosition' :=
    Vec3 (fround (cos angle * (radiusBase + rOffset))) (fround y)
         (fround (sin angle * (radiusBase + rOffset))) in
  u <~ random ;;
  let rScatter := 15 + u * 25 in
  u <~ random ;;
  let aScatter := u * 6.28 in
  u <~ random ;;
  let scatterPosition' :=
    Vec3 (fround (cos aScatter * rScatter)) (fround ((u - 0.5) * 10))
         (fround (sin aScatter * rScatter)) in
  rand <~ random ;;
  ts <~ (if Rgtb rand 0.96 then u <~ random ;; gret (c_gold, 3.5 + u * 2.0)
         else if Rgtb rand 0.94 then u <~ random ;; gret (c_red, 3.0 + u)
         else if Rgtb rand 0.90 then u <~ random ;; gret (c_white, 2.0 + u)
         else a <~ random ;; u <~ random ;; gret (leaves (a * 0.7), 0.8 + u * 1.2)) ;;
  r1 <~ random ;; r2 <~ random ;; r3 <~ random ;;
  gret {| treePosition := treePosition'; scatterPosition := scatterPosition';
          tint := fst ts; size := fround (snd ts);
          random3 := Vec3 (fround r1) (fround r2) (fround r3) |}.

(** The whole loop, for [count] particles; main.js runs it with
    [PARTICLE_COUNT], which is 45000. *)
Fixpoint particles (fround : R -> R) (count : nat) : Gen (list Particle) :=
  match count with
  | O => gret []
  | S k => p <~ particle fround ;; rest <~ particles fround k ;; gret (p :: rest)
  end.

(** Distance of a point from the vertical axis. *)
Definition axisDistance (v : vec3) : R := sqrt (x3 v * x3 v + z3 v * z3 v).

(** How far the rounding of the stores may take a stored point from the
    bounds of its formation. *)
Definition storeTolerance : R := 1 / 10000.

(** The tree formation is a hollow cone around the vertical axis, 20 high
    with its apex at [y = 10]: at the level [(10 - y) / 20] below the apex a
    point is between 7.5 and 9 times the level away from the axis, up to
    [storeTolerance]. *)
Definition in_tree_cone (v : vec3) : Prop :=
  -10 <= y3 v <= 10 /\
  let level := (10 - y3 v) / 20 in
  level * 7.5 - storeTolerance <= axisDistance v <= level * 9 + storeTolerance.

(** The scatter formation is a flat ring: between 15 and 40 from the axis,
    up to [storeTolerance], and at most 5 above or below the origin. *)
Definition in_scatter_ring (v : vec3) : Prop :=
  15 - storeTolerance <= axisDistance v <= 40 + storeTolerance /\ -5 <= y3 v <= 5.

(** The stored sizes each tint comes with; the smallest leaf has the
    stored value of 0.8, which is not a 32-bit float itself. *)
Definition size_of_tint (fround : R -> R) (p : Particle) : Prop :=
  match tint p with
  | c_gold => 3.5 <= size p <= 5.5
  | c_red => 3 <= size p <= 4
  | c_white => 2 <= size p <= 3
  | leaves alpha => 0 <= alpha <= 0.7 /\ fround 0.8 <= size p <= 2
  end.

(** GLSL [pow(x, y)] for [x >= 0]: [x] to the power [y], which is 0 at
    [x = 0] for the positive [y] used here.  GLSL leaves a negative [x]
    undefined; it is 0 here. *)
Definition glsl_pow (x y : R) : R := if Rltb 0 x then Rpower x y else 0.

(** [main] of the fragment shader (lines 254-270): [None] is [discard],
    otherwise the colour and the alpha of [gl_FragColor]. *)
Definition fragment (vColor : vec3) (vAlpha : R) (gl_PointCoord : R * R)
  : option (vec3 * R) :=
  let xy := (fst gl_PointCoord - 0.5, snd gl_PointCoord - 0.5) in
  let r := sqrt (fst xy * fst xy + snd xy * snd xy) in
  if Rgtb r 0.5 then None
  else
    let glow := 1.0 - (r * 2.0) in
    let glow := glsl_pow glow 1.5 in
    Some (vColor, vAlpha * glow).

(** Distance of a point of the sprite from its centre [(0.5, 0.5)]. *)
Definition fromCentre (c : R * R) : R :=
  sqrt ((fst c - 0.5) * (fst c - 0.5) + (snd c - 0.5) * (snd c - 0.5)).

(** [vAlpha = 1.0], the last line of the vertex shader. *)
Definition vAlpha : R := 1.0.

(** [predictWebcam] processes the frame: the landmarker is loaded and the
    video has moved on since the last processed frame. *)
Definition processed (fr : Frame) (s : State) : Prop :=
  handLandmarker fr = true /\ currentTime fr <> lastVideoTime s.

(** The two loops of main.js, each driven by [requestAnimationFrame]:
    [predictWebcam] on a video frame and [animate] on a display frame.
    [predictWebcam] asks for its next call at its end, so a call that throws
    ends the video loop; it has written [state.lastVideoTime] by then. *)
Inductive Tick : Type :=
| video (fr : Frame)
| display.

Record Page : Type := {
  state : State;
  uniforms : Uniforms;
  videoLoop : bool
}.

Definition page0 : Page :=
  {| state := state0;
     uniforms := {| uTime := 0; uMix := 0.0; uPixelRatio := 1 |};
     videoLoop := true |}.

Definition tick (t : Tick) (p : Page) : Page :=
  match t with
  | display =>
      {| state := state p; uniforms := animate (state p) (uniforms p);
         videoLoop := videoLoop p |}
  | video fr =>
      if videoLoop p then
        match predictWebcam fr (state p) with
        | Ok state' =>
            {| state := state'; uniforms := uniforms p; videoLoop := true |}
        | TypeError =>
            {| state := {| gesture := gesture (state p);
                           targetMix := targetMix (state p);
                           lastVideoTime := currentTime fr |};
               uniforms := uniforms p; videoLoop := false |}
        end
      else p
  end.

Fixpoint run (ticks : list Tick) (p : Page) : Page :=
  match ticks with
  | [] => p
  | t :: rest => run rest (tick t p)
  end.

(** The range the two blend values are meant to stay in. *)
Definition blend_in_range (p : Page) : Prop :=
  0 <= targetMix (state p) <= 1 /\ 0 <= uMix (uniforms p) < 1.

(** The number of display frames among the ticks. *)
Definition displays (ticks : list Tick) : nat :=
  List.length (filter (fun t => match t with display => true | video _ => false end) ticks).

End MainJsScene.

(** * script.js, first and last document: the formations and the frames *)

Module ScriptJsScene.

Import ScriptJs.
Local Open Scope m_scope.

(** Distance of a point from the vertical axis, and between two points. *)
Definition axisDistance (v : Vector3.t) : R :=
  sqrt (Vector3.x v * Vector3.x v + Vector3.z v * Vector3.z v).

Definition distance (a b : Vector3.t) : R :=
  sqrt ((Vector3.x a - Vector3.x b) * (Vector3.x a - Vector3.x b)
        + (Vector3.y a - Vector3.y b) * (Vector3.y a - Vector3.y b)
        + (Vector3.z a - Vector3.z b) * (Vector3.z a - Vector3.z b)).

(** The tree of script.js is a cone around the vertical axis: 25 high, from
    [y = -12.5] to the apex at [y = 12.5], with base radius 10, so that its
    radius at height [y] is [(12.5 - y) * 0.4]. *)
Definition coneRadius (y : R) : R := (12.5 - y) * 0.4.

Definition in_cone (v : Vector3.t) : Prop :=
  -12.5 <= Vector3.y v <= 12.5 /\ axisDistance v <= coneRadius (Vector3.y v).

Definition on_cone (v : Vector3.t) : Prop :=
  -12.5 <= Vector3.y v <= 12.5 /\ axisDistance v = coneRadius (Vector3.y v).

(** The shell of the scatter formation. *)
Definition in_shell (v : Vector3.t) : Prop := 10 <= Vector3.length v < 25.

(** A mesh as the constructor and [addPhoto] leave it: at its tree
    position, with scale 1, its tree position in the cone and its scatter
    position in the shell. *)
Definition fresh (m : Mesh) : Prop :=
  position m = treePos (userData m) /\
  scale m = Vector3.mk 1 1 1 /\
  in_cone (treePos (userData m)) /\
  in_shell (scatterPos (userData m)).

(** [n] display frames of [update] with the same [delta] and [mode]. *)
Fixpoint updates (n : nat) (delta time : R) (mode' : Mode) : M unit :=
  match n with
  | O => ret tt
  | S k => update delta time mode' ;;; updates k delta time mode'
  end.


(** The rotation of [mainGroup], an Euler angle about x and one about y. *)
Definition Rotation : Type := (Num.t * Num.t)%type.

(** [animate()] of [ChristmasApp] (lines 471-497), for the [delta] and
    [time] its clock gives: the rotation of [mainGroup] it leaves, and
    [particleSystem.update] on the world.  The background uniform and the
    render call are left out. *)
Definition animate (delta time : R) (rotation : Rotation) : M Rotation :=
  s <~ getSTATE ;;
  let rotation' :=
    if handDetected s then handRotation s
    else
      let y := (snd rotation + 0.002)%num in
      let x := Num.Fin (sin (time * 0.5) * 0.05) in
      (x, y) in
  update delta time (mode s) ;;;
  ret rotation'.

End ScriptJsScene.

(** * script.js, second document (lines 694-1226): the photo wall

    A point-cloud tree with six photos hung around it, snow, and a cursor
    steered by the index finger or, without a hand, by the pointer.  The
    page is modelled as a record of what the handlers read and write.  Two
    calls into three.js are taken as inputs of a display frame: the first
    photo [raycaster.intersectObjects(photos)] reports, as its index in
    [photos], and the point [vector.unproject(camera)] returns.  Orientation
    ([lookAt]) and rendering are left out; window sizes are positive
    numbers. *)

Module PhotoWall.

Definition TREE_HEIGHT : R := 20.
Definition TREE_RADIUS : R := 8.
Definition photoCount : nat := 6.

(** Unary minus. *)
Definition neg (a : Num.t) : Num.t :=
  match a with Num.Fin u => Num.Fin (- u) | Num.NaN => Num.NaN end.

(** [handState] *)
Record HandState : Type := {
  x : Num.t;
  y : Num.t;
  pinching : bool;
  visible : bool;
  vector : Num.t * Num.t
}.

Definition handState0 : HandState :=
  {| x := Num.Fin 0; y := Num.Fin 0; pinching := false; visible := false;
     vector := (Num.Fin 0, Num.Fin 0) |}.

(** The style of the [cursor] element: [left] and [top] in pixels ([None]
    while unset), whether it is displayed, whether it has the colour and
    size of a pinch, and its border. *)
Inductive Colour : Type := gold | cyan.

Record Cursor : Type := {
  left : option Num.t;
  top : option Num.t;
  display : bool;
  pinched : bool;
  borderColor : Colour
}.

Definition cursor0 : Cursor :=
  {| left := None; top := None; display := false; pinched := false;
     borderColor := gold |}.

(** A photo: its mesh position and scale, and its [userData]. *)
Record Photo : Type := {
  position : Vector3.t;
  scale : Vector3.t;
  initialAngle : R;
  radius : R;
  originalY : R
}.

(** A snow flake: its three entries in the position array and in
    [snowVel].  The position array holds 32-bit floats; as everywhere here
    the numbers are reals, so the rounding of a store is left out. *)
Record Flake : Type := {
  flakePosition : Vector3.t;
  flakeVelocity : Vector3.t
}.

Record Page : Type := {
  handState : HandState;
  cursor : Cursor;
  innerWidth : R;
  innerHeight : R;
  photos : list Photo;
  grabbedPhoto : option nat;
  particlesRotationY : R;
  starRotationY : R;
  snow : list Flake
}.

Definition set_handState (h : HandState) (p : Page) : Page :=
  {| handState := h; cursor := cursor p; innerWidth := innerWidth p;
     innerHeight := innerHeight p; photos := photos p; grabbedPhoto := grabbedPhoto p;
     particlesRotationY := particlesRotationY p; starRotationY := starRotationY p;
     snow := snow p |}.
Definition set_cursor (c : Cursor) (p : Page) : Page :=
  {| handState := handState p; cursor := c; innerWidth := innerWidth p;
     innerHeight := innerHeight p; photos := photos p; grabbedPhoto := grabbedPhoto p;
     particlesRotationY := particlesRotationY p; starRotationY := starRotationY p;
     snow := snow p |}.
Definition set_photos (l : list Photo) (p : Page) : Page :=
  {| handState := handState p; cursor := cursor p; innerWidth := innerWidth p;
     innerHeight := innerHeight p; photos := l; grabbedPhoto := grabbedPhoto p;
     particlesRotationY := particlesRotationY p; starRotationY := starRotationY p;
     snow := snow p |}.
Definition set_grabbedPhoto (g : option nat) (p : Page) : Page :=
  {| handState := handState p; cursor := cursor p; innerWidth := innerWidth p;
     innerHeight := innerHeight p; photos := photos p; grabbedPhoto := g;
     particlesRotationY := particlesRotationY p; starRotationY := starRotationY p;
     snow := snow p |}.
Definition set_particlesRotationY (r : R) (p : Page) : Page :=
  {| handState := handState p; cursor := cursor p; innerWidth := innerWidth p;
     innerHeight := innerHeight p; photos := photos p; grabbedPhoto := grabbedPhoto p;
     particlesRotationY := r; starRotationY := starRotationY p;
     snow := snow p |}.
Definition set_starRotationY (r : R) (p : Page) : Page :=
  {| handState := handState p; cursor := cursor p; innerWidth := innerWidth p;
     innerHeight := innerHeight p; photos := photos p; grabbedPhoto := grabbedPhoto p;
     particlesRotationY := particlesRotationY p; starRotationY := r;
     snow := snow p |}.
Definition set_snow (l : list Flake) (p : Page) : Page :=
  {| handState := handState p; cursor := cursor p; innerWidth := innerWidth p;
     innerHeight := innerHeight p; photos := photos p; grabbedPhoto := grabbedPhoto p;
     particlesRotationY := particlesRotationY p; starRotationY := starRotationY p;
     snow := l |}.

(** [updateCursor(ndcX, ndcY, isPinching)] *)
Definition updateCursor (ndcX ndcY : Num.t) (isPinching : bool) (p : Page) : Page :=
  let cssX := (((ndcX + 1) / 2) * Num.Fin (innerWidth p))%num in
  let cssY := (((neg ndcY + 1) / 2) * Num.Fin (innerHeight p))%num in
  set_cursor {| left := Some cssX; top := Some cssY; display := true;
                pinched := isPinching; borderColor := borderColor (cursor p) |} p.

(** [hideCursor()] *)
Definition hideCursor (p : Page) : Page :=
  set_cursor {| left := left (cursor p); top := top (cursor p); display := false;
                pinched := pinched (cursor p); borderColor := borderColor (cursor p) |} p.

(** [updateHandStateFromInput(clientX, clientY)] *)
Definition updateHandStateFromInput (clientX clientY : R) (p : Page) : Page :=
  let x' := ((Num.Fin clientX / Num.Fin (innerWidth p)) * 2 - 1)%num in
  let y' := (neg (Num.Fin clientY / Num.Fin (innerHeight p)) * 2 + 1)%num in
  let h := handState p in
  let p := set_handState {| x := x'; y := y'; pinching := pinching h;
                            visible := visible h; vector := (x', y') |} p in
  updateCursor (x (handState p)) (y (handState p)) (pinching (handState p)) p.

(** [onResults(results)]; the argument is [results.multiHandLandmarks].
    Reading [indexTip.x] throws when [landmarks[8]] is [undefined], before
    anything is written. *)
Definition onResults (results : ScriptJs.Results) (p : Page) : Result Page :=
  match ScriptJs.hand_of results with
  | Some landmarks =>
      let indexTip := at_index landmarks 8 in
      let thumbTip := at_index landmarks 4 in
      ix <- prop indexTip Landmark.x ;; tx <- prop thumbTip Landmark.x ;;
      iy <- prop indexTip Landmark.y ;; ty <- prop thumbTip Landmark.y ;;
      let distance := Num.hypot (ix - tx) (iy - ty) in
      let x' := ((ix * 2) - 1)%num in
      let x' := neg x' in
      let y' := (neg (iy * 2) + 1)%num in
      let pinching' := (distance <? 0.05)%num in
      let p := set_handState {| x := x'; y := y'; pinching := pinching';
                                visible := true; vector := (x', y') |} p in
      Ok (updateCursor (x (handState p)) (y (handState p)) (pinching (handState p)) p)
  | None =>
      let h := handState p in
      let p := set_handState {| x := x h; y := y h; pinching := pinching h;
                                visible := false; vector := vector h |} p in
      Ok (hideCursor p)
  end.

(** The pointer listeners [setupMediaPipe] installs; a touch carries its
    [clientX] and [clientY]. *)
Inductive Event : Type :=
| mousemove (clientX clientY : R)
| mousedown
| mouseup
| touchmove (touches : list (R * R))
| touchstart
| touchend.

Definition set_pinching (b : bool) (p : Page) : Page :=
  let h := handState p in
  set_handState {| x := x h; y := y h; pinching := b; visible := visible h;
                   vector := vector h |} p.

Definition listener (e : Event) (p : Page) : Page :=
  if visible (handState p) then p
  else
    match e with
    | mousemove clientX clientY => updateHandStateFromInput clientX clientY p
    | mousedown | touchstart => set_pinching true p
    | mouseup | touchend => set_pinching false p
    | touchmove ((clientX, clientY) :: _) => updateHandStateFromInput clientX clientY p
    | touchmove [] => p
    end.

(** One round of the loop of [setupPhotos]. *)
Definition newPhoto (i : nat) : Photo :=
  let t := INR i / INR photoCount in
  let y := 3 + t * 10 in
  let radius := TREE_RADIUS * (1 - t * 0.5) + 1 in
  let angle := t * PI * 2 * 2 in
  {| position := Vector3.mk (cos angle * radius) y (sin angle * radius);
     scale := Vector3.mk 1 1 1;
     initialAngle := angle; radius := radius; originalY := y |}.

(** [setupPhotos(scene)] *)
Definition setupPhotos (p : Page) : Page :=
  set_photos (photos p ++ map newPhoto (seq 0 photoCount)) p.

(** One round of the snow loop of [init], with the six values of
    [Math.random()] in the order of the calls. *)
Definition newFlake (u1 u2 u3 u4 u5 u6 : R) : Flake :=
  {| flakePosition := Vector3.mk ((u1 - 0.5) * 50) ((u2 - 0.5) * 50) ((u3 - 0.5) * 50);
     flakeVelocity := Vector3.mk ((u4 - 0.5) * 0.1) (- (u5 * 0.1 + 0.05)) ((u6 - 0.5) * 0.1) |}.

(** One round of the snow loop of [animate]. *)
Definition snowStep (f : Flake) : Flake :=
  let x := Vector3.x (flakePosition f) + Vector3.x (flakeVelocity f) in
  let y := Vector3.y (flakePosition f) + Vector3.y (flakeVelocity f) in
  let z := Vector3.z (flakePosition f) + Vector3.z (flakeVelocity f) in
  let y := if Rltb y (-15) then 15 else y in
  {| flakePosition := Vector3.mk x y z; flakeVelocity := flakeVelocity f |}.

(** [camera.position], set once by [init]. *)
Definition cameraPosition : Vector3.t := Vector3.mk 0 10 25.

(** three.js: [a.sub(b)], [a.add(b)] and [a.normalize()], which divides by
    [a.length() || 1]. *)
Definition sub (a b : Vector3.t) : Vector3.t :=
  Vector3.mk (Vector3.x a - Vector3.x b) (Vector3.y a - Vector3.y b)
             (Vector3.z a - Vector3.z b).
Definition add (a b : Vector3.t) : Vector3.t :=
  Vector3.mk (Vector3.x a + Vector3.x b) (Vector3.y a + Vector3.y b)
             (Vector3.z a + Vector3.z b).
Definition normalize (a : Vector3.t) : Vector3.t :=
  let l := Vector3.length a in
  Vector3.multiplyScalar a (1 / (if Req_dec_T l 0 then 1 else l)).

(** [f] on the element at index [n], if there is one. *)
Fixpoint on_nth {A : Type} (f : A -> A) (n : nat) (l : list A) : list A :=
  match l, n with
  | [], _ => []
  | a :: rest, O => f a :: rest
  | a :: rest, S k => a :: on_nth f k rest
  end.

Definition set_position (v : Vector3.t) (ph : Photo) : Photo :=
  {| position := v; scale := scale ph; initialAngle := initialAngle ph;
     radius := radius ph; originalY := originalY ph |}.
Definition set_scale (v : Vector3.t) (ph : Photo) : Photo :=
  {| position := position ph; scale := v; initialAngle := initialAngle ph;
     radius := radius ph; originalY := originalY ph |}.

(** [updateInteractions(camera, scene)]: [hit] is the photo of the first
    intersection, if any, and [unprojected] the point
    [vector.unproject(camera)] gives. *)
Definition updateInteractions (hit : option nat) (unprojected : Vector3.t) (p : Page)
  : Page :=
  if negb (visible (handState p)) then p
  else
    let c := cursor p in
    let p := set_cursor {| left := left c; top := top c; display := display c;
                           pinched := pinched c;
                           borderColor := match hit with Some _ => cyan | None => gold end |}
                        p in
    let p :=
      if pinching (handState p) then
        match grabbedPhoto p, hit with
        | None, Some h => set_grabbedPhoto (Some h) p
        | _, _ => p
        end
      else
        match grabbedPhoto p with
        | Some _ => set_grabbedPhoto None p
        | None => p
        end in
    match grabbedPhoto p with
    | Some g =>
        let dir := normalize (sub unprojected cameraPosition) in
        let distance := 15 in
        let targetPos := add cameraPosition (Vector3.multiplyScalar dir distance) in
        set_photos (on_nth (fun ph => set_scale (Vector3.mk 1.5 1.5 1.5)
                                        (set_position targetPos ph)) g (photos p)) p
    | None =>
        set_photos (map (fun ph => if Rgtb (Vector3.x (scale ph)) 1
                                   then set_scale (Vector3.mk 1 1 1) ph else ph)
                        (photos p)) p
    end.

(** [animate()] at clock time [time]. *)
Definition animate (time : R) (hit : option nat) (unprojected : Vector3.t) (p : Page)
  : Page :=
  let p :=
    match grabbedPhoto p with
    | None =>
        let p := set_particlesRotationY (time * 0.05) p in
        let treeRotation := particlesRotationY p in
        set_photos (map (fun ph =>
                           let currentAngle := initialAngle ph + treeRotation in
                           set_position
                             (Vector3.mk (cos currentAngle * radius ph)
                                         (Vector3.y (position ph))
                                         (sin currentAngle * radius ph)) ph)
                        (photos p)) p
    | Some _ => p
    end in
  let p := set_starRotationY (- time * 0.2) p in
  let p := set_snow (map snowStep (snow p)) p in
  updateInteractions hit unprojected p.

(** What happens to the page: a detection result, a pointer event or a
    display frame. *)
Inductive Input : Type :=
| results (r : ScriptJs.Results)
| pointer (e : Event)
| frame (time : R) (hit : option nat) (unprojected : Vector3.t).

Definition handle (i : Input) (p : Page) : Result Page :=
  match i with
  | results r => onResults r p
  | pointer e => Ok (listener e p)
  | frame time hit unprojected => Ok (animate time hit unprojected p)
  end.

(** The inputs handled one after the other, up to the first throw. *)
Fixpoint run (inputs : list Input) (p : Page) : Result Page :=
  match inputs with
  | [] => Ok p
  | i :: rest => p' <- handle i p ;; run rest p'
  end.

(** An input that shows no hand, and the number of display frames among
    the inputs. *)
Definition handless (i : Input) : Prop :=
  match i with
  | results r => ScriptJs.hand_of r = None
  | _ => True
  end.

Fixpoint displayed (inputs : list Input) : nat :=
  match inputs with
  | [] => O
  | frame _ _ _ :: rest => S (displayed rest)
  | _ :: rest => displayed rest
  end.

(** Distance from the vertical axis, and between two points. *)
Definition axisDistance (v : Vector3.t) : R :=
  sqrt (Vector3.x v * Vector3.x v + Vector3.z v * Vector3.z v).

(** The two components of [handState.vector] are [handState.x] and
    [handState.y]. *)
Definition vector_in_step (p : Page) : Prop :=
  vector (handState p) = (x (handState p), y (handState p)).

End PhotoWall.

(** * Sample inputs *)

(** A hand laid along the x axis: the wrist and the landmarks not named
    here at 0, the four finger tips at [tips], their knuckles at [knuckles]
    and the thumb tip at [thumb]. *)
Definition hand_on_x_axis (tips knuckles thumb : R) : list Vector3.t :=
  map (fun i => Vector3.mk
                  (if existsb (Nat.eqb i) [8; 12; 16; 20]%nat then tips
                   else if existsb (Nat.eqb i) [5; 9; 13; 17]%nat then knuckles
                   else if (i =? 4)%nat then thumb else 0)
                  0 0)
      (seq 0 21).

(** Four fingers stretched, the thumb tip on the index tip. *)
Definition stretched_hand : list Vector3.t := hand_on_x_axis 2 1 2.

(** Four fingers stretched, the thumb away from them. *)
Definition open_hand : list Vector3.t := hand_on_x_axis 1 0.5 0.

(** Finger tips at 0.3 from the wrist: neither a fist nor an open hand for
    any of the three definitions of [handleGestures]. *)
Definition ambiguous_hand : list Vector3.t := hand_on_x_axis 0.3 0.1 0.

(** A list with the wrist only, and a hand of 21 landmarks whose coordinates
    are all NaN. *)
Definition wrist_only : list Landmark.t :=
  [Landmark.mk (Num.Fin 0.5) (Num.Fin 0.5) (Num.Fin 0)].

Definition nan_hand : list Landmark.t :=
  repeat (Landmark.mk Num.NaN Num.NaN Num.NaN) 21.

(** The detection result of a video frame that shows one hand with finite
    coordinates, and of a frame that shows none. *)
Definition frame_of (hand : list Vector3.t) : ScriptJs.Results :=
  Some [map GestureSpec.landmark hand].

Definition no_hands : ScriptJs.Results := Some [].

(** Two frames with an open hand, then two with an ambiguous one. *)
Definition open_open_none_none : list ScriptJs.Results :=
  [frame_of open_hand; frame_of open_hand;
   frame_of ambiguous_hand; frame_of ambiguous_hand].

(** A world before the constructor has run. *)
Definition empty_world : ScriptJs.World :=
  {| ScriptJs.STATE := ScriptJs.STATE0; ScriptJs.items := []; ScriptJs.rand := fun _ => 0 |}.

(** A world whose mode is SCATTER. *)
Definition scattered_world : ScriptJs.World :=
  ScriptJs.on_STATE (ScriptJs.set_mode ScriptJs.SCATTER) empty_world.

(** A world whose draws are all 0.5. *)
Definition half_world : ScriptJs.World :=
  {| ScriptJs.STATE := ScriptJs.STATE0; ScriptJs.items := []; ScriptJs.rand := fun _ => 0.5 |}.

(** A particle at its tree position, and a world that holds it. *)
Definition sample_mesh : ScriptJs.Mesh :=
  {| ScriptJs.geometry := ScriptJs.boxGeo; ScriptJs.material := ScriptJs.goldMat;
     ScriptJs.userData :=
       {| ScriptJs.treePos := Vector3.mk 1 2 3; ScriptJs.scatterPos := Vector3.mk 10 0 (-12);
          ScriptJs.rotationSpeed := Vector3.mk 0.5 0.5 0.5; ScriptJs.type := ScriptJs.PARTICLE |};
     ScriptJs.position := Vector3.mk 1 2 3;
     ScriptJs.scale := Vector3.mk 1 1 1 |}.

Definition one_particle_world : ScriptJs.World :=
  {| ScriptJs.STATE := ScriptJs.STATE0; ScriptJs.items := [sample_mesh];
     ScriptJs.rand := fun _ => 0.5 |}.

(** A photo frame, and a world with the particle and the frame. *)
Definition sample_photo : ScriptJs.Mesh :=
  {| ScriptJs.geometry := ScriptJs.frameGeo;
     ScriptJs.material := ScriptJs.framed ScriptJs.defaultCanvas;
     ScriptJs.userData :=
       {| ScriptJs.treePos := Vector3.mk 0 5 4; ScriptJs.scatterPos := Vector3.mk 0 20 0;
          ScriptJs.rotationSpeed := Vector3.mk 0.5 0.5 0.5; ScriptJs.type := ScriptJs.PHOTO |};
     ScriptJs.position := Vector3.mk 0 5 4;
     ScriptJs.scale := Vector3.mk 1 1 1 |}.

Definition gallery_world : ScriptJs.World :=
  {| ScriptJs.STATE := ScriptJs.STATE0; ScriptJs.items := [sample_mesh; sample_photo];
     ScriptJs.rand := fun _ => 0.5 |}.

(** The [state] of main.js once an open hand was seen ([targetMix] is 1),
    the uniforms as [particleMaterial] is created, and a vertex. *)
Definition scatter_state : MainJs.State :=
  {| MainJs.gesture := MainJs.open; MainJs.targetMix := 1.0;
     MainJs.lastVideoTime := 0 |}.

Definition uniforms0 : MainJs.Uniforms :=
  {| MainJs.uTime := 0; MainJs.uMix := 0.0; MainJs.uPixelRatio := 1 |}.

Definition sample_vertex : MainJs.Vertex :=
  {| MainJs.position := MainJs.Vec3 3 (-4) 1.5;
     MainJs.targetPosition := MainJs.Vec3 20 2 (-30);
     MainJs.aRandom := MainJs.Vec3 0.25 0.5 0.75 |}.

(** Video frames for main.js at video time 1: one without a hand, one with
    the stretched hand and a second hand behind it. *)
Definition idle_frame : MainJs.Frame :=
  {| MainJs.handLandmarker := true; MainJs.currentTime := 1;
     MainJs.landmarks := Some [] |}.

Definition stretched_frame : MainJs.Frame :=
  {| MainJs.handLandmarker := true; MainJs.currentTime := 1;
     MainJs.landmarks := Some [map GestureSpec.landmark stretched_hand; nan_hand] |}.

(** Draws that are all 0.5, for main.js. *)
Definition half_draws : ScriptJs.Rand := fun _ => 0.5.

(** * The rotation the hand steers

    [STATE.handRotation] after a call of [handleGestures], read off the two
    smoothing assignments: smoothed towards the palm when the first hand has
    a landmark 9, else as before.  [in_reach]: both angles are numbers, the
    pitch within 0.75 and the yaw within 1.25 of zero. *)

Definition handRotation_after (results : ScriptJs.Results) (r : Num.t * Num.t)
  : Num.t * Num.t :=
  match ScriptJs.hand_of results with
  | Some lm => if (List.length lm <=? 9)%nat then r else HandMeasures.smoothed lm r
  | None => r
  end.

Definition in_reach (r : Num.t * Num.t) : Prop :=
  exists rx ry, r = (Num.Fin rx, Num.Fin ry) /\ -0.75 <= rx <= 0.75 /\ -1.25 <= ry <= 1.25.

(** A hand whose landmarks all lie at the centre of the image. *)
Definition centred_hand : list Vector3.t := repeat (Vector3.mk 0.5 0.5 0) 21.

(** A world whose mode is FOCUS. *)
Definition focused_world : ScriptJs.World :=
  ScriptJs.on_STATE (ScriptJs.set_mode ScriptJs.FOCUS) empty_world.

(** The photo wall in a window of 800 by 600 pixels, once [setupPhotos]
    has run, and the same with a hand in view. *)
Definition wall0 : PhotoWall.Page :=
  PhotoWall.setupPhotos
    {| PhotoWall.handState := PhotoWall.handState0; PhotoWall.cursor := PhotoWall.cursor0;
       PhotoWall.innerWidth := 800; PhotoWall.innerHeight := 600;
       PhotoWall.photos := []; PhotoWall.grabbedPhoto := None;
       PhotoWall.particlesRotationY := 0; PhotoWall.starRotationY := 0;
       PhotoWall.snow := [PhotoWall.newFlake 0.5 0.5 0.5 0.5 0.5 0.5] |}.

(** A hand of 21 landmarks with every landmark at [(0.25, 0.5)]. *)
Definition quarter_hand : list Vector3.t := repeat (Vector3.mk 0.25 0.5 0) 21.

(** The photo wall with a pinching hand in view. *)
Definition pinching_wall : PhotoWall.Page :=
  PhotoWall.set_handState
    {| PhotoWall.x := Num.Fin 0; PhotoWall.y := Num.Fin 0; PhotoWall.pinching := true;
       PhotoWall.visible := true; PhotoWall.vector := (Num.Fin 0, Num.Fin 0) |} wall0.

(** A video frame for main.js that shows a hand of one landmark. *)
Definition short_frame : MainJs.Frame :=
  {| MainJs.handLandmarker := true; MainJs.currentTime := 1;
     MainJs.landmarks := Some [wrist_only] |}.

(** A world whose pitch is NaN. *)
Definition nan_rotation_world : ScriptJs.World :=
  ScriptJs.on_STATE (ScriptJs.set_handRotation (Num.NaN, Num.Fin 0)) empty_world.

(** A store that does not round, for which [float32_store] holds at
    once. *)
Definition no_rounding : R -> R := fun a => a.

(** * Properties *)

(** ** Comparisons *)

Lemma Rltb_true (a b : R) : Rltb a b = true <-> a < b.
Proof. unfold Rltb; destruct (Rlt_dec a b); split; intros; congruence || lra. Qed.

Lemma Rltb_false (a b : R) : Rltb a b = false <-> b <= a.
Proof. unfold Rltb; destruct (Rlt_dec a b); split; intros; congruence || lra. Qed.

(** ** [detectGesture] on hands with finite coordinates *)

Section DetectGestureFinite.

Import MainJs GestureSpec.

Lemma dist_finite (p q : Vector3.t) :
  dist (Some (landmark p)) (Some (landmark q)) = Ok (Num.Fin (distance3 p q)).
Proof.
  unfold dist, distance3; cbn -[pow].
  destruct (Rltb _ 0) eqn:E; [|reflexivity].
  apply Rltb_true in E; exfalso.
  pose proof (pow2_ge_0 (Vector3.x p - Vector3.x q)).
  pose proof (pow2_ge_0 (Vector3.y p - Vector3.y q)).
  pose proof (pow2_ge_0 (Vector3.z p - Vector3.z q)).
  lra.
Qed.

Lemma at_index_finite (hand : list Vector3.t) (i : nat) :
  (i < List.length hand)%nat ->
  at_index (map landmark hand) i = Some (landmark (point hand i)).
Proof.
  intros Hi; unfold at_index, point.
  rewrite nth_error_map, (nth_error_nth' hand origin Hi).
  reflexivity.
Qed.

Variable hand : list Vector3.t.
Hypothesis full : (20 < List.length hand)%nat.

Lemma countFinger_finite (t m c : nat) :
  (t <= 20)%nat -> (m <= 20)%nat ->
  countFinger (map landmark hand) (at_index (map landmark hand) 0)
    {| tip := t; mcp := m |} c
  = Ok (if extended_dec hand (t, m) then S c else c).
Proof.
  intros Ht Hm; unfold countFinger; cbn [tip mcp].
  rewrite !at_index_finite by lia.
  rewrite !dist_finite; cbn -[pow].
  unfold Rgtb, Rltb, extended_dec, extended, wrist; cbn [fst snd].
  destruct (Rlt_dec _ _) as [H|H], (Rgt_dec _ _) as [H'|H'];
    try reflexivity; exfalso; unfold Rgt in *; lra.
Qed.

Lemma forEach_countFinger :
  forEach (countFinger (map landmark hand) (at_index (map landmark hand) 0))
    fingerIndices 0%nat
  = Ok (extendedCount hand).
Proof.
  unfold fingerIndices, extendedCount, fingers; cbn [forEach bind].
  repeat (rewrite countFinger_finite by lia; cbn [bind]).
  cbn [filter].
  repeat destruct (extended_dec hand _); reflexivity.
Qed.

Lemma extendedCount_le_4 : (extendedCount hand <= 4)%nat.
Proof.
  unfold extendedCount.
  etransitivity; [apply filter_length_le | reflexivity].
Qed.

Lemma detectGesture_finite :
  detectGesture (Some (map landmark hand))
  = Ok (if (3 <=? extendedCount hand)%nat then open
        else if (extendedCount hand <=? 1)%nat then closed else none).
Proof.
  unfold detectGesture.
  rewrite length_map.
  destruct (Nat.eqb_spec (List.length hand) 0); [lia|].
  rewrite forEach_countFinger; cbn [bind].
  destruct (3 <=? _)%nat; [reflexivity|].
  destruct (_ <=? 1)%nat; reflexivity.
Qed.

End DetectGestureFinite.

(** C1. For every hand of 21 landmarks, [detectGesture] counts a non-thumb
    finger as extended iff its tip is more than 1.5 times as far from the
    wrist as its knuckle (three-dimensional Euclidean distances); the count
    is at most 4, and the result is [open] when at least 3 fingers are
    extended, [closed] when at most 1 is, and [none] when exactly 2 are. *)
Theorem detectGesture_extended_fingers (hand : list Vector3.t) :
  List.length hand = 21%nat ->
  let n := GestureSpec.extendedCount hand in
  let result := MainJs.detectGesture (Some (map GestureSpec.landmark hand)) in
  (n <= 4)%nat /\
  ((3 <= n)%nat -> result = Ok MainJs.open) /\
  ((n <= 1)%nat -> result = Ok MainJs.closed) /\
  (n = 2%nat -> result = Ok MainJs.none).
Proof.
  intros Hlen n result.
  assert (full : (20 < List.length hand)%nat) by lia.
  subst result; rewrite (detectGesture_finite hand full); fold n.
  split; [apply (extendedCount_le_4 hand)|].
  repeat split; intros Hn.
  - destruct (Nat.leb_spec 3 n); [reflexivity | lia].
  - destruct (Nat.leb_spec 3 n); [lia|].
    destruct (Nat.leb_spec n 1); [reflexivity | lia].
  - rewrite Hn; reflexivity.
Qed.

Lemma distance3_on_x_axis (a : R) :
  0 <= a ->
  GestureSpec.distance3 (Vector3.mk a 0 0) (Vector3.mk 0 0 0) = a.
Proof.
  intros Ha; unfold GestureSpec.distance3; cbn -[pow].
  replace ((a - 0) ^ 2 + (0 - 0) ^ 2 + (0 - 0) ^ 2) with (Rsqr a)
    by (unfold Rsqr; ring).
  now apply sqrt_Rsqr.
Qed.

Lemma stretched_hand_extended (f : nat * nat) :
  In f GestureSpec.fingers -> GestureSpec.extended stretched_hand f.
Proof.
  unfold GestureSpec.fingers; cbn [In].
  intros [<-|[<-|[<-|[<-|[]]]]]; unfold GestureSpec.extended;
    cbn -[pow Rgt GestureSpec.distance3];
    rewrite !distance3_on_x_axis by lra; lra.
Qed.

Lemma stretched_hand_count : GestureSpec.extendedCount stretched_hand = 4%nat.
Proof.
  unfold GestureSpec.extendedCount.
  rewrite forallb_filter_id; [reflexivity|].
  apply forallb_forall; intros f Hf.
  destruct (GestureSpec.extended_dec stretched_hand f) as [|H]; [reflexivity|].
  now destruct H; apply stretched_hand_extended.
Qed.

Lemma detectGesture_extended_fingers_witness :
  List.length stretched_hand = 21%nat /\
  MainJs.detectGesture (Some (map GestureSpec.landmark stretched_hand)) = Ok MainJs.open.
Proof.
  split; [reflexivity|].
  apply (detectGesture_extended_fingers stretched_hand eq_refl).
  rewrite stretched_hand_count; lia.
Defined.

(** ** [detectGesture] on absent and degenerate input *)

Section DetectGestureAny.

Import MainJs.

Lemma dist_defined (a b : Landmark.t) : exists d, dist (Some a) (Some b) = Ok d.
Proof. unfold dist; cbn [prop bind]; eexists; reflexivity. Qed.


Lemma at_index_defined (lm : list Landmark.t) (i : nat) :
  (i < List.length lm)%nat -> exists l, at_index lm i = Some l.
Proof.
  intros Hi; unfold at_index.
  destruct (nth_error lm i) eqn:E; [eauto|].
  apply nth_error_None in E; lia.
Qed.

Lemma at_index_undefined (lm : list Landmark.t) (i : nat) :
  (List.length lm <= i)%nat -> at_index lm i = None.
Proof. intros Hi; now apply nth_error_None. Qed.

Variable lm : list Landmark.t.

Section Full.

Hypothesis full : (21 <= List.length lm)%nat.

Lemma countFinger_defined (f : Finger) (c : nat) :
  In f fingerIndices ->
  exists c', countFinger lm (at_index lm 0) f c = Ok c' /\ (c' <= S c)%nat.
Proof.
  intros Hf.
  assert (Ht : (tip f <= 20)%nat /\ (mcp f <= 20)%nat)
    by (cbn in Hf; intuition (subst; cbn; lia)).
  destruct (at_index_defined lm 0) as [w Hw]; [lia|].
  destruct (at_index_defined lm (tip f)) as [t Et]; [lia|].
  destruct (at_index_defined lm (mcp f)) as [m Em]; [lia|].
  unfold countFinger; rewrite Hw, Et, Em.
  destruct (dist_defined t w) as [dt ->], (dist_defined m w) as [dm ->].
  cbn [bind]; destruct (dt >? dm * 1.5)%num; eexists; split; eauto.
Qed.


Lemma forEach_countFinger_defined (fs : list Finger) (c : nat) :
  incl fs fingerIndices ->
  exists c', forEach (countFinger lm (at_index lm 0)) fs c = Ok c'.
Proof.
  revert c; induction fs as [|f fs IH]; intros c Hfs; cbn [forEach].
  - eauto.
  - destruct (countFinger_defined f c) as (c1 & -> & _);
      [apply Hfs; now left|].
    cbn [bind]; apply IH.
    intros g Hg; apply Hfs; now right.
Qed.


Lemma detectGesture_full_defined :
  exists g, detectGesture (Some lm) = Ok g /\ g <> loading.
Proof.
  unfold detectGesture.
  destruct (Nat.eqb_spec (List.length lm) 0); [lia|].
  destruct (forEach_countFinger_defined fingerIndices 0) as [c ->];
    [apply incl_refl|].
  cbn [bind].
  destruct (3 <=? c)%nat; [eexists; split; [reflexivity | discriminate]|].
  destruct (c <=? 1)%nat; eexists; split; reflexivity || discriminate.
Qed.


End Full.

(** Between 1 and 20 landmarks the pinky tip [landmarks[20]] is
    [undefined], and reading its [x] throws, unless an earlier finger
    already did. *)
Lemma detectGesture_short :
  (1 <= List.length lm <= 20)%nat -> detectGesture (Some lm) = TypeError.
Proof.
  intros Hlen; unfold detectGesture.
  destruct (Nat.eqb_spec (List.length lm) 0); [lia|].
  assert (pinky : forall c, countFinger lm (at_index lm 0)
                                {| tip := 20; mcp := 17 |} c = TypeError).
  { intros c; unfold countFinger; cbn [tip mcp].
    rewrite (at_index_undefined lm 20) by lia; reflexivity. }
  unfold fingerIndices; cbn [forEach].
  do 3 match goal with
       | |- context [bind (countFinger ?a ?b ?c ?d) _] =>
           destruct (countFinger a b c d); cbn [bind]; [|reflexivity]
       end.
  now rewrite pinky.
Qed.

End DetectGestureAny.

(** ** The hand branch of [handleGestures] *)

Section HandBranch.

Import ScriptJs HandMeasures.

Lemma full_hand_inv (lm : list Landmark.t) :
  (21 <= List.length lm)%nat ->
  exists l0 l1 l2 l3 l4 l5 l6 l7 l8 l9 l10 l11 l12 l13 l14 l15 l16 l17 l18 l19 l20 rest,
    lm = l0 :: l1 :: l2 :: l3 :: l4 :: l5 :: l6 :: l7 :: l8 :: l9 :: l10
         :: l11 :: l12 :: l13 :: l14 :: l15 :: l16 :: l17 :: l18 :: l19 :: l20 :: rest.
Proof.
  intros H.
  do 21 (destruct lm as [|? lm]; [cbn in H; lia|]).
  repeat eexists.
Qed.

Lemma measure_full (lm : list Landmark.t) (w : World) :
  (21 <= List.length lm)%nat ->
  measure lm (on_STATE (set_handDetected true) w)
  = (Ok (pinchDist lm, avgTipDist lm), tracked lm w).
Proof.
  intros H.
  destruct (full_hand_inv lm H)
    as (l0 & l1 & l2 & l3 & l4 & l5 & l6 & l7 & l8 & l9 & l10 & l11 & l12 & l13
        & l14 & l15 & l16 & l17 & l18 & l19 & l20 & rest & ->).
  destruct w as [[m tp hd [rx ry] g] it rd].
  reflexivity.
Qed.

(** [triggerFocus] returns, and writes [STATE.targetPhoto] only. *)
Lemma triggerFocus_frame (w : World) :
  exists t, STATE (snd (triggerFocus w)) = set_targetPhoto t (STATE w)
            /\ fst (triggerFocus w) = Ok tt
            /\ mode (STATE (snd (triggerFocus w))) = mode (STATE w)
            /\ gesture (STATE (snd (triggerFocus w))) = gesture (STATE w)
            /\ handDetected (STATE (snd (triggerFocus w))) = handDetected (STATE w)
            /\ handRotation (STATE (snd (triggerFocus w))) = handRotation (STATE w)
            /\ items (snd (triggerFocus w)) = items w.
Proof.
  unfold triggerFocus, mbind, getItems.
  destruct (0 <? _)%nat; cbn.
  - eexists; repeat split.
  - exists (targetPhoto (STATE w)); destruct w as [[? ? ? ? ?] ? ?]; repeat split.
Qed.

Variables (lm : list Landmark.t) (others : list (list Landmark.t)).
Hypothesis full : (21 <= List.length lm)%nat.

(** The three definitions on a full first hand, branch by branch. *)
Lemma handleGestures_first_hand (w : World) :
  handleGestures_first (Some (lm :: others)) w =
  let w1 := tracked lm w in
  if (pinchDist lm <? 0.05)%num then
    triggerFocus (on_STATE (set_mode FOCUS) (on_STATE (set_gesture PINCH) w1))
  else if (avgTipDist lm >? 0.45)%num then
    (Ok tt, on_STATE (set_mode SCATTER) (on_STATE (set_gesture OPEN) w1))
  else if (avgTipDist lm <? 0.25)%num then
    (Ok tt, on_STATE (set_mode TREE) (on_STATE (set_gesture FIST) w1))
  else
    (Ok tt, match mode (STATE w1) with
            | SCATTER => on_STATE (set_mode TREE) (on_STATE (set_gesture NONE) w1)
            | _ => on_STATE (set_gesture NONE) w1
            end).
Proof.
  unfold handleGestures_first, hand_of.
  unfold mbind at 1; unfold setSTATE at 1.
  unfold mbind at 1; rewrite (measure_full lm w full).
  cbv zeta.
  destruct (pinchDist lm <? 0.05)%num; [reflexivity|].
  destruct (avgTipDist lm >? 0.45)%num; [reflexivity|].
  destruct (avgTipDist lm <? 0.25)%num; [reflexivity|].
  unfold mbind, setSTATE, getSTATE; cbn.
  destruct (mode (STATE w)); reflexivity.
Qed.

Lemma handleGestures_hand (w : World) :
  handleGestures (Some (lm :: others)) w =
  let w1 := tracked lm w in
  if (pinchDist lm <? 0.05)%num then
    triggerFocus (on_STATE (set_mode FOCUS) (on_STATE (set_gesture PINCH) w1))
  else if (avgTipDist lm >? 0.45)%num then
    (Ok tt, on_STATE (set_mode SCATTER) (on_STATE (set_gesture OPEN) w1))
  else if (avgTipDist lm <? 0.25)%num then
    (Ok tt, on_STATE (set_mode TREE) (on_STATE (set_gesture FIST) w1))
  else
    (Ok tt, match mode (STATE w1) with
            | SCATTER | FOCUS => on_STATE (set_mode TREE) (on_STATE (set_gesture NONE) w1)
            | TREE => on_STATE (set_gesture NONE) w1
            end).
Proof.
  unfold handleGestures, hand_of.
  unfold mbind at 1; unfold setSTATE at 1.
  unfold mbind at 1; rewrite (measure_full lm w full).
  cbv zeta.
  destruct (pinchDist lm <? 0.05)%num; [reflexivity|].
  destruct (avgTipDist lm >? 0.45)%num; [reflexivity|].
  destruct (avgTipDist lm <? 0.25)%num; [reflexivity|].
  unfold mbind, setSTATE, getSTATE; cbn.
  destruct (mode (STATE w)); reflexivity.
Qed.

Lemma handleGestures_last_hand (w : World) :
  handleGestures_last (Some (lm :: others)) w =
  let w1 := tracked lm w in
  if (pinchDist lm <? 0.05)%num then
    triggerFocus (on_STATE (set_mode FOCUS) (on_STATE (set_gesture PINCH) w1))
  else if (avgTipDist lm <? 0.2)%num then
    (Ok tt, on_STATE (set_mode TREE) (on_STATE (set_gesture FIST) w1))
  else if (avgTipDist lm >? 0.35)%num then
    (Ok tt, on_STATE (set_mode SCATTER) (on_STATE (set_gesture OPEN) w1))
  else
    (Ok tt, on_STATE (set_gesture NONE) w1).
Proof.
  unfold handleGestures_last, hand_of.
  unfold mbind at 1; unfold setSTATE at 1.
  unfold mbind at 1; rewrite (measure_full lm w full).
  cbv zeta.
  destruct (pinchDist lm <? 0.05)%num; [reflexivity|].
  destruct (avgTipDist lm <? 0.2)%num; [reflexivity|].
  destruct (avgTipDist lm >? 0.35)%num; reflexivity.
Qed.

End HandBranch.

(** ** Hands with finite coordinates in [handleGestures] *)

Section FiniteHand.

Import ScriptJs HandMeasures GestureSpec.

Variable hand : list Vector3.t.
Hypothesis full : (21 <= List.length hand)%nat.

Lemma lm_at_finite (i : nat) :
  (i <= 20)%nat -> lm_at (map landmark hand) i = landmark (point hand i).
Proof.
  intros Hi; unfold lm_at, point.
  rewrite (nth_indep _ undefined_landmark (landmark origin))
    by (rewrite length_map; lia).
  apply map_nth.
Qed.

Lemma hypot2_finite (p q : Vector3.t) :
  hypot2 (landmark p) (landmark q) = Num.Fin (distance2 p q).
Proof. reflexivity. Qed.

Lemma pinchDist_finite :
  pinchDist (map landmark hand) = Num.Fin (pinchDistance hand).
Proof.
  unfold pinchDist, pinchDistance.
  now rewrite !lm_at_finite, hypot2_finite by lia.
Qed.

Lemma avgTipDist_finite :
  avgTipDist (map landmark hand) = Num.Fin (avgTipDistance hand).
Proof.
  unfold avgTipDist, avgTipDistance.
  now rewrite !lm_at_finite, !hypot2_finite by lia.
Qed.

End FiniteHand.

Lemma distance2_on_x_axis (a b : R) :
  HandMeasures.distance2 (Vector3.mk a 0 0) (Vector3.mk b 0 0) = Rabs (a - b).
Proof.
  unfold HandMeasures.distance2; cbn -[pow].
  replace ((a - b) ^ 2 + (0 - 0) ^ 2) with (Rsqr (a - b)) by (unfold Rsqr; ring).
  apply sqrt_Rsqr_abs.
Qed.

Lemma pinchDistance_on_x_axis (tips knuckles thumb : R) :
  HandMeasures.pinchDistance (hand_on_x_axis tips knuckles thumb) = Rabs (thumb - tips).
Proof. unfold HandMeasures.pinchDistance; cbn. apply distance2_on_x_axis. Qed.

Lemma avgTipDistance_on_x_axis (tips knuckles thumb : R) :
  0 <= tips ->
  HandMeasures.avgTipDistance (hand_on_x_axis tips knuckles thumb) = tips.
Proof.
  intros Ht; unfold HandMeasures.avgTipDistance; cbn -[HandMeasures.distance2].
  rewrite distance2_on_x_axis, Rabs_pos_eq by lra; lra.
Qed.

(** ** The pinch test *)

Lemma stretched_hand_pinched : HandMeasures.pinchDistance stretched_hand < 0.05.
Proof.
  unfold stretched_hand; rewrite pinchDistance_on_x_axis.
  replace (2 - 2) with 0 by lra; rewrite Rabs_R0; lra.
Qed.

Lemma pinch_branch (lm : list Landmark.t) (others : list (list Landmark.t))
    (w : ScriptJs.World) (hg : ScriptJs.Results -> ScriptJs.M unit) :
  (21 <= List.length lm)%nat ->
  (HandMeasures.pinchDist lm <? 0.05)%num = true ->
  In hg [ScriptJs.handleGestures_first; ScriptJs.handleGestures; ScriptJs.handleGestures_last] ->
  hg (Some (lm :: others)) w
  = ScriptJs.triggerFocus
      (ScriptJs.on_STATE (ScriptJs.set_mode ScriptJs.FOCUS)
         (ScriptJs.on_STATE (ScriptJs.set_gesture ScriptJs.PINCH) (HandMeasures.tracked lm w))).
Proof.
  intros Hlen Hp [<-|[<-|[<-|[]]]].
  - rewrite handleGestures_first_hand by assumption; cbv zeta; now rewrite Hp.
  - rewrite handleGestures_hand by assumption; cbv zeta; now rewrite Hp.
  - rewrite handleGestures_last_hand by assumption; cbv zeta; now rewrite Hp.
Qed.

(** C2, as stated, fails on [detectGesture] of main.js, which has no PINCH
    label: a hand whose thumb tip lies on its index tip (distance 0) and
    whose four fingers are stretched is classified [open]. *)
Lemma detectGesture_pinched_hand_is_open :
  HandMeasures.pinchDistance stretched_hand < 0.05 /\
  MainJs.detectGesture (Some (map GestureSpec.landmark stretched_hand))
  = Ok MainJs.open.
Proof.
  split; [apply stretched_hand_pinched|].
  rewrite (detectGesture_finite stretched_hand) by (cbn; lia).
  now rewrite stretched_hand_count.
Qed.

(** C2, amended.  For every hand whose thumb tip is less than 0.05 from its
    index tip in the image plane (x and y only), every definition of
    [handleGestures] in script.js returns with gesture PINCH and mode FOCUS,
    whatever the other landmarks are: the pinch test comes first.
    [detectGesture] of main.js has no PINCH label and classifies the same
    hand by its count of extended fingers. *)
Theorem handleGestures_pinch_first
    (hand : list Vector3.t) (others : list (list Landmark.t)) (w : ScriptJs.World)
    (hg : ScriptJs.Results -> ScriptJs.M unit) :
  List.length hand = 21%nat ->
  HandMeasures.pinchDistance hand < 0.05 ->
  In hg [ScriptJs.handleGestures_first; ScriptJs.handleGestures; ScriptJs.handleGestures_last] ->
  let out := hg (Some (map GestureSpec.landmark hand :: others)) w in
  let n := GestureSpec.extendedCount hand in
  fst out = Ok tt /\
  ScriptJs.gesture (ScriptJs.STATE (snd out)) = ScriptJs.PINCH /\
  ScriptJs.mode (ScriptJs.STATE (snd out)) = ScriptJs.FOCUS /\
  MainJs.detectGesture (Some (map GestureSpec.landmark hand))
  = Ok (if (3 <=? n)%nat then MainJs.open
        else if (n <=? 1)%nat then MainJs.closed else MainJs.none).
Proof.
  intros Hlen Hpinch Hhg out n.
  assert (Hfull : (21 <= List.length (map GestureSpec.landmark hand))%nat)
    by (rewrite length_map; lia).
  subst out; rewrite (pinch_branch _ others w hg Hfull); [| |assumption].
  - destruct (triggerFocus_frame
                (ScriptJs.on_STATE (ScriptJs.set_mode ScriptJs.FOCUS)
                   (ScriptJs.on_STATE (ScriptJs.set_gesture ScriptJs.PINCH)
                      (HandMeasures.tracked (map GestureSpec.landmark hand) w))))
      as (t & _ & Hok & Hmode & Hgesture & _).
    rewrite Hok, Hmode, Hgesture.
    repeat split.
    apply detectGesture_finite; lia.
  - rewrite pinchDist_finite by lia.
    now apply Rltb_true.
Qed.

Lemma handleGestures_pinch_first_witness :
  let out := ScriptJs.handleGestures
               (Some [map GestureSpec.landmark stretched_hand]) empty_world in
  fst out = Ok tt /\
  ScriptJs.gesture (ScriptJs.STATE (snd out)) = ScriptJs.PINCH /\
  ScriptJs.mode (ScriptJs.STATE (snd out)) = ScriptJs.FOCUS.
Proof.
  destruct (handleGestures_pinch_first stretched_hand [] empty_world
              ScriptJs.handleGestures eq_refl stretched_hand_pinched
              (or_intror (or_introl eq_refl)))
    as (H1 & H2 & H3 & _).
  repeat split; assumption.
Defined.




(** ** The mode state machine *)

Section ModeMachine.

Import ScriptJs HandMeasures.

Lemma handleGestures_no_hand (results : Results) (w : World) :
  hand_of results = None ->
  handleGestures results w
  = (Ok tt, on_STATE (set_mode TREE) (on_STATE (set_handDetected false) w)).
Proof. intros H; unfold handleGestures; now rewrite H. Qed.

Lemma handleGestures_first_no_hand (results : Results) (w : World) :
  hand_of results = None ->
  handleGestures_first results w
  = (Ok tt, on_STATE (set_mode TREE) (on_STATE (set_handDetected false) w)).
Proof. intros H; unfold handleGestures_first; now rewrite H. Qed.

Lemma handleGestures_last_no_hand (results : Results) (w : World) :
  hand_of results = None ->
  handleGestures_last results w = (Ok tt, on_STATE (set_handDetected false) w).
Proof. intros H; unfold handleGestures_last; now rewrite H. Qed.

Variables (lm : list Landmark.t) (others : list (list Landmark.t)).
Hypothesis full : (21 <= List.length lm)%nat.

(** The second definition follows the transition table. *)
Lemma handleGestures_step (w : World) :
  let out := handleGestures (Some (lm :: others)) w in
  fst out = Ok tt /\
  gesture (STATE (snd out)) = label lm /\
  mode (STATE (snd out)) = ModeSpec.next (Some (label lm)) (mode (STATE w)) /\
  handDetected (STATE (snd out)) = true /\
  items (snd out) = items w.
Proof.
  cbv zeta; rewrite (handleGestures_hand lm others full w); cbv zeta; unfold label.
  destruct (pinchDist lm <? 0.05)%num.
  { match goal with |- context [triggerFocus ?w1] =>
      destruct (triggerFocus_frame w1) as (t & _ & -> & -> & -> & -> & _ & ->) end.
    repeat split. }
  destruct (avgTipDist lm >? 0.45)%num; [repeat split|].
  destruct (avgTipDist lm <? 0.25)%num; [repeat split|].
  destruct w as [[m tp hd hr g] it rd]; cbn; destruct m; repeat split.
Qed.

(** The first definition recovers from SCATTER only. *)
Lemma handleGestures_first_step (w : World) :
  let out := handleGestures_first (Some (lm :: others)) w in
  fst out = Ok tt /\
  gesture (STATE (snd out)) = label lm /\
  mode (STATE (snd out))
  = match label lm with
    | NONE => match mode (STATE w) with SCATTER => TREE | m => m end
    | g => ModeSpec.next (Some g) (mode (STATE w))
    end.
Proof.
  cbv zeta; rewrite (handleGestures_first_hand lm others full w); cbv zeta; unfold label.
  destruct (pinchDist lm <? 0.05)%num.
  { match goal with |- context [triggerFocus ?w1] =>
      destruct (triggerFocus_frame w1) as (t & _ & -> & -> & -> & _) end.
    repeat split. }
  destruct (avgTipDist lm >? 0.45)%num; [repeat split|].
  destruct (avgTipDist lm <? 0.25)%num; [repeat split|].
  destruct w as [[m tp hd hr g] it rd]; cbn; destruct m; repeat split.
Qed.

(** The last definition leaves the mode alone on NONE. *)
Lemma handleGestures_last_step (w : World) :
  let out := handleGestures_last (Some (lm :: others)) w in
  fst out = Ok tt /\
  gesture (STATE (snd out)) = label_last lm /\
  mode (STATE (snd out)) = next_last (label_last lm) (mode (STATE w)).
Proof.
  cbv zeta; rewrite (handleGestures_last_hand lm others full w); cbv zeta;
    unfold label_last.
  destruct (pinchDist lm <? 0.05)%num.
  { match goal with |- context [triggerFocus ?w1] =>
      destruct (triggerFocus_frame w1) as (t & _ & -> & -> & -> & _) end.
    repeat split. }
  destruct (avgTipDist lm <? 0.2)%num; [repeat split|].
  destruct (avgTipDist lm >? 0.35)%num; repeat split.
Qed.

End ModeMachine.

(** ** The sample hands, labelled *)

Ltac real_cmp := try (unfold Rabs; repeat destruct (Rcase_abs _)); lra.

Ltac decide_cmp :=
  repeat match goal with
    | |- context [Rltb ?a ?b] =>
        first [ rewrite (proj2 (Rltb_true a b)) by real_cmp
              | rewrite (proj2 (Rltb_false a b)) by real_cmp ]
    end.

Lemma hand_on_x_axis_length (t k th : R) : List.length (hand_on_x_axis t k th) = 21%nat.
Proof. reflexivity. Qed.

Lemma hand_on_x_axis_measures (t k th : R) :
  0 <= t ->
  HandMeasures.pinchDist (map GestureSpec.landmark (hand_on_x_axis t k th))
  = Num.Fin (Rabs (th - t)) /\
  HandMeasures.avgTipDist (map GestureSpec.landmark (hand_on_x_axis t k th))
  = Num.Fin t.
Proof.
  intros Ht.
  rewrite pinchDist_finite, avgTipDist_finite
    by (rewrite hand_on_x_axis_length; lia).
  now rewrite pinchDistance_on_x_axis, avgTipDistance_on_x_axis.
Qed.

Lemma open_hand_labels :
  HandMeasures.label (map GestureSpec.landmark open_hand) = ScriptJs.OPEN /\
  HandMeasures.label_last (map GestureSpec.landmark open_hand) = ScriptJs.OPEN.
Proof.
  unfold HandMeasures.label, HandMeasures.label_last, open_hand.
  destruct (hand_on_x_axis_measures 1 0.5 0) as [-> ->]; [lra|].
  unfold Num.gtb, Num.ltb, Rgtb; decide_cmp; split; reflexivity.
Qed.

Lemma ambiguous_hand_labels :
  HandMeasures.label (map GestureSpec.landmark ambiguous_hand) = ScriptJs.NONE /\
  HandMeasures.label_last (map GestureSpec.landmark ambiguous_hand) = ScriptJs.NONE.
Proof.
  unfold HandMeasures.label, HandMeasures.label_last, ambiguous_hand.
  destruct (hand_on_x_axis_measures 0.3 0.1 0) as [-> ->]; [lra|].
  unfold Num.gtb, Num.ltb, Rgtb; decide_cmp; split; reflexivity.
Qed.

Lemma frame_of_full (hand : list Vector3.t) :
  List.length hand = 21%nat ->
  (21 <= List.length (map GestureSpec.landmark hand))%nat.
Proof. intros H; rewrite length_map; lia. Qed.

(** [trace] follows the labels of the hands, frame by frame. *)
Lemma trace_handleGestures (lms : list (list Landmark.t)) (w : ScriptJs.World) :
  Forall (fun lm => (21 <= List.length lm)%nat) lms ->
  HandMeasures.trace ScriptJs.handleGestures (map (fun lm => Some [lm]) lms) w
  = ModeSpec.run (fun g => ModeSpec.next (Some g))
      (map HandMeasures.label lms) (ScriptJs.mode (ScriptJs.STATE w)).
Proof.
  intros Hfull; revert w.
  induction Hfull as [|lm lms Hlm _ IH]; intros w; [reflexivity|].
  destruct (handleGestures_step lm [] Hlm w) as (Hok & Hg & Hm & _).
  cbn [map HandMeasures.trace ModeSpec.run].
  destruct (ScriptJs.handleGestures (Some [lm]) w) as [r w'].
  cbn [fst snd] in *; subst r.
  now rewrite IH, Hg, Hm.
Qed.

Lemma trace_handleGestures_last (lms : list (list Landmark.t)) (w : ScriptJs.World) :
  Forall (fun lm => (21 <= List.length lm)%nat) lms ->
  HandMeasures.trace ScriptJs.handleGestures_last (map (fun lm => Some [lm]) lms) w
  = ModeSpec.run HandMeasures.next_last
      (map HandMeasures.label_last lms) (ScriptJs.mode (ScriptJs.STATE w)).
Proof.
  intros Hfull; revert w.
  induction Hfull as [|lm lms Hlm _ IH]; intros w; [reflexivity|].
  destruct (handleGestures_last_step lm [] Hlm w) as (Hok & Hg & Hm).
  cbn [map HandMeasures.trace ModeSpec.run].
  destruct (ScriptJs.handleGestures_last (Some [lm]) w) as [r w'].
  cbn [fst snd] in *; subst r.
  now rewrite IH, Hg, Hm.
Qed.

(** ** Auto-recovery *)

(** In the second definition of [handleGestures] (lines 408-469) a hand
    labelled NONE leaves the mode TREE, whatever it was before. *)
Theorem handleGestures_none_reverts
    (lm : list Landmark.t) (others : list (list Landmark.t)) (w : ScriptJs.World) :
  (21 <= List.length lm)%nat ->
  let out := ScriptJs.handleGestures (Some (lm :: others)) w in
  ScriptJs.gesture (ScriptJs.STATE (snd out)) = ScriptJs.NONE ->
  fst out = Ok tt /\ ScriptJs.mode (ScriptJs.STATE (snd out)) = ScriptJs.TREE.
Proof.
  intros Hfull out Hnone.
  destruct (handleGestures_step lm others Hfull w) as (Hok & Hg & Hm & _).
  fold out in Hok, Hg, Hm.
  split; [assumption|].
  rewrite Hm, <- Hg, Hnone; cbn.
  now destruct (ScriptJs.mode (ScriptJs.STATE w)).
Qed.

(** With the second definition, hands labelled OPEN, OPEN, NONE, NONE give
    the modes SCATTER, SCATTER, TREE, TREE from any world. *)
Theorem handleGestures_open_open_none_none
    (l1 l2 l3 l4 : list Landmark.t) (w : ScriptJs.World) :
  (21 <= List.length l1)%nat -> (21 <= List.length l2)%nat ->
  (21 <= List.length l3)%nat -> (21 <= List.length l4)%nat ->
  HandMeasures.label l1 = ScriptJs.OPEN -> HandMeasures.label l2 = ScriptJs.OPEN ->
  HandMeasures.label l3 = ScriptJs.NONE -> HandMeasures.label l4 = ScriptJs.NONE ->
  HandMeasures.trace ScriptJs.handleGestures
    [Some [l1]; Some [l2]; Some [l3]; Some [l4]] w
  = [(ScriptJs.OPEN, ScriptJs.SCATTER); (ScriptJs.OPEN, ScriptJs.SCATTER);
     (ScriptJs.NONE, ScriptJs.TREE); (ScriptJs.NONE, ScriptJs.TREE)].
Proof.
  intros F1 F2 F3 F4 L1 L2 L3 L4.
  change [Some [l1]; Some [l2]; Some [l3]; Some [l4]]
    with (map (fun lm : list Landmark.t => Some [lm]) [l1; l2; l3; l4]).
  rewrite trace_handleGestures by (repeat constructor; assumption).
  cbn [map]; rewrite L1, L2, L3, L4; reflexivity.
Qed.

(** C4 at its failing input.  The last definition of [handleGestures] (lines
    2492-2542) writes the gesture NONE and nothing else: from mode TREE,
    two open hands and then two ambiguous ones give the modes SCATTER,
    SCATTER, SCATTER, SCATTER, where the second definition gives SCATTER,
    SCATTER, TREE, TREE. *)
Theorem handleGestures_last_stays_scattered :
  HandMeasures.trace ScriptJs.handleGestures_last open_open_none_none empty_world
  = [(ScriptJs.OPEN, ScriptJs.SCATTER); (ScriptJs.OPEN, ScriptJs.SCATTER);
     (ScriptJs.NONE, ScriptJs.SCATTER); (ScriptJs.NONE, ScriptJs.SCATTER)] /\
  HandMeasures.trace ScriptJs.handleGestures open_open_none_none empty_world
  = [(ScriptJs.OPEN, ScriptJs.SCATTER); (ScriptJs.OPEN, ScriptJs.SCATTER);
     (ScriptJs.NONE, ScriptJs.TREE); (ScriptJs.NONE, ScriptJs.TREE)].
Proof.
  destruct open_hand_labels as [Lo Lo'], ambiguous_hand_labels as [La La'].
  pose proof (frame_of_full open_hand eq_refl) as Fo.
  pose proof (frame_of_full ambiguous_hand eq_refl) as Fa.
  split.
  - change open_open_none_none
      with (map (fun lm : list Landmark.t => Some [lm])
              (map (map GestureSpec.landmark)
                 [open_hand; open_hand; ambiguous_hand; ambiguous_hand])).
    rewrite trace_handleGestures_last by (repeat constructor; assumption).
    cbn [map]; rewrite Lo', La'; reflexivity.
  - now apply handleGestures_open_open_none_none.
Qed.

(** ** Frames without a hand *)

(** In both definitions of the first document a frame without a hand sets
    the mode to TREE, whatever it was before. *)
Theorem handleGestures_no_hand_tree (results : ScriptJs.Results) (w : ScriptJs.World) :
  ScriptJs.hand_of results = None ->
  forall hg, In hg [ScriptJs.handleGestures_first; ScriptJs.handleGestures] ->
  let out := hg results w in
  fst out = Ok tt /\
  ScriptJs.mode (ScriptJs.STATE (snd out)) = ScriptJs.TREE /\
  ScriptJs.handDetected (ScriptJs.STATE (snd out)) = false.
Proof.
  intros H hg [<-|[<-|[]]]; cbv zeta.
  - rewrite handleGestures_first_no_hand by assumption; repeat split.
  - rewrite handleGestures_no_hand by assumption; repeat split.
Qed.

(** In main.js a processed frame without a hand lowers [targetMix] by 0.02,
    not below 0. *)
Theorem predictWebcam_idle_decay (fr : MainJs.Frame) (state : MainJs.State) :
  MainJs.handLandmarker fr = true ->
  MainJs.currentTime fr <> MainJs.lastVideoTime state ->
  MainJs.landmarks fr = None \/ MainJs.landmarks fr = Some [] ->
  exists state',
    MainJs.predictWebcam fr state = Ok state' /\
    MainJs.gesture state' = MainJs.none /\
    MainJs.targetMix state' = Rmax 0 (MainJs.targetMix state - 0.02) /\
    0 <= MainJs.targetMix state' /\
    (0 <= MainJs.targetMix state ->
     MainJs.targetMix state' <= MainJs.targetMix state /\
     MainJs.targetMix state - MainJs.targetMix state' <= 0.02) /\
    (0.02 < MainJs.targetMix state -> 0 < MainJs.targetMix state').
Proof.
  intros Hl Ht Hno; unfold MainJs.predictWebcam, MainJs.Req_dec_b.
  rewrite Hl; destruct (Req_dec_T _ _) as [E|_]; [contradiction|]; cbn [andb negb].
  assert (Hmax : forall t, 0 <= Rmax 0 (t - 0.02)
                           /\ (0 <= t -> Rmax 0 (t - 0.02) <= t
                                         /\ t - Rmax 0 (t - 0.02) <= 0.02)
                           /\ (0.02 < t -> 0 < Rmax 0 (t - 0.02))).
  { intros t; unfold Rmax; destruct (Rle_dec 0 (t - 0.02)); repeat split; lra. }
  destruct (Hmax (MainJs.targetMix state)) as (H0 & H1 & H2).
  destruct Hno as [-> | ->]; eexists; (split; [reflexivity|]); cbn; auto.
Qed.

(** C5 at its failing input.  In the last definition of [handleGestures]
    (lines 2492-2542) the branch without a hand only clears
    [STATE.handDetected]: from mode SCATTER a frame without a hand leaves the
    mode SCATTER, where the second definition sets TREE. *)
Theorem handleGestures_last_no_hand_keeps_mode :
  let out := ScriptJs.handleGestures_last no_hands scattered_world in
  let out' := ScriptJs.handleGestures no_hands scattered_world in
  fst out = Ok tt /\
  ScriptJs.handDetected (ScriptJs.STATE (snd out)) = false /\
  ScriptJs.mode (ScriptJs.STATE (snd out)) = ScriptJs.SCATTER /\
  ScriptJs.mode (ScriptJs.STATE (snd out')) = ScriptJs.TREE.
Proof. repeat split. Qed.

(** ** The blend update of [animate] *)

Section Blend.

Import MainJs.

Lemma uMix_animate (state : State) (u : Uniforms) :
  uMix (animate state u) = uMix u + (targetMix state - uMix u) * 0.05.
Proof. reflexivity. Qed.

Lemma pow_095_bounds (n : nat) : 0 < 0.95 ^ n <= 1.
Proof.
  split; [apply pow_lt; lra|].
  rewrite <- (pow1 n); apply pow_incr; lra.
Qed.

Lemma pow_095_90 : 0.95 ^ 90 < 0.01.
Proof. cbn [pow]; lra. Qed.

Lemma pow_095_from_90 (n : nat) : (90 <= n)%nat -> 0.95 ^ n < 0.01.
Proof.
  intros Hn; replace n with (90 + (n - 90))%nat by lia.
  rewrite pow_add.
  pose proof pow_095_90; pose proof (pow_095_bounds 90).
  pose proof (pow_095_bounds (n - 90)); nra.
Qed.

Variables (state : State) (u : Uniforms).
Hypothesis held : targetMix state = 1.

Lemma gap_animate_n (n : nat) :
  1 - uMix (animate_n n state u) = 0.95 ^ n * (1 - uMix u).
Proof.
  induction n as [|n IH]; cbn [animate_n pow]; [lra|].
  rewrite uMix_animate, held.
  replace (1 - (uMix (animate_n n state u) + (1 - uMix (animate_n n state u)) * 0.05))
    with (0.95 * (1 - uMix (animate_n n state u))) by lra.
  rewrite IH; ring.
Qed.

End Blend.

(** C6. With [targetMix] held at 1 and a blend that starts in [0, 1], every
    display frame changes the blend by the smoothing formula
    [uMix += (targetMix - uMix) * 0.05] only; the blend never decreases and
    stays at most 1; after [n] frames the gap [1 - uMix] is [0.95 ^ n] times
    the initial gap; from frame 90 on the blend is within 1% of 1; and a
    blend below 1 stays below 1, the target is never assigned. *)
Theorem animate_blend_approach (state : MainJs.State) (u : MainJs.Uniforms) (n : nat) :
  MainJs.targetMix state = 1 ->
  0 <= MainJs.uMix u <= 1 ->
  let blend := fun k => MainJs.uMix (MainJs.animate_n k state u) in
  blend (S n) = blend n + (1 - blend n) * 0.05 /\
  1 - blend n = 0.95 ^ n * (1 - MainJs.uMix u) /\
  blend n <= blend (S n) /\
  0 <= blend n <= 1 /\
  ((90 <= n)%nat -> 1 - blend n < 0.01) /\
  (MainJs.uMix u < 1 -> blend n < 1).
Proof.
  intros Hheld Hrange blend.
  pose proof (gap_animate_n state u Hheld n) as Hgap; fold (blend n) in Hgap.
  pose proof (pow_095_bounds n) as Hpow.
  assert (Hstep : blend (S n) = blend n + (1 - blend n) * 0.05).
  { unfold blend; cbn [MainJs.animate_n]; rewrite uMix_animate, Hheld; reflexivity. }
  assert (Hge : 0 <= 1 - blend n) by (rewrite Hgap; nra).
  assert (Hle : 1 - blend n <= 1 - MainJs.uMix u) by (rewrite Hgap; nra).
  repeat split; try assumption; try lra.
  - intros Hn; rewrite Hgap.
    pose proof (pow_095_from_90 n Hn); nra.
  - intros Hlt.
    assert (0 < 1 - blend n) by (rewrite Hgap; nra).
    lra.
Qed.

Lemma animate_blend_approach_witness :
  1 - MainJs.uMix (MainJs.animate_n 90 scatter_state uniforms0) < 0.01.
Proof.
  assert (H1 : MainJs.targetMix scatter_state = 1) by (cbn; lra).
  assert (H2 : 0 <= MainJs.uMix uniforms0 <= 1) by (cbn; lra).
  destruct (animate_blend_approach scatter_state uniforms0 90 H1 H2)
    as (_ & _ & _ & _ & H & _).
  apply H; lia.
Defined.

(** ** The vertex shader at rest *)

Section ShaderStages.

Import MainJs.

Lemma vec3_eq (a b : vec3) :
  x3 a = x3 b -> y3 a = y3 b -> z3 a = z3 b -> a = b.
Proof. destruct a, b; cbn; intros -> -> ->; reflexivity. Qed.

Variables (u : Uniforms) (a : Vertex).

(** [mix] with weight 0 is its first argument. *)
Lemma main_mix_0 : uMix u = 0 -> main_mix u a = position a.
Proof.
  intros H; unfold main_mix, mix3, zip3, mix; rewrite H.
  apply vec3_eq; cbn; ring.
Qed.

(** The displacement is scaled by [t * 2.0]. *)
Lemma main_turbulence_0 (pos : vec3) : uMix u = 0 -> main_turbulence u a pos = pos.
Proof.
  intros H; unfold main_turbulence; rewrite H.
  apply vec3_eq; cbn [x3 y3 z3];
    now rewrite Rmult_0_l, Rmult_0_r, Rplus_0_r.
Qed.

(** The rotation by [uTime * 0.1] at time 0. *)
Lemma main_spin_0 (pos : vec3) : uTime u = 0 -> main_spin u pos = pos.
Proof.
  intros H; unfold main_spin; rewrite H.
  replace (0 * 0.1) with 0 by lra; rewrite cos_0, sin_0.
  destruct (Rltb (uMix u) 0.5); [|reflexivity].
  apply vec3_eq; cbn [x3 y3 z3]; ring.
Qed.

End ShaderStages.

(** C7. With [uMix] exactly 0 and [uTime] exactly 0 the position the vertex
    shader computes is the tree position of the vertex: the interpolation
    gives [position], the turbulence is scaled by [uMix] and vanishes, and
    the rotation by [uTime * 0.1] is the identity. *)
Theorem main_pos_at_rest (u : MainJs.Uniforms) (a : MainJs.Vertex) :
  MainJs.uMix u = 0 -> MainJs.uTime u = 0 ->
  MainJs.main_mix u a = MainJs.position a /\
  MainJs.main_turbulence u a (MainJs.main_mix u a) = MainJs.main_mix u a /\
  MainJs.main_spin u (MainJs.position a) = MainJs.position a /\
  MainJs.main_pos u a = MainJs.position a.
Proof.
  intros Hmix Htime; unfold MainJs.main_pos.
  rewrite (main_turbulence_0 u a _ Hmix), (main_mix_0 u a Hmix),
    (main_spin_0 u _ Htime).
  repeat split.
Qed.

Lemma main_pos_at_rest_witness :
  MainJs.main_pos uniforms0 sample_vertex = MainJs.position sample_vertex.
Proof.
  assert (H1 : MainJs.uMix uniforms0 = 0) by (cbn; lra).
  apply (main_pos_at_rest uniforms0 sample_vertex H1 eq_refl).
Defined.

(** ** The scatter formation *)

Section Scatter.

Import ScriptJs.

Lemma calculateScatterPos_value (w : World) :
  calculateScatterPos w
  = (Ok (let r := 10 + rand w 0%nat * 15 in
         let theta := rand w 1%nat * PI * 2 in
         let phi := acos ((rand w 2%nat * 2) - 1) in
         Vector3.mk (r * sin phi * cos theta) (r * sin phi * sin theta) (r * cos phi)),
     drawn 3 w).
Proof. reflexivity. Qed.

Lemma spherical_length (r phi theta : R) :
  0 <= r ->
  Vector3.length
    (Vector3.mk (r * sin phi * cos theta) (r * sin phi * sin theta) (r * cos phi))
  = r.
Proof.
  intros Hr; unfold Vector3.length; cbn [Vector3.x Vector3.y Vector3.z].
  replace (r * sin phi * cos theta * (r * sin phi * cos theta)
           + r * sin phi * sin theta * (r * sin phi * sin theta)
           + r * cos phi * (r * cos phi))
    with (r * r * (Rsqr (sin phi) * (Rsqr (sin theta) + Rsqr (cos theta))
                   + Rsqr (cos phi)))
    by (unfold Rsqr; ring).
  rewrite (sin2_cos2 theta), Rmult_1_r, (sin2_cos2 phi), Rmult_1_r.
  now apply sqrt_square.
Qed.

End Scatter.

(** C8. For all draws in [0, 1), [calculateScatterPos] returns a point at
    distance [10 + u * 15] from the origin, [u] being its first draw, hence
    in the shell from 10 to 25; the point has azimuth [2 * PI * u'] in
    [0, 2 * PI) and inclination [acos (2 * u'' - 1)] in [0, PI], so that its
    height is the radius times [2 * u'' - 1]; and every radius of
    [10, 25) is the radius of some draw. *)
Theorem calculateScatterPos_on_shell (w : ScriptJs.World) :
  ScriptJs.unit_draws (ScriptJs.rand w) ->
  let r := 10 + ScriptJs.rand w 0%nat * 15 in
  let theta := ScriptJs.rand w 1%nat * PI * 2 in
  let phi := acos (ScriptJs.rand w 2%nat * 2 - 1) in
  exists v,
    ScriptJs.calculateScatterPos w = (Ok v, ScriptJs.drawn 3 w) /\
    v = Vector3.mk (r * sin phi * cos theta) (r * sin phi * sin theta) (r * cos phi) /\
    Vector3.length v = r /\
    10 <= Vector3.length v < 25 /\
    0 <= theta < 2 * PI /\
    0 <= phi <= PI /\
    Vector3.z v = r * (ScriptJs.rand w 2%nat * 2 - 1) /\
    (forall rho, 10 <= rho < 25 ->
       exists w' v',
         ScriptJs.unit_draws (ScriptJs.rand w') /\
         fst (ScriptJs.calculateScatterPos w') = Ok v' /\ Vector3.length v' = rho).
Proof.
  intros Hdraws r theta phi.
  pose proof (Hdraws 0%nat) as H0; pose proof (Hdraws 1%nat) as H1;
    pose proof (Hdraws 2%nat) as H2.
  assert (Hr : 10 <= r < 25) by (unfold r; lra).
  eexists; split; [apply calculateScatterPos_value|].
  cbv zeta; fold r theta phi.
  rewrite spherical_length by lra.
  repeat split; try lra.
  - unfold theta; pose proof PI_RGT_0; nra.
  - unfold theta; pose proof PI_RGT_0; nra.
  - apply acos_bound.
  - apply acos_bound.
  - cbn [Vector3.z]; unfold phi; rewrite cos_acos by lra; reflexivity.
  - intros rho Hrho.
    exists {| ScriptJs.STATE := ScriptJs.STATE w; ScriptJs.items := ScriptJs.items w;
              ScriptJs.rand := fun _ => (rho - 10) / 15 |}.
    rewrite calculateScatterPos_value; cbv zeta; cbn [fst ScriptJs.rand].
    eexists; split; [intros n; cbn; lra|]; split; [reflexivity|].
    rewrite spherical_length; lra.
Qed.

Lemma calculateScatterPos_on_shell_witness :
  exists v,
    ScriptJs.calculateScatterPos half_world = (Ok v, ScriptJs.drawn 3 half_world) /\
    Vector3.length v = 10 + 0.5 * 15.
Proof.
  assert (H : ScriptJs.unit_draws (ScriptJs.rand half_world))
    by (intros n; cbn; lra).
  destruct (calculateScatterPos_on_shell half_world H) as (v & Hv & _ & Hlen & _).
  exists v; split; [exact Hv | exact Hlen].
Defined.

(** ** The position lerp of [update] *)

Section Update.

Import ScriptJs.

Lemma lerp_combination (a b : Vector3.t) (t : R) :
  Vector3.lerp a b t = combination a b t.
Proof. unfold Vector3.lerp, combination; f_equal; ring. Qed.


Lemma targets_defined (mode' : Mode) (tp : option nat) (i : nat) (mesh : Mesh) :
  exists target s, targets mode' tp i mesh = (Some target, s).
Proof.
  unfold targets; destruct mode'; try destruct (is_target tp i); eauto.
Qed.

Lemma updateMesh_position (f : R) (mode' : Mode) (tp : option nat) (i : nat)
    (mesh : Mesh) (target : Vector3.t) (s : R) :
  targets mode' tp i mesh = (Some target, s) ->
  position (updateMesh f mode' tp i mesh) = combination (position mesh) target f
  /\ userData (updateMesh f mode' tp i mesh) = userData mesh.
Proof.
  intros H; unfold updateMesh; rewrite H; cbn.
  now rewrite lerp_combination.
Qed.

Lemma updateFrom_nth (f : R) (mode' : Mode) (tp : option nat) (l : list Mesh) :
  forall (k i : nat) (mesh : Mesh),
    nth_error l i = Some mesh ->
    nth_error (updateFrom f mode' tp k l) i = Some (updateMesh f mode' tp (k + i) mesh).
Proof.
  induction l as [|m l IH]; intros k [|i] mesh H; cbn in *; try discriminate.
  - injection H as ->; now rewrite Nat.add_0_r.
  - rewrite (IH (S k) i mesh H); do 2 f_equal; lia.
Qed.


Lemma update_value (delta time : R) (mode' : Mode) (w : World) :
  update delta time mode' w
  = (Ok tt, on_items (updateFrom (2.0 * delta) mode' (targetPhoto (STATE w)) 0) w).
Proof. reflexivity. Qed.

End Update.






(** ** Methods that leave the items alone *)

Section KeepsItems.

Import ScriptJs.
Local Open Scope m_scope.

Lemma keeps_ret {A : Type} (a : A) : keeps_items (ret a).
Proof. intros w; reflexivity. Qed.

Lemma keeps_throw {A : Type} : keeps_items (@throw A).
Proof. intros w; reflexivity. Qed.

Lemma keeps_bind {A B : Type} (m : M A) (k : A -> M B) :
  keeps_items m -> (forall a, keeps_items (k a)) -> keeps_items (mbind m k).
Proof.
  intros Hm Hk w; unfold mbind.
  specialize (Hm w); destruct (m w) as [[a|] w']; cbn in *; [|assumption].
  now rewrite Hk.
Qed.

Lemma keeps_setSTATE (f : AppState -> AppState) : keeps_items (setSTATE f).
Proof. intros w; reflexivity. Qed.

Lemma keeps_getSTATE : keeps_items getSTATE.
Proof. intros w; reflexivity. Qed.

Lemma keeps_getItems : keeps_items getItems.
Proof. intros w; reflexivity. Qed.

Lemma keeps_random : keeps_items random.
Proof. intros w; reflexivity. Qed.

Lemma keeps_get {A : Type} (p : option Landmark.t) (field : Landmark.t -> A) :
  keeps_items (get p field).
Proof. destruct p; [apply keeps_ret | apply keeps_throw]. Qed.

Lemma keeps_forEachAcc {A S : Type} (f : A -> S -> M S) (arr : list A) :
  (forall a s, keeps_items (f a s)) -> forall s, keeps_items (forEachAcc f arr s).
Proof.
  intros Hf; induction arr as [|a arr IH]; intros s; cbn [forEachAcc].
  - apply keeps_ret.
  - apply keeps_bind; [apply Hf | assumption].
Qed.

End KeepsItems.

Create HintDb keeps.
#[export] Hint Resolve keeps_ret keeps_throw keeps_setSTATE keeps_getSTATE
  keeps_getItems keeps_random keeps_get : keeps.

Ltac keeps_step :=
  match goal with
  | |- ScriptJs.keeps_items (ScriptJs.mbind _ _) => apply keeps_bind; [|intros]
  | |- ScriptJs.keeps_items (ScriptJs.forEachAcc _ _ _) => apply keeps_forEachAcc; intros
  | |- ScriptJs.keeps_items (if ?c then _ else _) => destruct c
  | |- ScriptJs.keeps_items (match ?x with _ => _ end) => destruct x
  | |- ScriptJs.keeps_items _ => solve [auto with keeps]
  end.

Lemma keeps_triggerFocus : ScriptJs.keeps_items ScriptJs.triggerFocus.
Proof. unfold ScriptJs.triggerFocus; repeat keeps_step. Qed.

Lemma keeps_measure (lm : list Landmark.t) : ScriptJs.keeps_items (ScriptJs.measure lm).
Proof. unfold ScriptJs.measure; repeat keeps_step. Qed.

#[export] Hint Resolve keeps_triggerFocus keeps_measure : keeps.

Lemma keeps_handleGestures (results : ScriptJs.Results) :
  ScriptJs.keeps_items (ScriptJs.handleGestures results) /\
  ScriptJs.keeps_items (ScriptJs.handleGestures_first results) /\
  ScriptJs.keeps_items (ScriptJs.handleGestures_last results).
Proof.
  unfold ScriptJs.handleGestures, ScriptJs.handleGestures_first, ScriptJs.handleGestures_last.
  repeat split; repeat keeps_step.
Qed.

(** ** Photos among the items *)

Section Photos.

Import ScriptJs.

Lemma photos_from_app (a b : list Mesh) :
  forall i, photos_from i (a ++ b) = photos_from i a ++ photos_from (i + List.length a) b.
Proof.
  induction a as [|m a IH]; intros i; cbn.
  - now rewrite Nat.add_0_r.
  - rewrite IH, Nat.add_succ_r; destruct (is_photo m); reflexivity.
Qed.

Lemma photos_from_In (l : list Mesh) :
  forall i k, In k (photos_from i l) ->
              exists m, nth_error l (k - i) = Some m /\ (i <= k)%nat /\ is_photo m = true.
Proof.
  induction l as [|m l IH]; intros i k H; cbn in H; [contradiction|].
  assert (Hrest : In k (photos_from (S i) l) ->
                  exists m', nth_error (m :: l) (k - i) = Some m' /\ (i <= k)%nat
                             /\ is_photo m' = true).
  { intros H'; destruct (IH _ _ H') as (m' & Hn & Hle & Hp).
    exists m'; replace (k - i)%nat with (S (k - S i)) by lia; cbn; auto with arith. }
  destruct (is_photo m) eqn:E; [|auto].
  destruct H as [<-|H]; [|auto].
  exists m; rewrite Nat.sub_diag; auto.
Qed.

Lemma is_photo_type (m : Mesh) : is_photo m = true <-> type (userData m) = PHOTO.
Proof. unfold is_photo; destruct (type (userData m)); split; congruence. Qed.

Lemma photos_of_updateFrom (f : R) (mode' : Mode) (tp : option nat) (l : list Mesh) :
  forall k i, photos_from i (updateFrom f mode' tp k l) = photos_from i l.
Proof.
  induction l as [|m l IH]; intros k i; cbn; [reflexivity|].
  rewrite IH.
  replace (is_photo (updateMesh f mode' tp k m)) with (is_photo m); [reflexivity|].
  unfold is_photo, updateMesh.
  destruct (targets mode' tp k m) as [[t|] s]; reflexivity.
Qed.

(** [Math.floor(u * n)] is an index below [n]. *)
Lemma floor_index (u : R) (n : nat) :
  0 <= u < 1 -> (0 < n)%nat -> (Z.to_nat (Zfloor (u * INR n)) < n)%nat.
Proof.
  intros Hu Hn.
  assert (Hpos : 0 < INR n) by (apply lt_0_INR; lia).
  destruct (Zfloor_bound (u * INR n)) as [Hlo _].
  assert (H0 : (0 <= Zfloor (u * INR n))%Z) by (apply Zfloor_lub; cbn; nra).
  assert (H1 : (Zfloor (u * INR n) < Z.of_nat n)%Z).
  { apply lt_IZR; rewrite <- INR_IZR_INZ; nra. }
  lia.
Qed.

(** What the constructor's loop and [addPhoto] append. *)
Lemma newParticle_appends (i count : nat) (w : World) :
  exists m w',
    newParticle i count w = (Ok tt, w') /\ items w' = items w ++ [m]
    /\ is_photo m = false /\ STATE w' = STATE w.
Proof.
  unfold newParticle, calculateTreePos, calculateScatterPos, push, mbind; cbn.
  destruct (Rgtb (rand w 1%nat) 0.7); cbn; do 2 eexists; repeat split.
Qed.

Lemma addPhoto_appends (texture : Texture) (w : World) :
  exists m w',
    addPhoto texture w = (Ok tt, w') /\ items w' = items w ++ [m]
    /\ is_photo m = true /\ STATE w' = STATE w.
Proof.
  unfold addPhoto, calculateTreePos, calculateScatterPos, push, mbind; cbn.
  do 2 eexists; repeat split.
Qed.

Lemma particles_append (count : nat) (l : list nat) :
  forall w, exists ps w',
    forEachM (fun i => newParticle i count) l w = (Ok tt, w')
    /\ items w' = items w ++ ps /\ List.length ps = List.length l
    /\ Forall (fun m => is_photo m = false) ps /\ STATE w' = STATE w.
Proof.
  induction l as [|i l IH]; intros w; cbn [forEachM].
  - exists [], w; rewrite app_nil_r; repeat split; constructor.
  - destruct (newParticle_appends i count w) as (m & w1 & E1 & I1 & P1 & S1).
    destruct (IH w1) as (ps & w2 & E2 & I2 & L2 & P2 & S2).
    exists (m :: ps), w2; unfold mbind; rewrite E1, E2; repeat split.
    + rewrite I2, I1, <- app_assoc; reflexivity.
    + cbn; now rewrite L2.
    + now constructor.
    + congruence.
Qed.

(** The items after [new ParticleManager(parent, count)]: [count]
    particles, then the default photo. *)
Lemma constructor_items (count : nat) (w : World) :
  exists ps photo w',
    constructor count w = (Ok tt, w')
    /\ items w' = ps ++ [photo] /\ List.length ps = count
    /\ Forall (fun m => is_photo m = false) ps /\ is_photo photo = true
    /\ STATE w' = STATE w.
Proof.
  unfold constructor, createDefaultPhoto.
  destruct (particles_append count (seq 0 count) (on_items (fun _ => []) w))
    as (ps & w1 & E1 & I1 & L1 & P1 & S1).
  destruct (addPhoto_appends defaultCanvas w1) as (photo & w2 & E2 & I2 & P2 & S2).
  exists ps, photo, w2; unfold mbind, setItems; rewrite E1, E2.
  rewrite length_seq in L1; cbn in I1, S1.
  repeat split; try assumption; congruence.
Qed.

Lemma has_photo_app (a b : list Mesh) : has_photo b -> has_photo (a ++ b).
Proof.
  unfold has_photo, photos_of; rewrite photos_from_app; cbn.
  intros Hb E; apply app_eq_nil in E as [_ E].
  destruct b as [|m b]; cbn in *; [now apply Hb|].
  destruct (is_photo m); [discriminate|].
  apply Hb.
  clear - E; revert E; generalize (List.length a); intros n.
  change (photos_from (S n) b = [] -> photos_from 1 b = []).
  generalize 1%nat; revert n.
  induction b as [|p b IH]; intros n k; cbn; [reflexivity|].
  destruct (is_photo p); [discriminate | apply IH].
Qed.

Lemma has_photo_single (m : Mesh) : is_photo m = true -> has_photo [m].
Proof. unfold has_photo, photos_of; cbn; intros ->; discriminate. Qed.

End Photos.

(** ** [triggerFocus] *)

Section TriggerFocus.

Import ScriptJs.

Lemma triggerFocus_no_photo (w : World) :
  ~ has_photo (items w) -> triggerFocus w = (Ok tt, w).
Proof.
  unfold has_photo; intros H.
  assert (E : photos_of (items w) = [])
    by (destruct (photos_of (items w)); [reflexivity | exfalso; apply H; discriminate]).
  unfold triggerFocus, mbind, getItems; rewrite E; reflexivity.
Qed.

Lemma triggerFocus_photo (w : World) :
  0 <= rand w 0%nat < 1 -> has_photo (items w) ->
  exists k mesh,
    triggerFocus w = (Ok tt, on_STATE (set_targetPhoto (Some k)) (drawn 1 w))
    /\ nth_error (items w) k = Some mesh /\ type (userData mesh) = PHOTO.
Proof.
  unfold has_photo; intros Hu Hp.
  assert (Hlen : (0 < List.length (photos_of (items w)))%nat)
    by (destruct (photos_of (items w)); [contradiction | cbn; lia]).
  pose proof (floor_index _ _ Hu Hlen) as Hk.
  destruct (nth_error (photos_of (items w))
              (Z.to_nat (Zfloor (rand w 0%nat * INR (List.length (photos_of (items w)))))))
    as [k|] eqn:E; [|apply nth_error_None in E; lia].
  destruct (photos_from_In (items w) 0 k (nth_error_In _ _ E)) as (mesh & Hn & _ & Hph).
  rewrite Nat.sub_0_r in Hn.
  exists k, mesh; repeat split; [|assumption | now apply is_photo_type].
  unfold triggerFocus, mbind, getItems.
  destruct (Nat.ltb_spec 0 (List.length (photos_of (items w)))); [|lia].
  unfold random, setSTATE; cbn [items drawn]; rewrite E; reflexivity.
Qed.

End TriggerFocus.

(** C10.  [triggerFocus] returns and leaves the items alone.  Without a
    PHOTO item it changes nothing at all; with one it sets
    [STATE.targetPhoto] to an item whose type is PHOTO.  The constructor
    returns with [count] particles and the default photo; [addPhoto],
    [update] and [handleGestures] keep a photo among the items; hence every
    pinch after construction selects an existing photo frame. *)
Theorem triggerFocus_selects_photo :
  (forall w : ScriptJs.World,
      0 <= ScriptJs.rand w 0%nat < 1 ->
      let out := ScriptJs.triggerFocus w in
      fst out = Ok tt /\
      ScriptJs.items (snd out) = ScriptJs.items w /\
      (~ ScriptJs.has_photo (ScriptJs.items w) -> snd out = w) /\
      (ScriptJs.has_photo (ScriptJs.items w) ->
       exists k mesh,
         ScriptJs.targetPhoto (ScriptJs.STATE (snd out)) = Some k /\
         nth_error (ScriptJs.items w) k = Some mesh /\
         ScriptJs.type (ScriptJs.userData mesh) = ScriptJs.PHOTO)) /\
  (forall (count : nat) (w0 : ScriptJs.World),
      let built := ScriptJs.constructor count w0 in
      fst built = Ok tt /\
      List.length (ScriptJs.items (snd built)) = S count /\
      ScriptJs.has_photo (ScriptJs.items (snd built))) /\
  (forall w : ScriptJs.World,
      ScriptJs.has_photo (ScriptJs.items w) ->
      (forall texture, ScriptJs.has_photo (ScriptJs.items (snd (ScriptJs.addPhoto texture w)))) /\
      (forall delta time mode',
          ScriptJs.has_photo (ScriptJs.items (snd (ScriptJs.update delta time mode' w)))) /\
      (forall results,
          ScriptJs.has_photo (ScriptJs.items (snd (ScriptJs.handleGestures results w))))) /\
  (forall (hand : list Vector3.t) (others : list (list Landmark.t)) (w : ScriptJs.World),
      List.length hand = 21%nat ->
      HandMeasures.pinchDistance hand < 0.05 ->
      ScriptJs.has_photo (ScriptJs.items w) ->
      0 <= ScriptJs.rand w 0%nat < 1 ->
      let out := ScriptJs.handleGestures (Some (map GestureSpec.landmark hand :: others)) w in
      exists k mesh,
        ScriptJs.targetPhoto (ScriptJs.STATE (snd out)) = Some k /\
        nth_error (ScriptJs.items (snd out)) k = Some mesh /\
        ScriptJs.type (ScriptJs.userData mesh) = ScriptJs.PHOTO).
Proof.
  split; [|split; [|split]].
  - intros w Hu out; subst out.
    split; [now destruct (triggerFocus_frame w) as (t & _ & H & _)|].
    split; [apply keeps_triggerFocus|].
    split.
    + intros Hno; now rewrite triggerFocus_no_photo.
    + intros Hp; destruct (triggerFocus_photo w Hu Hp) as (k & mesh & -> & Hn & Ht).
      exists k, mesh; repeat split; assumption.
  - intros count w0 built; subst built.
    destruct (constructor_items count w0) as (ps & photo & w' & -> & I & L & _ & P & _).
    cbn [fst snd]; rewrite I.
    split; [reflexivity|]; split.
    + rewrite length_app, L; cbn; lia.
    + apply has_photo_app, has_photo_single, P.
  - intros w Hp; split; [|split].
    + intros texture.
      destruct (addPhoto_appends texture w) as (m & w' & -> & I & P & _).
      cbn [snd]; rewrite I.
      apply has_photo_app, has_photo_single, P.
    + intros delta time mode'; rewrite update_value; cbn [snd ScriptJs.on_items ScriptJs.items].
      unfold ScriptJs.has_photo, ScriptJs.photos_of in *.
      now rewrite photos_of_updateFrom.
    + intros results.
      destruct (keeps_handleGestures results) as (H & _).
      now rewrite H.
  - intros hand others w Hlen Hpinch Hp Hu out; subst out.
    rewrite (pinch_branch _ others w ScriptJs.handleGestures);
      [ | rewrite length_map; lia
        | rewrite pinchDist_finite by lia; now apply Rltb_true
        | right; now left ].
    match goal with |- context [ScriptJs.triggerFocus ?w1] =>
      destruct (triggerFocus_photo w1 Hu Hp) as (k & mesh & -> & Hn & Ht) end.
    exists k, mesh; repeat split; assumption.
Qed.

Lemma triggerFocus_selects_photo_witness :
  exists k mesh,
    ScriptJs.targetPhoto (ScriptJs.STATE (snd (ScriptJs.triggerFocus gallery_world))) = Some k /\
    nth_error (ScriptJs.items gallery_world) k = Some mesh /\
    ScriptJs.type (ScriptJs.userData mesh) = ScriptJs.PHOTO.
Proof.
  destruct triggerFocus_selects_photo as (H & _).
  assert (Hu : 0 <= ScriptJs.rand gallery_world 0%nat < 1) by (cbn; lra).
  destruct (H gallery_world Hu) as (_ & _ & _ & Hp).
  apply Hp; unfold ScriptJs.has_photo; cbn; discriminate.
Defined.

(** * Further properties of main.js *)

(** ** When [detectGesture] and [predictWebcam] throw *)

Lemma detectGesture_throws (landmarks : option (list Landmark.t)) :
  MainJs.detectGesture landmarks = TypeError <->
  exists lm, landmarks = Some lm /\ (1 <= List.length lm <= 20)%nat.
Proof.
  split.
  - destruct landmarks as [lm|]; [|discriminate].
    intros H; exists lm; split; [reflexivity|].
    destruct (Nat.eq_dec (List.length lm) 0) as [E|E].
    + apply length_zero_iff_nil in E; subst lm; discriminate H.
    + destruct (le_lt_dec 21 (List.length lm)) as [Hfull|]; [|lia].
      destruct (detectGesture_full_defined lm Hfull) as (g & Hg & _); congruence.
  - intros (lm & -> & Hlen); now apply detectGesture_short.
Qed.

(** X1. [detectGesture] throws exactly on the lists that hold between 1 and
    20 landmarks; on [null], on the empty list and on every list of at least
    21 landmarks it returns a label, and the label is never [loading]. *)
Theorem detectGesture_throws_exactly_on_short_lists
    (landmarks : option (list Landmark.t)) :
  (MainJs.detectGesture landmarks = TypeError <->
   exists lm, landmarks = Some lm /\ (1 <= List.length lm <= 20)%nat) /\
  (forall g, MainJs.detectGesture landmarks = Ok g -> g <> MainJs.loading).
Proof.
  split; [apply detectGesture_throws|].
  intros g Hg.
  destruct landmarks as [lm|]; [|injection Hg as <-; discriminate].
  destruct (Nat.eq_dec (List.length lm) 0) as [E|E].
  - apply length_zero_iff_nil in E; subst lm; injection Hg as <-; discriminate.
  - destruct (le_lt_dec 21 (List.length lm)) as [Hfull|Hshort].
    + destruct (detectGesture_full_defined lm Hfull) as (g' & Hg' & Hne); congruence.
    + rewrite detectGesture_short in Hg by lia; discriminate.
Qed.

Lemma detectGesture_throws_exactly_on_short_lists_witness :
  MainJs.detectGesture (Some wrist_only) = TypeError.
Proof.
  apply (proj1 (detectGesture_throws_exactly_on_short_lists (Some wrist_only))).
  exists wrist_only; split; [reflexivity | cbn; lia].
Defined.

Section PredictWebcam.

Import MainJs.

Import MainJsScene.

Lemma predictWebcam_skipped (fr : Frame) (s : State) :
  ~ processed fr s -> predictWebcam fr s = Ok s.
Proof.
  unfold processed, predictWebcam, Req_dec_b; intros H.
  destruct (handLandmarker fr); [|reflexivity].
  destruct (Req_dec_T _ _) as [E|E]; [reflexivity|].
  exfalso; apply H; now split.
Qed.

Lemma predictWebcam_processed (fr : Frame) (s : State) :
  processed fr s ->
  predictWebcam fr s
  = match landmarks fr with
    | Some (hand :: _) =>
        gesture' <- detectGesture (Some hand) ;;
        Ok {| gesture := gesture';
              targetMix := match gesture' with
                           | open => 1.0
                           | closed => 0.0
                           | _ => targetMix s
                           end;
              lastVideoTime := currentTime fr |}
    | _ => Ok {| gesture := none; targetMix := Rmax 0 (targetMix s - 0.02);
                 lastVideoTime := currentTime fr |}
    end.
Proof.
  unfold processed, predictWebcam, Req_dec_b; intros [-> Ht].
  destruct (Req_dec_T _ _) as [E|E]; [contradiction|]; cbn [andb negb].
  destruct (landmarks fr) as [[|hand rest]|]; reflexivity.
Qed.

Lemma predictWebcam_lastVideoTime (fr : Frame) (s s' : State) :
  predictWebcam fr s = Ok s' ->
  (processed fr s -> lastVideoTime s' = currentTime fr) /\
  (~ processed fr s -> s' = s).
Proof.
  intros H; split; intros Hp.
  - rewrite (predictWebcam_processed fr s Hp) in H.
    destruct (landmarks fr) as [[|hand rest]|]; try (injection H as <-; reflexivity).
    destruct (detectGesture (Some hand)); [|discriminate].
    injection H as <-; reflexivity.
  - rewrite (predictWebcam_skipped fr s Hp) in H; congruence.
Qed.

Lemma predictWebcam_targetMix (fr : Frame) (s s' : State) :
  predictWebcam fr s = Ok s' ->
  0 <= targetMix s <= 1 -> 0 <= targetMix s' <= 1.
Proof.
  intros H Hr.
  destruct (handLandmarker fr) eqn:Hl;
    [destruct (Req_dec_T (currentTime fr) (lastVideoTime s)) as [E|E]|].
  - rewrite predictWebcam_skipped in H by (intros [_ Hne]; contradiction).
    now injection H as <-.
  - rewrite (predictWebcam_processed fr s (conj Hl E)) in H.
    assert (Hmax : 0 <= Rmax 0 (targetMix s - 0.02) <= 1)
      by (unfold Rmax; destruct (Rle_dec _ _); lra).
    destruct (landmarks fr) as [[|hand rest]|]; try (injection H as <-; exact Hmax).
    destruct (detectGesture (Some hand)) as [g|]; [|discriminate].
    injection H as <-; destruct g; cbn; lra.
  - rewrite predictWebcam_skipped in H by (intros [Hl' _]; congruence).
    now injection H as <-.
Qed.

End PredictWebcam.

(** X2. [predictWebcam] throws exactly when it processes a frame whose
    first hand holds between 1 and 20 landmarks; a frame it does not
    process (no landmarker yet, or the video time of the last processed
    frame) leaves [state] as it is. *)
Theorem predictWebcam_throws_exactly (fr : MainJs.Frame) (s : MainJs.State) :
  (MainJs.predictWebcam fr s = TypeError <->
   MainJsScene.processed fr s /\
   exists hand rest, MainJs.landmarks fr = Some (hand :: rest)
                     /\ (1 <= List.length hand <= 20)%nat) /\
  (~ MainJsScene.processed fr s -> MainJs.predictWebcam fr s = Ok s).
Proof.
  split; [|apply predictWebcam_skipped].
  split.
  - intros H.
    assert (Hp : MainJsScene.processed fr s).
    { destruct (MainJs.handLandmarker fr) eqn:Hl;
        [destruct (Req_dec_T (MainJs.currentTime fr) (MainJs.lastVideoTime s)) as [E|E]|].
      - rewrite predictWebcam_skipped in H by (intros [_ Hne]; contradiction).
        discriminate.
      - now split.
      - rewrite predictWebcam_skipped in H by (intros [Hl' _]; congruence).
        discriminate. }
    split; [assumption|].
    rewrite (predictWebcam_processed fr s Hp) in H.
    destruct (MainJs.landmarks fr) as [[|hand rest]|]; try discriminate.
    exists hand, rest; split; [reflexivity|].
    destruct (MainJs.detectGesture (Some hand)) eqn:E; [discriminate|].
    apply detectGesture_throws in E as (lm & [= <-] & Hlen); assumption.
  - intros (Hp & hand & rest & Hl & Hlen).
    rewrite (predictWebcam_processed fr s Hp), Hl.
    assert (E : MainJs.detectGesture (Some hand) = TypeError)
      by (apply detectGesture_throws; eauto).
    now rewrite E.
Qed.

Lemma predictWebcam_throws_exactly_witness :
  MainJs.predictWebcam short_frame scatter_state = TypeError.
Proof.
  apply (proj1 (predictWebcam_throws_exactly short_frame scatter_state)).
  split; [split; [reflexivity | cbn; lra]|].
  exists wrist_only, []; split; [reflexivity | cbn; lia].
Defined.

(** X3. Handing [predictWebcam] the same frame again changes nothing: once
    a frame is processed, [state.lastVideoTime] is its video time and the
    second call is skipped. *)
Theorem predictWebcam_same_frame_twice (fr : MainJs.Frame) (s s' : MainJs.State) :
  MainJs.predictWebcam fr s = Ok s' ->
  MainJs.predictWebcam fr s' = Ok s'.
Proof.
  intros H.
  destruct (predictWebcam_lastVideoTime fr s s' H) as [Hyes Hno].
  apply predictWebcam_skipped; intros [Hl Hne].
  destruct (Req_dec_T (MainJs.currentTime fr) (MainJs.lastVideoTime s)) as [E|E].
  - rewrite Hno in Hne by (intros [_ Hne']; contradiction); contradiction.
  - now rewrite Hyes in Hne by (split; assumption).
Qed.

Lemma idle_frame_processed : MainJsScene.processed idle_frame MainJs.state0.
Proof. split; [reflexivity | cbn; lra]. Qed.

Lemma stretched_frame_processed : MainJsScene.processed stretched_frame MainJs.state0.
Proof. split; [reflexivity | cbn; lra]. Qed.

Lemma predictWebcam_same_frame_twice_witness :
  exists s', MainJs.predictWebcam idle_frame MainJs.state0 = Ok s'
             /\ MainJs.predictWebcam idle_frame s' = Ok s'.
Proof.
  eexists; split.
  - rewrite (predictWebcam_processed _ _ idle_frame_processed); reflexivity.
  - apply (predictWebcam_same_frame_twice idle_frame MainJs.state0).
    rewrite (predictWebcam_processed _ _ idle_frame_processed); reflexivity.
Defined.

(** X4. On a processed frame whose first hand has at least 21 landmarks
    with finite coordinates, [predictWebcam] looks at that hand only: three
    or four extended fingers set [targetMix] to 1, none or one set it to 0,
    and exactly two leave it as it was, with no decay while a hand is in
    view. *)
Theorem predictWebcam_first_hand
    (fr : MainJs.Frame) (s : MainJs.State)
    (hand : list Vector3.t) (others : list (list Landmark.t)) :
  MainJsScene.processed fr s ->
  MainJs.landmarks fr = Some (map GestureSpec.landmark hand :: others) ->
  (20 < List.length hand)%nat ->
  let n := GestureSpec.extendedCount hand in
  exists s',
    MainJs.predictWebcam fr s = Ok s' /\
    MainJs.lastVideoTime s' = MainJs.currentTime fr /\
    ((3 <= n)%nat -> MainJs.gesture s' = MainJs.open /\ MainJs.targetMix s' = 1) /\
    ((n <= 1)%nat -> MainJs.gesture s' = MainJs.closed /\ MainJs.targetMix s' = 0) /\
    (n = 2%nat -> MainJs.gesture s' = MainJs.none
                  /\ MainJs.targetMix s' = MainJs.targetMix s).
Proof.
  intros Hp Hl Hfull n.
  rewrite (predictWebcam_processed fr s Hp), Hl, (detectGesture_finite hand Hfull).
  fold n; clearbody n; cbn [bind].
  eexists; split; [reflexivity|]; split; [reflexivity|].
  destruct (Nat.leb_spec 3 n); [|destruct (Nat.leb_spec n 1)];
    cbn [MainJs.gesture MainJs.targetMix];
    repeat split; intros; try lia; try lra; reflexivity.
Qed.

Lemma predictWebcam_first_hand_witness :
  exists s', MainJs.predictWebcam stretched_frame MainJs.state0 = Ok s'
             /\ MainJs.gesture s' = MainJs.open /\ MainJs.targetMix s' = 1.
Proof.
  destruct (predictWebcam_first_hand stretched_frame MainJs.state0 stretched_hand
              [nan_hand] stretched_frame_processed eq_refl)
    as (s' & Hs & _ & Hopen & _); [cbn; lia|].
  exists s'; split; [exact Hs|].
  apply Hopen; rewrite stretched_hand_count; lia.
Defined.

(** ** The blend towards any held target *)

Lemma animate_n_gap (state : MainJs.State) (u : MainJs.Uniforms) (n : nat) :
  MainJs.targetMix state - MainJs.uMix (MainJs.animate_n n state u)
  = 0.95 ^ n * (MainJs.targetMix state - MainJs.uMix u).
Proof.
  induction n as [|n IH]; cbn [MainJs.animate_n pow]; [lra|].
  rewrite uMix_animate.
  replace (MainJs.targetMix state
           - (MainJs.uMix (MainJs.animate_n n state u)
              + (MainJs.targetMix state - MainJs.uMix (MainJs.animate_n n state u)) * 0.05))
    with (0.95 * (MainJs.targetMix state - MainJs.uMix (MainJs.animate_n n state u)))
    by lra.
  rewrite IH; ring.
Qed.

Lemma animate_n_uTime (state : MainJs.State) (u : MainJs.Uniforms) (n : nat) :
  MainJs.uTime (MainJs.animate_n n state u) = MainJs.uTime u + INR n * 0.01
  /\ MainJs.uPixelRatio (MainJs.animate_n n state u) = MainJs.uPixelRatio u.
Proof.
  induction n as [|n [IH1 IH2]]; [cbn; split; lra|].
  cbn [MainJs.animate_n]; unfold MainJs.animate at 1 2;
    cbn [MainJs.uTime MainJs.uPixelRatio].
  rewrite IH1, IH2, S_INR; split; lra.
Qed.

(** X5. While [state.targetMix] is held at any value, [n] display frames
    shrink the distance of [uMix] from it by the factor [0.95 ^ n], so
    [uMix] stays between its start and the target and never passes it;
    [uTime] has grown by [n * 0.01] and [uPixelRatio] is untouched. *)
Theorem animate_n_towards_target
    (state : MainJs.State) (u : MainJs.Uniforms) (n : nat) :
  let u' := MainJs.animate_n n state u in
  MainJs.targetMix state - MainJs.uMix u'
  = 0.95 ^ n * (MainJs.targetMix state - MainJs.uMix u) /\
  Rmin (MainJs.uMix u) (MainJs.targetMix state) <= MainJs.uMix u'
  <= Rmax (MainJs.uMix u) (MainJs.targetMix state) /\
  MainJs.uTime u' = MainJs.uTime u + INR n * 0.01 /\
  MainJs.uPixelRatio u' = MainJs.uPixelRatio u.
Proof.
  cbv zeta.
  pose proof (animate_n_gap state u n) as Hgap.
  pose proof (pow_095_bounds n) as Hpow.
  destruct (animate_n_uTime state u n) as [Ht Hr].
  repeat split; try assumption.
  - unfold Rmin; destruct (Rle_dec _ _); nra.
  - unfold Rmax; destruct (Rle_dec _ _); nra.
Qed.

(** ** The two loops together *)

Section Loops.

Import MainJs MainJsScene.

Lemma tick_blend_in_range (t : Tick) (p : Page) :
  blend_in_range p -> blend_in_range (tick t p).
Proof.
  intros [Ht Hu]; destruct t as [fr|]; unfold tick.
  - destruct (videoLoop p); [|now split].
    destruct (predictWebcam fr (state p)) as [s'|] eqn:E; split; cbn; try assumption.
    now apply (predictWebcam_targetMix fr (state p) s').
  - split; cbn; [assumption | lra].
Qed.

Lemma run_blend_in_range (ticks : list Tick) :
  forall p, blend_in_range p -> blend_in_range (run ticks p).
Proof.
  induction ticks as [|t ticks IH]; intros p Hp; [assumption|].
  cbn [run]; now apply IH, tick_blend_in_range.
Qed.

Lemma run_uTime (ticks : list Tick) :
  forall p, uTime (uniforms (run ticks p))
            = uTime (uniforms p) + INR (displays ticks) * 0.01.
Proof.
  induction ticks as [|t ticks IH]; intros p; [cbn; lra|].
  cbn [run]; rewrite IH; unfold displays; destruct t as [fr|]; cbn [filter].
  - replace (uTime (uniforms (tick (video fr) p))) with (uTime (uniforms p));
      [reflexivity|].
    unfold tick; destruct (videoLoop p); [|reflexivity].
    destruct (predictWebcam fr (state p)); reflexivity.
  - cbn [List.length]; rewrite S_INR; cbn; lra.
Qed.

End Loops.

(** X6. However video frames and display frames interleave from the start
    of the page, whatever the frames hold, [state.targetMix] stays in
    [0, 1] and [uMix] stays in [0, 1) (it never reaches 1), and [uTime] is
    0.01 times the number of display frames so far. *)
Theorem run_keeps_blend_in_range (ticks : list MainJsScene.Tick) :
  let p := MainJsScene.run ticks MainJsScene.page0 in
  0 <= MainJs.targetMix (MainJsScene.state p) <= 1 /\
  0 <= MainJs.uMix (MainJsScene.uniforms p) < 1 /\
  MainJs.uTime (MainJsScene.uniforms p) = INR (MainJsScene.displays ticks) * 0.01.
Proof.
  cbv zeta.
  destruct (run_blend_in_range ticks MainJsScene.page0) as [Ht Hu];
    [split; cbn; lra|].
  rewrite run_uTime; cbn.
  repeat split; try apply Ht; try apply Hu; lra.
Qed.

(** ** The particle buffers *)

Section Buffers.

Import MainJs MainJsScene.

Lemma unit_draws_shift (r : ScriptJs.Rand) (k : nat) :
  ScriptJs.unit_draws r -> ScriptJs.unit_draws (fun n => r (k + n)%nat).
Proof. intros H n; apply H. Qed.

Lemma Rabs_le_between (a b : R) : Rabs a <= b -> - b <= a <= b.
Proof. unfold Rabs; destruct (Rcase_abs a); lra. Qed.

(** The distance from the axis moves by at most twice what the two
    coordinates move by. *)
Lemma norm_near (x z a b N N' d : R) :
  0 <= N -> 0 <= N' -> N * N = x * x + z * z ->
  N' * N' = (x + a) * (x + a) + (z + b) * (z + b) ->
  Rabs a <= d -> Rabs b <= d ->
  N' <= N + 2 * d.
Proof.
  intros HN HN' EN EN' Ha Hb.
  assert (Hd : 0 <= d) by (pose proof (Rabs_pos a); lra).
  apply Rabs_le_between in Ha; apply Rabs_le_between in Hb.
  assert (Hx : - N <= x <= N) by (split; nra).
  assert (Hz : - N <= z <= N) by (split; nra).
  assert (Hxa : x * a <= N * d) by nra.
  assert (Hzb : z * b <= N * d) by nra.
  assert (Haa : a * a <= d * d) by nra.
  assert (Hbb : b * b <= d * d) by nra.
  apply Rsqr_incr_0_var; [unfold Rsqr; nra | lra].
Qed.

Lemma axisDistance_near (x z x' z' d : R) :
  Rabs (x' - x) <= d -> Rabs (z' - z) <= d ->
  sqrt (x * x + z * z) - 2 * d <= axisDistance (Vec3 x' 0 z')
  <= sqrt (x * x + z * z) + 2 * d.
Proof.
  intros Hx Hz; unfold axisDistance; cbn [x3 z3].
  assert (Sq : forall u v, 0 <= u * u + v * v) by (intros; nra).
  pose proof (sqrt_pos (x * x + z * z)) as HN.
  pose proof (sqrt_pos (x' * x' + z' * z')) as HN'.
  pose proof (sqrt_sqrt _ (Sq x z)) as EN.
  pose proof (sqrt_sqrt _ (Sq x' z')) as EN'.
  split.
  - assert (H : sqrt (x * x + z * z) <= sqrt (x' * x' + z' * z') + 2 * d); [|lra].
    apply (norm_near x' z' (x - x') (z - z')); try assumption.
    + rewrite EN; f_equal; ring.
    + now rewrite Rabs_minus_sym.
    + now rewrite Rabs_minus_sym.
  - apply (norm_near x z (x' - x) (z' - z)); try assumption.
    rewrite EN'; f_equal; ring.
Qed.

Lemma axisDistance_height (v : vec3) :
  axisDistance v = axisDistance (Vec3 (x3 v) 0 (z3 v)).
Proof. reflexivity. Qed.

Lemma polar_norm (angle radius : R) :
  0 <= radius ->
  sqrt (cos angle * radius * (cos angle * radius)
        + sin angle * radius * (sin angle * radius)) = radius.
Proof.
  intros Hr.
  replace (cos angle * radius * (cos angle * radius)
           + sin angle * radius * (sin angle * radius))
    with (radius * radius * (Rsqr (sin angle) + Rsqr (cos angle)))
    by (unfold Rsqr; ring).
  rewrite sin2_cos2, Rmult_1_r; now apply sqrt_square.
Qed.

Lemma polar_bound (angle radius bound : R) :
  0 <= radius <= bound ->
  Rabs (cos angle * radius) <= bound /\ Rabs (sin angle * radius) <= bound.
Proof.
  intros Hr.
  pose proof (COS_bound angle); pose proof (SIN_bound angle).
  split; apply Rabs_le; split; nra.
Qed.

Variable fround : R -> R.
Hypothesis store : float32_store fround.

Lemma fround_between (lo hi : Z) (a : R) :
  (Z.abs lo <= 200)%Z -> (Z.abs hi <= 200)%Z ->
  IZR lo / 2 <= a <= IZR hi / 2 ->
  IZR lo / 2 <= fround a <= IZR hi / 2.
Proof.
  destruct store as (Hmono & Hfix & _); intros Hlo Hhi [Ha Hb].
  pose proof (Hmono _ _ Ha) as H1; rewrite (Hfix lo Hlo) in H1.
  pose proof (Hmono _ _ Hb) as H2; rewrite (Hfix hi Hhi) in H2.
  now split.
Qed.

Ltac stored lo hi :=
  match goal with
  | |- _ <= fround ?a <= _ =>
      let Hb := fresh "Hb" in
      assert (Hb : IZR lo / 2 <= fround a <= IZR hi / 2)
        by (apply fround_between; [lia | lia | lra]);
      lra
  end.

(** A stored point of a circle of radius at most 40 about the axis is as
    far from the axis as the radius, up to the rounding of two stores. *)
Lemma stored_polar (angle radius : R) (y : R) :
  0 <= radius <= 40 ->
  radius - 2 / 100000
  <= axisDistance (Vec3 (fround (cos angle * radius)) y (fround (sin angle * radius)))
  <= radius + 2 / 100000.
Proof.
  destruct store as (_ & _ & Herr); intros Hr.
  destruct (polar_bound angle radius 40 Hr) as [Hc Hs].
  rewrite axisDistance_height; cbn [x3 z3].
  assert (Ec : Rabs (fround (cos angle * radius) - cos angle * radius) <= 1 / 100000)
    by (apply Herr; lra).
  assert (Es : Rabs (fround (sin angle * radius) - sin angle * radius) <= 1 / 100000)
    by (apply Herr; lra).
  pose proof (axisDistance_near _ _ _ _ _ Ec Es) as H.
  rewrite polar_norm in H by lra; lra.
Qed.

(** One round of the loop: what it leaves in the buffers, and that it
    leaves draws in [0, 1) behind. *)
Lemma particle_written (r : ScriptJs.Rand) :
  ScriptJs.unit_draws r ->
  let p := fst (particle fround r) in
  in_tree_cone (treePosition p) /\ in_scatter_ring (scatterPosition p) /\
  size_of_tint fround p /\
  (0 <= x3 (random3 p) <= 1 /\ 0 <= y3 (random3 p) <= 1 /\ 0 <= z3 (random3 p) <= 1) /\
  ScriptJs.unit_draws (snd (particle fround r)).
Proof.
  intros H.
  pose proof (H 0%nat) as H0; pose proof (H 2%nat) as H2; pose proof (H 3%nat) as H3;
    pose proof (H 5%nat) as H5; pose proof (H 7%nat) as H7; pose proof (H 8%nat) as H8;
    pose proof (H 9%nat) as H9; pose proof (H 10%nat) as H10;
    pose proof (H 11%nat) as H11; pose proof (H 12%nat) as H12.
  destruct store as (Hmono & Hfix & Herr).
  set (y := r 0%nat * 20 - 10).
  set (level := (10 - y) / 20).
  assert (Hy : -10 <= y <= 10) by (unfold y; lra).
  assert (Hlevel : 0 <= level <= 1) by (unfold level; lra).
  assert (Hfy : -10 <= fround y <= 10).
  { stored (-20)%Z 20%Z. }
  assert (Hey : Rabs (fround y - y) <= 1 / 100000)
    by (apply Herr, Rabs_le; lra).
  apply Rabs_le_between in Hey.
  assert (Htree : forall a u, 0 <= u < 1 ->
            in_tree_cone
              (Vec3 (fround (cos a * (level * 7.5 + u * 1.5 * level)))
                    (fround y)
                    (fround (sin a * (level * 7.5 + u * 1.5 * level))))).
  { intros a u Hu; unfold in_tree_cone, storeTolerance; cbn [y3].
    split; [exact Hfy|]; cbv zeta.
    assert (Hrad : 0 <= level * 7.5 + u * 1.5 * level <= 40) by nra.
    pose proof (stored_polar a _ (fround y) Hrad) as Hd.
    unfold level in *; nra. }
  assert (Hring : forall a u v, 0 <= u < 1 -> 0 <= v < 1 ->
            in_scatter_ring (Vec3 (fround (cos a * (15 + u * 25)))
                                  (fround ((v - 0.5) * 10))
                                  (fround (sin a * (15 + u * 25))))).
  { intros a u v Hu Hv; unfold in_scatter_ring, storeTolerance; cbn [y3].
    pose proof (stored_polar a (15 + u * 25) (fround ((v - 0.5) * 10))
                  ltac:(lra)) as Hd.
    split; [lra | stored (-10)%Z 10%Z]. }
  assert (Hunit : forall u, 0 <= u < 1 -> 0 <= fround u <= 1).
  { intros u Hu; stored 0%Z 2%Z. }
  assert (Hgold : forall u, 0 <= u < 1 -> 3.5 <= fround (3.5 + u * 2.0) <= 5.5).
  { intros u Hu; stored 7%Z 11%Z. }
  assert (Hred : forall u, 0 <= u < 1 -> 3 <= fround (3.0 + u) <= 4).
  { intros u Hu; stored 6%Z 8%Z. }
  assert (Hwhite : forall u, 0 <= u < 1 -> 2 <= fround (2.0 + u) <= 3).
  { intros u Hu; stored 4%Z 6%Z. }
  assert (Hleaf : forall u, 0 <= u < 1 -> fround 0.8 <= fround (0.8 + u * 1.2) <= 2).
  { intros u Hu; split; [apply Hmono; lra|].
    pose proof (Hmono (0.8 + u * 1.2) (IZR 4 / 2) ltac:(lra)) as Hb.
    rewrite (Hfix 4%Z) in Hb by lia; lra. }
  unfold particle, gbind, random; cbn -[pow].
  fold y; fold level.
  destruct (Rgtb (r 6%nat) 0.96); [|destruct (Rgtb (r 6%nat) 0.94);
                                      [|destruct (Rgtb (r 6%nat) 0.90)]];
    cbn; unfold size_of_tint; cbn;
    (split; [apply Htree; assumption|]);
    (split; [apply Hring; assumption|]);
    (split; [first [apply Hgold | apply Hred | apply Hwhite
                   | split; [lra | apply Hleaf]]; assumption|]);
    (split; [split; [|split]; apply Hunit; apply H|]);
    intros n; apply H.
Qed.

Lemma particles_S (k : nat) (r : ScriptJs.Rand) :
  particles fround (S k) r
  = (fst (particle fround r) :: fst (particles fround k (snd (particle fround r))),
     snd (particles fround k (snd (particle fround r)))).
Proof.
  cbn [particles]; unfold gbind, gret.
  destruct (particle fround r) as [p r1]; cbn [fst snd].
  destruct (particles fround k r1) as [rest r2]; reflexivity.
Qed.

Lemma particles_written (count : nat) :
  forall r, ScriptJs.unit_draws r ->
            List.length (fst (particles fround count r)) = count /\
            Forall (fun p => in_tree_cone (treePosition p)
                             /\ in_scatter_ring (scatterPosition p)
                             /\ size_of_tint fround p)
                   (fst (particles fround count r)) /\
            ScriptJs.unit_draws (snd (particles fround count r)).
Proof.
  induction count as [|k IH]; intros r Hr.
  - cbn [particles]; unfold gret; cbn [fst snd].
    split; [reflexivity|]; split; [constructor | assumption].
  - destruct (particle_written r Hr) as (Ht & Hs & Hz & _ & Hr').
    destruct (IH _ Hr') as (Hlen & Hall & Hr'').
    rewrite particles_S; cbn [fst snd List.length].
    split; [now rewrite Hlen|]; split; [constructor; auto | assumption].
Qed.

End Buffers.

Lemma no_rounding_store : MainJsScene.float32_store no_rounding.
Proof.
  unfold no_rounding; split; [|split]; intros; try assumption; try reflexivity.
  replace (a - a) with 0 by ring; rewrite Rabs_R0; lra.
Qed.

(** X7. For draws in [0, 1) the loop of main.js fills the buffers with
    [count] particles.  With the rounding of the stores into the
    [Float32Array]s, a stored tree position has its height in [-10, 10] and
    lies in a hollow cone: between 7.5 and 9 times the level
    [(10 - y) / 20] from the axis, up to [1 / 10000].  A stored scatter
    position lies in a flat ring: 15 to 40 from the axis, up to
    [1 / 10000], and at most 5 above or below the origin.  So every
    particle is farther from the axis when scattered than in the tree. *)
Theorem particles_tree_inside_scatter_ring
    (fround : R -> R) (count : nat) (r : ScriptJs.Rand) :
  MainJsScene.float32_store fround ->
  ScriptJs.unit_draws r ->
  let buffer := fst (MainJsScene.particles fround count r) in
  List.length buffer = count /\
  Forall (fun p =>
            MainJsScene.in_tree_cone (MainJsScene.treePosition p) /\
            MainJsScene.in_scatter_ring (MainJsScene.scatterPosition p) /\
            MainJsScene.axisDistance (MainJsScene.treePosition p) <= 9 + 1 / 10000 /\
            MainJsScene.axisDistance (MainJsScene.treePosition p)
            < MainJsScene.axisDistance (MainJsScene.scatterPosition p))
         buffer.
Proof.
  intros Hs Hr buffer; subst buffer.
  destruct (particles_written fround Hs count r Hr) as (Hlen & Hall & _).
  split; [assumption|].
  eapply Forall_impl; [|exact Hall].
  intros p (Ht & Hg & _); cbv beta.
  split; [exact Ht|]; split; [exact Hg|].
  destruct Ht as [Hy Hd], Hg as [Hd' Hy']; cbv zeta in Hd.
  unfold MainJsScene.storeTolerance in *.
  split; lra.
Qed.

Lemma particles_tree_inside_scatter_ring_witness :
  List.length (fst (MainJsScene.particles no_rounding 2 half_draws)) = 2%nat.
Proof.
  assert (H : ScriptJs.unit_draws half_draws) by (intros n; unfold half_draws; lra).
  apply (particles_tree_inside_scatter_ring no_rounding 2 half_draws
           no_rounding_store H).
Defined.

(** X8. For draws in [0, 1) every stored size of the buffers is set by the
    tint of its particle: gold lights 3.5 to 5.5, red ornaments 3 to 4,
    white sparkles 2 to 3, leaves from the stored value of 0.8 to 2, with a
    green mix of at most 0.7; all bounds are reached or can be, since a
    store rounds.  So every size is at most 5.5 and at least the stored
    0.8, which is within [1 / 100000] of 0.8; no leaf is larger than 2 and
    no other particle smaller. *)
Theorem particles_sizes (fround : R -> R) (count : nat) (r : ScriptJs.Rand) :
  MainJsScene.float32_store fround ->
  ScriptJs.unit_draws r ->
  Rabs (fround 0.8 - 0.8) <= 1 / 100000 /\
  Forall (fun p =>
            MainJsScene.size_of_tint fround p /\
            fround 0.8 <= MainJsScene.size p <= 5.5 /\
            ((exists alpha, MainJsScene.tint p = MainJsScene.leaves alpha) ->
             MainJsScene.size p <= 2) /\
            ((forall alpha, MainJsScene.tint p <> MainJsScene.leaves alpha) ->
             2 <= MainJsScene.size p))
         (fst (MainJsScene.particles fround count r)).
Proof.
  intros Hs Hr.
  assert (H08 : Rabs (fround 0.8 - 0.8) <= 1 / 100000).
  { destruct Hs as (_ & _ & Herr); apply Herr, Rabs_le; lra. }
  split; [exact H08|].
  apply Rabs_le_between in H08.
  destruct (particles_written fround Hs count r Hr) as (_ & Hall & _).
  eapply Forall_impl; [|exact Hall].
  intros p (_ & _ & Hz); cbv beta.
  split; [assumption|].
  unfold MainJsScene.size_of_tint in Hz.
  destruct (MainJsScene.tint p) as [| | |alpha].
  - split; [lra|]; split; [intros [a Ha]; discriminate Ha | intros _; lra].
  - split; [lra|]; split; [intros [a Ha]; discriminate Ha | intros _; lra].
  - split; [lra|]; split; [intros [a Ha]; discriminate Ha | intros _; lra].
  - split; [lra|]; split; [intros _; lra|].
    intros Hne; exfalso; now apply (Hne alpha).
Qed.

Lemma particles_sizes_witness :
  Forall (fun p => no_rounding 0.8 <= MainJsScene.size p <= 5.5)
         (fst (MainJsScene.particles no_rounding 2 half_draws)).
Proof.
  assert (H : ScriptJs.unit_draws half_draws) by (intros n; unfold half_draws; lra).
  eapply Forall_impl;
    [|exact (proj2 (particles_sizes no_rounding 2 half_draws no_rounding_store H))].
  intros p (_ & Hs & _); exact Hs.
Defined.

(** ** The fragment shader *)

Section Fragment.

Import MainJs MainJsScene.

Lemma glsl_pow_three_halves (g : R) :
  0 <= g -> glsl_pow g 1.5 = g * sqrt g.
Proof.
  intros Hg; unfold glsl_pow.
  destruct (Rltb 0 g) eqn:E.
  - apply Rltb_true in E.
    replace 1.5 with (1 + / 2) by lra.
    now rewrite Rpower_plus, Rpower_1, Rpower_sqrt.
  - apply Rltb_false in E.
    replace g with 0 by lra; now rewrite sqrt_0, Rmult_0_r.
Qed.

Lemma three_halves_range (g : R) : 0 <= g <= 1 -> 0 <= g * sqrt g <= 1.
Proof.
  intros Hg.
  pose proof (sqrt_pos g) as H0.
  assert (H1 : sqrt g <= 1) by (rewrite <- sqrt_1; apply sqrt_le_1_alt; lra).
  nra.
Qed.

Lemma three_halves_monotone (g h : R) :
  0 <= g <= h -> g * sqrt g <= h * sqrt h.
Proof.
  intros Hgh.
  pose proof (sqrt_pos g) as H0.
  assert (H1 : sqrt g <= sqrt h) by (apply sqrt_le_1_alt; lra).
  nra.
Qed.

Lemma fragment_value (vColor : vec3) (a : R) (c : R * R) :
  fragment vColor a c
  = if Rgtb (fromCentre c) 0.5 then None
    else Some (vColor, a * glsl_pow (1.0 - fromCentre c * 2.0) 1.5).
Proof. reflexivity. Qed.

End Fragment.

(** X9. The fragment shader of main.js draws a round sprite: a fragment
    farther than 0.5 from the centre of the point is discarded and every
    other fragment keeps the colour of the vertex; its alpha is
    [g * sqrt g] for [g = 1 - 2 * r], which is 1 at the centre, 0 on the
    rim, within [0, 1] in between and never larger farther out. *)
Theorem fragment_round_sprite (vColor : MainJs.vec3) (c : R * R) :
  let r := MainJsScene.fromCentre c in
  let out := MainJsScene.fragment vColor MainJsScene.vAlpha c in
  (0.5 < r <-> out = None) /\
  (r <= 0.5 ->
   exists alpha,
     out = Some (vColor, alpha) /\
     alpha = (1 - 2 * r) * sqrt (1 - 2 * r) /\
     0 <= alpha <= 1 /\
     (r = 0 -> alpha = 1) /\ (r = 0.5 -> alpha = 0) /\
     (forall c' alpha',
         MainJsScene.fromCentre c' <= r ->
         MainJsScene.fragment vColor MainJsScene.vAlpha c' = Some (vColor, alpha') ->
         alpha <= alpha')).
Proof.
  intros r out; subst out; rewrite fragment_value; fold r.
  assert (Hr0 : 0 <= r) by apply sqrt_pos.
  split.
  - split.
    + intros H; now rewrite (proj2 (Rltb_true 0.5 r) H : Rgtb r 0.5 = true).
    + intros H; destruct (Rgtb r 0.5) eqn:E; [now apply Rltb_true in E | discriminate].
  - intros Hr.
    rewrite (proj2 (Rltb_false 0.5 r) Hr : Rgtb r 0.5 = false).
    eexists; split; [reflexivity|].
    unfold MainJsScene.vAlpha.
    replace (1.0 - r * 2.0) with (1 - 2 * r) by lra.
    rewrite glsl_pow_three_halves by lra.
    pose proof (three_halves_range (1 - 2 * r)) as Hrange.
    split; [lra|]; split; [lra|]; split; [|split].
    + intros ->; replace (1 - 2 * 0) with 1 by lra; rewrite sqrt_1; lra.
    + intros ->; replace (1 - 2 * 0.5) with 0 by lra; rewrite sqrt_0; lra.
    + intros c' alpha' Hc'; rewrite fragment_value.
      assert (Hc0 : 0 <= MainJsScene.fromCentre c') by apply sqrt_pos.
      rewrite (proj2 (Rltb_false 0.5 (MainJsScene.fromCentre c')) ltac:(lra)
               : Rgtb (MainJsScene.fromCentre c') 0.5 = false).
      intros [= <-]; unfold MainJsScene.vAlpha.
      replace (1.0 - MainJsScene.fromCentre c' * 2.0)
        with (1 - 2 * MainJsScene.fromCentre c') by lra.
      rewrite glsl_pow_three_halves by lra.
      pose proof (three_halves_monotone (1 - 2 * r) (1 - 2 * MainJsScene.fromCentre c')).
      lra.
Qed.

Lemma fragment_round_sprite_witness :
  exists alpha,
    MainJsScene.fragment (MainJs.Vec3 1 1 1) MainJsScene.vAlpha (0.5, 0.5)
    = Some (MainJs.Vec3 1 1 1, alpha) /\
    0 <= alpha <= 1.
Proof.
  assert (Hr : MainJsScene.fromCentre (0.5, 0.5) <= 0.5).
  { unfold MainJsScene.fromCentre; cbn [fst snd].
    replace ((0.5 - 0.5) * (0.5 - 0.5) + (0.5 - 0.5) * (0.5 - 0.5)) with 0 by lra.
    rewrite sqrt_0; lra. }
  destruct (proj2 (fragment_round_sprite (MainJs.Vec3 1 1 1) (0.5, 0.5)) Hr)
    as (alpha & E & _ & Ha & _).
  exists alpha; split; assumption.
Defined.

(** ** The spin of the vertex shader *)

(** X10. The spin of the vertex shader is a rigid rotation about the
    vertical axis: at every time and blend it keeps the height of a point and
    its distance from the axis, and from blend 0.5 upwards it leaves the
    point where it is. *)
Theorem main_spin_rigid (u : MainJs.Uniforms) (pos : MainJs.vec3) :
  MainJs.y3 (MainJs.main_spin u pos) = MainJs.y3 pos /\
  MainJsScene.axisDistance (MainJs.main_spin u pos) = MainJsScene.axisDistance pos /\
  (0.5 <= MainJs.uMix u -> MainJs.main_spin u pos = pos).
Proof.
  unfold MainJs.main_spin.
  destruct (Rltb (MainJs.uMix u) 0.5) eqn:E.
  - split; [reflexivity|]; split.
    + unfold MainJsScene.axisDistance; cbn [MainJs.x3 MainJs.z3]; f_equal.
      set (rot := MainJs.uTime u * 0.1).
      pose proof (sin2_cos2 rot) as H; unfold Rsqr in H.
      set (s := sin rot) in *; set (c := cos rot) in *.
      replace ((MainJs.x3 pos * c - MainJs.z3 pos * s)
               * (MainJs.x3 pos * c - MainJs.z3 pos * s)
               + (MainJs.x3 pos * s + MainJs.z3 pos * c)
                 * (MainJs.x3 pos * s + MainJs.z3 pos * c))
        with ((MainJs.x3 pos * MainJs.x3 pos + MainJs.z3 pos * MainJs.z3 pos)
              * (s * s + c * c)) by ring.
      rewrite H; ring.
    + intros Hge; apply Rltb_true in E; lra.
  - repeat split.
Qed.

Lemma main_spin_rigid_witness :
  MainJs.main_spin
    {| MainJs.uTime := 3; MainJs.uMix := 1.0; MainJs.uPixelRatio := 1 |}
    (MainJs.position sample_vertex)
  = MainJs.position sample_vertex.
Proof.
  apply (proj2 (proj2 (main_spin_rigid
                         {| MainJs.uTime := 3; MainJs.uMix := 1.0;
                            MainJs.uPixelRatio := 1 |}
                         (MainJs.position sample_vertex)))).
  cbn; lra.
Defined.

(** ** The hash of the noise *)



(** * Further properties of script.js, first and last document *)

(** ** The tree formation *)

Section TreeFormation.

Import ScriptJs ScriptJsScene.

Lemma axisDistance_of_polar (angle radius y : R) :
  0 <= radius ->
  axisDistance (Vector3.mk (cos angle * radius) y (sin angle * radius)) = radius.
Proof.
  intros Hr; unfold axisDistance; cbn [Vector3.x Vector3.z].
  replace (cos angle * radius * (cos angle * radius)
           + sin angle * radius * (sin angle * radius))
    with (radius * radius * (Rsqr (sin angle) + Rsqr (cos angle)))
    by (unfold Rsqr; ring).
  rewrite sin2_cos2, Rmult_1_r; now apply sqrt_square.
Qed.

Lemma calculateTreePos_value (i total : R) (surfaceOnly : bool) (w : World) :
  calculateTreePos i total surfaceOnly w
  = let t := i / total in
    let angle := t * PI * 2 * 12 in
    let y := t * CONFIG_treeHeight - CONFIG_treeHeight / 2 in
    let r := (1 - t) * CONFIG_treeRadius in
    if surfaceOnly
    then (Ok (Vector3.mk (cos angle * r) y (sin angle * r)), w)
    else (Ok (Vector3.mk (cos angle * (r * sqrt (rand w 0%nat))) y
                         (sin angle * (r * sqrt (rand w 0%nat)))),
          drawn 1 w).
Proof. destruct surfaceOnly; reflexivity. Qed.

Lemma sqrt_unit (u : R) : 0 <= u < 1 -> 0 <= sqrt u <= 1.
Proof.
  intros Hu; split; [apply sqrt_pos|].
  rewrite <- sqrt_1; apply sqrt_le_1_alt; lra.
Qed.

Lemma tree_point_in_cone (t u a : R) :
  0 <= t <= 1 -> 0 <= u <= 1 ->
  in_cone (Vector3.mk (cos a * ((1 - t) * CONFIG_treeRadius * u))
                      (t * CONFIG_treeHeight - CONFIG_treeHeight / 2)
                      (sin a * ((1 - t) * CONFIG_treeRadius * u))).
Proof.
  intros Ht Hu; unfold in_cone, coneRadius, CONFIG_treeRadius, CONFIG_treeHeight.
  rewrite axisDistance_of_polar by nra.
  cbn [Vector3.y]; split; nra.
Qed.

Lemma tree_point_on_cone (t a : R) :
  0 <= t <= 1 ->
  on_cone (Vector3.mk (cos a * ((1 - t) * CONFIG_treeRadius))
                      (t * CONFIG_treeHeight - CONFIG_treeHeight / 2)
                      (sin a * ((1 - t) * CONFIG_treeRadius))).
Proof.
  intros Ht; unfold on_cone, coneRadius, CONFIG_treeRadius, CONFIG_treeHeight.
  rewrite axisDistance_of_polar by nra.
  cbn [Vector3.y]; split; lra.
Qed.

End TreeFormation.

(** X12. For an index between 0 and [total] and a draw in [0, 1),
    [calculateTreePos] returns a point of the cone of the tree: its height
    is [25 * i / total - 12.5] and it is at most the cone's radius at that
    height away from the axis.  With [surfaceOnly] it calls [Math.random]
    not at all and the point lies on the surface of the cone; without, it
    calls it once. *)
Theorem calculateTreePos_in_cone
    (i total : R) (surfaceOnly : bool) (w : ScriptJs.World) :
  0 <= i <= total -> 0 < total ->
  0 <= ScriptJs.rand w 0%nat < 1 ->
  exists v,
    fst (ScriptJs.calculateTreePos i total surfaceOnly w) = Ok v /\
    Vector3.y v = 25 * (i / total) - 12.5 /\
    ScriptJsScene.in_cone v /\
    (surfaceOnly = true ->
     ScriptJsScene.on_cone v /\ snd (ScriptJs.calculateTreePos i total surfaceOnly w) = w) /\
    (surfaceOnly = false ->
     snd (ScriptJs.calculateTreePos i total surfaceOnly w) = ScriptJs.drawn 1 w).
Proof.
  intros Hi Htotal Hu.
  assert (Ht : 0 <= i / total <= 1).
  { assert (Hinv : 0 < / total) by now apply Rinv_0_lt_compat.
    assert (Hone : total * / total = 1) by (apply Rinv_r; lra).
    unfold Rdiv; split; nra. }
  rewrite calculateTreePos_value; cbv zeta.
  destruct surfaceOnly; cbn [fst snd]; eexists; (split; [reflexivity|]).
  - split; [cbn; unfold ScriptJs.CONFIG_treeHeight; lra|].
    pose proof (tree_point_on_cone (i / total) (i / total * PI * 2 * 12) Ht) as Hon.
    split; [|split; [intros _; split; [exact Hon | reflexivity] | discriminate]].
    destruct Hon as [Hy Hd]; split; [exact Hy | rewrite Hd; lra].
  - split; [cbn; unfold ScriptJs.CONFIG_treeHeight; lra|].
    split; [|split; [discriminate | reflexivity]].
    apply tree_point_in_cone; [assumption|].
    pose proof (sqrt_unit _ Hu); lra.
Qed.

Lemma calculateTreePos_in_cone_witness :
  exists v,
    fst (ScriptJs.calculateTreePos 250 1000 true half_world) = Ok v /\
    ScriptJsScene.in_cone v.
Proof.
  assert (H1 : 0 <= 250 <= 1000) by lra.
  assert (H2 : 0 < 1000) by lra.
  assert (H3 : 0 <= ScriptJs.rand half_world 0%nat < 1) by (cbn; lra).
  destruct (calculateTreePos_in_cone 250 1000 true half_world H1 H2 H3)
    as (v & Hv & _ & Hc & _).
  exists v; split; assumption.
Defined.

(** ** What the constructor builds *)

Section Construction.

Import ScriptJs ScriptJsScene.

Lemma unit_draws_drawn (k : nat) (w : World) :
  unit_draws (rand w) -> unit_draws (rand (drawn k w)).
Proof. intros H n; apply H. Qed.

Lemma scatter_point_in_shell (u theta phi : R) :
  0 <= u < 1 ->
  in_shell (Vector3.mk ((10 + u * 15) * sin phi * cos theta)
                       ((10 + u * 15) * sin phi * sin theta)
                       ((10 + u * 15) * cos phi)).
Proof.
  intros Hu; unfold in_shell; rewrite spherical_length by lra; lra.
Qed.

Lemma index_fraction (i count : nat) :
  (i < count)%nat -> 0 <= INR i / INR count <= 1.
Proof.
  intros Hi.
  assert (H0 : 0 <= INR i) by apply pos_INR.
  assert (H1 : INR i < INR count) by now apply lt_INR.
  assert (Hinv : 0 < / INR count) by (apply Rinv_0_lt_compat; lra).
  assert (Hone : INR count * / INR count = 1) by (apply Rinv_r; lra).
  unfold Rdiv; split; nra.
Qed.

Lemma newParticle_fresh (i count : nat) (w : World) :
  (i < count)%nat -> unit_draws (rand w) ->
  exists m w',
    newParticle i count w = (Ok tt, w') /\ items w' = items w ++ [m]
    /\ fresh m /\ type (userData m) = PARTICLE
    /\ STATE w' = STATE w /\ unit_draws (rand w').
Proof.
  intros Hi Hw.
  pose proof (index_fraction i count Hi) as Ht.
  unfold newParticle, calculateTreePos, calculateScatterPos, push, mbind; cbn.
  destruct (Rgtb (rand w 1%nat) 0.7); cbn; do 2 eexists;
    (split; [reflexivity|]); (split; [reflexivity|]);
    (split; [|split; [reflexivity|split; [reflexivity|intros n; apply Hw]]]);
    unfold fresh; cbn;
    (split; [reflexivity|]); (split; [reflexivity|]);
    (split; [apply tree_point_in_cone; [assumption|];
             pose proof (sqrt_unit _ (Hw 2%nat)); pose proof (sqrt_unit _ (Hw 3%nat)); lra
            | apply scatter_point_in_shell; apply Hw]).
Qed.

Lemma addPhoto_fresh (texture : Texture) (w : World) :
  unit_draws (rand w) ->
  exists m w',
    addPhoto texture w = (Ok tt, w') /\ items w' = items w ++ [m]
    /\ fresh m /\ on_cone (treePos (userData m)) /\ type (userData m) = PHOTO
    /\ material m = framed texture
    /\ STATE w' = STATE w /\ unit_draws (rand w').
Proof.
  intros Hw.
  assert (Ht : 0 <= rand w 0%nat * 1000 / 1000 <= 1)
    by (pose proof (Hw 0%nat); lra).
  pose proof (tree_point_on_cone _ (rand w 0%nat * 1000 / 1000 * PI * 2 * 12) Ht) as Hon.
  unfold addPhoto, calculateTreePos, calculateScatterPos, push, mbind; cbn.
  do 2 eexists; (split; [reflexivity|]); (split; [reflexivity|]).
  split; [|split; [exact Hon|repeat split; apply Hw]].
  unfold fresh; cbn; (split; [reflexivity|]); (split; [reflexivity|]).
  split; [|apply scatter_point_in_shell; apply Hw].
  destruct Hon as [Hy Hd]; split; [exact Hy|rewrite Hd; lra].
Qed.

Lemma particles_fresh (count : nat) (l : list nat) :
  Forall (fun i => (i < count)%nat) l ->
  forall w, unit_draws (rand w) ->
  exists ps w',
    forEachM (fun i => newParticle i count) l w = (Ok tt, w')
    /\ items w' = items w ++ ps /\ List.length ps = List.length l
    /\ Forall (fun m => fresh m /\ type (userData m) = PARTICLE) ps
    /\ STATE w' = STATE w /\ unit_draws (rand w').
Proof.
  induction 1 as [|i l Hi Hl IH]; intros w Hw; cbn [forEachM].
  - exists [], w; rewrite app_nil_r; repeat split; [constructor | apply Hw | apply Hw].
  - destruct (newParticle_fresh i count w Hi Hw) as (m & w1 & E1 & I1 & F1 & T1 & S1 & U1).
    destruct (IH w1 U1) as (ps & w2 & E2 & I2 & L2 & P2 & S2 & U2).
    exists (m :: ps), w2; unfold mbind; rewrite E1, E2.
    split; [reflexivity|]; split; [rewrite I2, I1, <- app_assoc; reflexivity|].
    split; [cbn; now rewrite L2|].
    split; [constructor; [split|]; assumption|].
    split; [congruence | assumption].
Qed.

Lemma photos_from_particles (ps : list Mesh) :
  Forall (fun m => fresh m /\ type (userData m) = PARTICLE) ps ->
  forall i, photos_from i ps = [].
Proof.
  induction 1 as [|m ps [_ Hm] _ IH]; intros i; cbn; [reflexivity|].
  unfold is_photo; rewrite Hm; apply IH.
Qed.

Lemma constructor_fresh (count : nat) (w : World) :
  unit_draws (rand w) ->
  exists ps photo w',
    constructor count w = (Ok tt, w')
    /\ items w' = ps ++ [photo] /\ List.length ps = count
    /\ Forall (fun m => fresh m /\ type (userData m) = PARTICLE) ps
    /\ fresh photo /\ on_cone (treePos (userData photo)) /\ type (userData photo) = PHOTO
    /\ STATE w' = STATE w /\ unit_draws (rand w').
Proof.
  intros Hw; unfold constructor, createDefaultPhoto.
  assert (Hseq : Forall (fun i => (i < count)%nat) (seq 0 count))
    by (apply Forall_forall; intros i Hi; apply in_seq in Hi; lia).
  destruct (particles_fresh count (seq 0 count) Hseq (on_items (fun _ => []) w) Hw)
    as (ps & w1 & E1 & I1 & L1 & P1 & S1 & U1).
  destruct (addPhoto_fresh defaultCanvas w1 U1)
    as (photo & w2 & E2 & I2 & F2 & C2 & T2 & _ & S2 & U2).
  exists ps, photo, w2; unfold mbind, setItems; rewrite E1, E2.
  rewrite length_seq in L1; cbn in I1, S1.
  repeat (split; [first [assumption | reflexivity | congruence]|]); assumption.
Qed.

(** A mesh at its tree position with scale 1 is where TREE mode wants
    it. *)
Lemma updateMesh_at_rest (f : R) (tp : option nat) (i : nat) (mesh : Mesh) :
  position mesh = treePos (userData mesh) ->
  scale mesh = Vector3.mk 1 1 1 ->
  updateMesh f TREE tp i mesh = mesh.
Proof.
  intros Hp Hs; unfold updateMesh; cbn [targets].
  rewrite Hs; cbn [Vector3.x].
  replace (Rgtb (Rabs (1 - 1)) 0.01) with false.
  - destruct mesh as [g ma ud p s]; cbn in *; subst; f_equal.
    destruct (treePos ud) as [a b c]; unfold Vector3.lerp; cbn; f_equal; ring.
  - symmetry; unfold Rgtb; apply Rltb_false.
    replace (1 - 1) with 0 by ring; rewrite Rabs_R0; lra.
Qed.

Lemma updateFrom_at_rest (f : R) (tp : option nat) (l : list Mesh) :
  Forall (fun m => position m = treePos (userData m) /\ scale m = Vector3.mk 1 1 1) l ->
  forall k, updateFrom f TREE tp k l = l.
Proof.
  induction 1 as [|m l [Hp Hs] _ IH]; intros k; cbn [updateFrom]; [reflexivity|].
  now rewrite updateMesh_at_rest, IH.
Qed.

Lemma on_items_id (w : World) (f : list Mesh -> list Mesh) :
  f (items w) = items w -> on_items f w = w.
Proof. destruct w as [s it r]; unfold on_items; cbn; now intros ->. Qed.

Lemma updates_at_rest (n : nat) (delta time : R) (w : World) :
  Forall (fun m => position m = treePos (userData m) /\ scale m = Vector3.mk 1 1 1)
         (items w) ->
  updates n delta time TREE w = (Ok tt, w).
Proof.
  intros Hw; induction n as [|n IH]; cbn [updates]; [reflexivity|].
  unfold mbind; rewrite update_value, on_items_id, IH; [reflexivity|].
  now apply updateFrom_at_rest.
Qed.

(** Whatever the draws, the constructor's loop and [addPhoto] append a
    mesh at its tree position, with scale 1. *)
Lemma newParticle_at_rest (i count : nat) (w : World) :
  exists m w',
    newParticle i count w = (Ok tt, w') /\ items w' = items w ++ [m]
    /\ position m = treePos (userData m) /\ scale m = Vector3.mk 1 1 1.
Proof.
  unfold newParticle, calculateTreePos, calculateScatterPos, push, mbind; cbn.
  destruct (Rgtb (rand w 1%nat) 0.7); cbn; do 2 eexists; repeat split.
Qed.

Lemma addPhoto_at_rest (texture : Texture) (w : World) :
  exists m w',
    addPhoto texture w = (Ok tt, w') /\ items w' = items w ++ [m]
    /\ position m = treePos (userData m) /\ scale m = Vector3.mk 1 1 1.
Proof.
  unfold addPhoto, calculateTreePos, calculateScatterPos, push, mbind; cbn.
  do 2 eexists; repeat split.
Qed.

Lemma particles_at_rest (count : nat) (l : list nat) :
  forall w, exists ps w',
    forEachM (fun i => newParticle i count) l w = (Ok tt, w')
    /\ items w' = items w ++ ps
    /\ Forall (fun m => position m = treePos (userData m)
                        /\ scale m = Vector3.mk 1 1 1) ps.
Proof.
  induction l as [|i l IH]; intros w; cbn [forEachM].
  - exists [], w; rewrite app_nil_r; repeat split; constructor.
  - destruct (newParticle_at_rest i count w) as (m & w1 & E1 & I1 & P1 & S1).
    destruct (IH w1) as (ps & w2 & E2 & I2 & P2).
    exists (m :: ps), w2; unfold mbind; rewrite E1, E2.
    split; [reflexivity|]; split; [rewrite I2, I1, <- app_assoc; reflexivity|].
    constructor; [split|]; assumption.
Qed.

Lemma constructor_at_rest (count : nat) (w : World) :
  exists w',
    constructor count w = (Ok tt, w')
    /\ Forall (fun m => position m = treePos (userData m)
                        /\ scale m = Vector3.mk 1 1 1) (items w').
Proof.
  unfold constructor, createDefaultPhoto.
  destruct (particles_at_rest count (seq 0 count) (on_items (fun _ => []) w))
    as (ps & w1 & E1 & I1 & P1).
  destruct (addPhoto_at_rest defaultCanvas w1) as (photo & w2 & E2 & I2 & P2 & S2).
  exists w2; unfold mbind, setItems; rewrite E1, E2.
  split; [reflexivity|]; rewrite I2, I1; cbn [items on_items app].
  apply Forall_app; split; [assumption|]; constructor; [now split | constructor].
Qed.

End Construction.

(** X13. For draws in [0, 1), [new ParticleManager(parent, count)] returns
    with [count] particles followed by the default photo and leaves [STATE]
    alone.  Every mesh is at its tree position with scale 1; every tree
    position is in the cone of the tree, the photo's on its surface; every
    scatter position is in the shell between the radii 10 and 25.  The
    photo is the only PHOTO item, at index [count]. *)
Theorem constructor_builds_tree
    (count : nat) (w : ScriptJs.World) :
  ScriptJs.unit_draws (ScriptJs.rand w) ->
  exists ps photo w',
    ScriptJs.constructor count w = (Ok tt, w') /\
    ScriptJs.items w' = ps ++ [photo] /\
    List.length ps = count /\
    Forall ScriptJsScene.fresh (ScriptJs.items w') /\
    Forall (fun m => ScriptJs.type (ScriptJs.userData m) = ScriptJs.PARTICLE) ps /\
    ScriptJs.type (ScriptJs.userData photo) = ScriptJs.PHOTO /\
    ScriptJsScene.on_cone (ScriptJs.treePos (ScriptJs.userData photo)) /\
    ScriptJs.photos_of (ScriptJs.items w') = [count] /\
    ScriptJs.STATE w' = ScriptJs.STATE w.
Proof.
  intros Hw.
  destruct (constructor_fresh count w Hw)
    as (ps & photo & w' & E & I & L & P & F & C & T & S & _).
  exists ps, photo, w'; rewrite I.
  split; [assumption|]; split; [reflexivity|]; split; [assumption|].
  split; [apply Forall_app; split; [|constructor; [assumption | constructor]];
          revert P; apply Forall_impl; now intros m [H _]|].
  split; [revert P; apply Forall_impl; now intros m [_ H]|].
  split; [assumption|]; split; [assumption|]; split; [|assumption].
  unfold ScriptJs.photos_of; rewrite photos_from_app, (photos_from_particles ps P), L.
  cbn; unfold ScriptJs.is_photo; now rewrite T.
Qed.

Lemma constructor_builds_tree_witness :
  exists ps photo w',
    ScriptJs.constructor 3 half_world = (Ok tt, w') /\
    ScriptJs.items w' = ps ++ [photo] /\
    Forall ScriptJsScene.fresh (ScriptJs.items w').
Proof.
  assert (H : ScriptJs.unit_draws (ScriptJs.rand half_world))
    by (intros n; cbn; lra).
  destruct (constructor_builds_tree 3 half_world H)
    as (ps & photo & w' & E & I & _ & F & _).
  exists ps, photo, w'; repeat split; assumption.
Defined.

(** X14. After the constructor, TREE mode is a fixed point of the
    animation: any number of calls of [update] in TREE mode, whatever
    [delta] and [time], return and leave the world as the constructor left
    it.  No hypothesis on the draws is needed. *)
Theorem constructor_then_updates_at_rest
    (count n : nat) (delta time : R) (w : ScriptJs.World) :
  let built := snd (ScriptJs.constructor count w) in
  fst (ScriptJs.constructor count w) = Ok tt /\
  ScriptJsScene.updates n delta time ScriptJs.TREE built = (Ok tt, built).
Proof.
  destruct (constructor_at_rest count w) as (w' & E & H).
  rewrite E; cbn [fst snd]; split; [reflexivity|].
  now apply updates_at_rest.
Qed.

(** ** Repeated calls of [update] *)

Section Updates.

Import ScriptJs ScriptJsScene.

Lemma targets_userData (mode' : Mode) (tp : option nat) (i : nat) (m m' : Mesh) :
  userData m' = userData m -> targets mode' tp i m' = targets mode' tp i m.
Proof. intros H; unfold targets; now rewrite H. Qed.

Lemma combination_twice (p target : Vector3.t) (f k : R) :
  combination target (combination p target f) k
  = combination target p (k * (1 - f)).
Proof.
  destruct p as [px py pz], target as [tx ty tz].
  unfold combination; cbn; f_equal; ring.
Qed.

Lemma combination_start (p target : Vector3.t) : combination target p 1 = p.
Proof. destruct p, target; unfold combination; cbn; f_equal; ring. Qed.

Lemma updates_nth (delta time : R) (mode' : Mode) (i : nat)
    (target : Vector3.t) (s : R) (n : nat) :
  forall (w : World) (mesh : Mesh),
    nth_error (items w) i = Some mesh ->
    targets mode' (targetPhoto (STATE w)) i mesh = (Some target, s) ->
    exists mesh' w',
      updates n delta time mode' w = (Ok tt, w') /\
      STATE w' = STATE w /\
      nth_error (items w') i = Some mesh' /\
      userData mesh' = userData mesh /\
      position mesh' = combination target (position mesh) ((1 - 2.0 * delta) ^ n).
Proof.
  induction n as [|n IH]; intros w mesh Hi Ht; cbn [updates].
  - exists mesh, w; repeat split; try assumption.
    cbn [pow]; now rewrite combination_start.
  - unfold mbind; rewrite update_value.
    set (w1 := on_items _ w).
    pose proof (updateFrom_nth (2.0 * delta) mode' (targetPhoto (STATE w)) (items w)
                  0 i mesh Hi) as H1; cbn [Nat.add] in H1.
    destruct (updateMesh_position (2.0 * delta) mode' _ i mesh target s Ht) as [Hp Hu].
    destruct (IH w1 _ H1) as (mesh' & w' & E & S' & N' & U' & P').
    { cbn [w1 on_items STATE]; now rewrite (targets_userData _ _ _ mesh). }
    exists mesh', w'; rewrite E; repeat split; try assumption; try congruence.
    rewrite P', Hp, combination_twice; f_equal; cbn [pow]; ring.
Qed.

Lemma distance_combination (p target : Vector3.t) (k : R) :
  distance (combination target p k) target = Rabs k * distance p target.
Proof.
  destruct p as [px py pz], target as [tx ty tz].
  unfold distance, combination; cbn [Vector3.x Vector3.y Vector3.z].
  replace ((1 - k) * tx + k * px - tx) with (k * (px - tx)) by ring.
  replace ((1 - k) * ty + k * py - ty) with (k * (py - ty)) by ring.
  replace ((1 - k) * tz + k * pz - tz) with (k * (pz - tz)) by ring.
  replace (k * (px - tx) * (k * (px - tx)) + k * (py - ty) * (k * (py - ty))
           + k * (pz - tz) * (k * (pz - tz)))
    with (Rsqr k * ((px - tx) * (px - tx) + (py - ty) * (py - ty)
                    + (pz - tz) * (pz - tz))) by (unfold Rsqr; ring).
  rewrite sqrt_mult; [now rewrite sqrt_Rsqr_abs | apply Rle_0_sqr |].
  pose proof (Rle_0_sqr (px - tx)); pose proof (Rle_0_sqr (py - ty));
    pose proof (Rle_0_sqr (pz - tz)); unfold Rsqr in *; lra.
Qed.

Lemma distance_pos (p target : Vector3.t) : p <> target -> 0 < distance p target.
Proof.
  intros Hne.
  destruct p as [px py pz], target as [tx ty tz]; unfold distance; cbn.
  apply sqrt_lt_R0.
  assert (Hx : px <> tx \/ py <> ty \/ pz <> tz).
  { destruct (Req_dec px tx) as [->|]; [|now left].
    destruct (Req_dec py ty) as [->|]; [|now right; left].
    destruct (Req_dec pz tz) as [->|]; [|now right; right].
    now exfalso; apply Hne. }
  pose proof (Rle_0_sqr (px - tx)); pose proof (Rle_0_sqr (py - ty));
    pose proof (Rle_0_sqr (pz - tz)); unfold Rsqr in *.
  destruct Hx as [Hd|[Hd|Hd]];
    [assert (0 < (px - tx) * (px - tx)) by (apply Rsqr_pos_lt; lra)
    |assert (0 < (py - ty) * (py - ty)) by (apply Rsqr_pos_lt; lra)
    |assert (0 < (pz - tz) * (pz - tz)) by (apply Rsqr_pos_lt; lra)]; lra.
Qed.

End Updates.

(** X15. [n] calls of [update] in one mode return and take every mesh along
    the line to its target: what is left of the way is the [n]-th power of
    [1 - 2.0 * delta] times what it was, and its length the [n]-th power of
    [|1 - 2.0 * delta|] times the distance at the start.  So for [delta]
    between 0 and 1 no mesh ever moves away from its target, and for
    [delta] above 1 (the factor is not clamped) every mesh that is not on
    its target ends farther from it than it began. *)
Theorem updates_geometric
    (n : nat) (delta time : R) (mode' : ScriptJs.Mode) (w : ScriptJs.World)
    (i : nat) (mesh : ScriptJs.Mesh) (target : Vector3.t) (s : R) :
  nth_error (ScriptJs.items w) i = Some mesh ->
  ScriptJs.targets mode' (ScriptJs.targetPhoto (ScriptJs.STATE w)) i mesh = (Some target, s) ->
  let out := ScriptJsScene.updates n delta time mode' w in
  exists mesh',
    fst out = Ok tt /\
    nth_error (ScriptJs.items (snd out)) i = Some mesh' /\
    ScriptJs.userData mesh' = ScriptJs.userData mesh /\
    ScriptJs.position mesh'
    = combination target (ScriptJs.position mesh) ((1 - 2.0 * delta) ^ n) /\
    ScriptJsScene.distance (ScriptJs.position mesh') target
    = Rabs (1 - 2.0 * delta) ^ n * ScriptJsScene.distance (ScriptJs.position mesh) target /\
    (0 <= delta <= 1 ->
     ScriptJsScene.distance (ScriptJs.position mesh') target
     <= ScriptJsScene.distance (ScriptJs.position mesh) target) /\
    (1 < delta -> (0 < n)%nat -> ScriptJs.position mesh <> target ->
     ScriptJsScene.distance (ScriptJs.position mesh) target
     < ScriptJsScene.distance (ScriptJs.position mesh') target).
Proof.
  intros Hi Ht out; subst out.
  destruct (updates_nth delta time mode' i target s n w mesh Hi Ht)
    as (mesh' & w' & -> & _ & N & U & P).
  exists mesh'; cbn [fst snd].
  assert (D : ScriptJsScene.distance (ScriptJs.position mesh') target
              = Rabs (1 - 2.0 * delta) ^ n
                * ScriptJsScene.distance (ScriptJs.position mesh) target)
    by (rewrite P, distance_combination, RPow_abs; reflexivity).
  assert (D0 : 0 <= ScriptJsScene.distance (ScriptJs.position mesh) target)
    by apply sqrt_pos.
  repeat (split; [assumption || reflexivity|]); split.
  - intros Hd; rewrite D.
    assert (Hk : 0 <= Rabs (1 - 2.0 * delta) <= 1)
      by (split; [apply Rabs_pos | apply Rabs_le; lra]).
    assert (Hp : Rabs (1 - 2.0 * delta) ^ n <= 1)
      by (pose proof (pow_incr _ 1 n Hk) as Hi1; now rewrite pow1 in Hi1).
    nra.
  - intros Hd Hn Hne; rewrite D.
    assert (Hk : 1 < Rabs (1 - 2.0 * delta))
      by (rewrite Rabs_left by lra; lra).
    pose proof (Rlt_pow_R1 _ n Hk Hn) as Hp.
    pose proof (distance_pos _ _ Hne).
    nra.
Qed.

Lemma updates_geometric_witness :
  exists mesh',
    nth_error (ScriptJs.items
                 (snd (ScriptJsScene.updates 3 0.25 0 ScriptJs.SCATTER one_particle_world)))
              0 = Some mesh' /\
    ScriptJs.position mesh'
    = combination (Vector3.mk 10 0 (-12)) (Vector3.mk 1 2 3) ((1 - 2.0 * 0.25) ^ 3).
Proof.
  destruct (updates_geometric 3 0.25 0 ScriptJs.SCATTER one_particle_world 0 sample_mesh
              (Vector3.mk 10 0 (-12)) 1 eq_refl eq_refl)
    as (mesh' & _ & N & _ & P & _).
  exists mesh'; split; assumption.
Defined.

(** ** A display frame *)

Section Animate.

Import ScriptJs ScriptJsScene.




End Animate.



(** ** Hands with too few landmarks in [handleGestures] *)

Section ShortHand.

Import ScriptJs.

(** With fewer than 21 landmarks the read of [lm[9]], or at the latest that
    of [lm[20]] among the tips, is a read of [undefined]. *)
Lemma measure_short (lm : list Landmark.t) (w : World) :
  (List.length lm < 21)%nat ->
  exists w',
    measure lm w = (TypeError, w') /\
    mode (STATE w') = mode (STATE w) /\
    gesture (STATE w') = gesture (STATE w) /\
    targetPhoto (STATE w') = targetPhoto (STATE w) /\
    handDetected (STATE w') = handDetected (STATE w) /\
    items w' = items w /\
    handRotation (STATE w')
    = (if (List.length lm <=? 9)%nat then handRotation (STATE w)
       else HandMeasures.smoothed lm (handRotation (STATE w))).
Proof.
  intros H.
  destruct (Nat.leb_spec (List.length lm) 9) as [Hpalm|Hpalm].
  - exists w; unfold measure, mbind.
    rewrite (at_index_undefined lm 9) by assumption.
    repeat split.
  - destruct (at_index_defined lm 9) as [palm Epalm]; [lia|].
    destruct (at_index_defined lm 4) as [thumb Ethumb]; [lia|].
    destruct (at_index_defined lm 8) as [index Eindex]; [lia|].
    destruct (at_index_defined lm 0) as [wrist Ewrist]; [lia|].
    assert (Elm : HandMeasures.lm_at lm 9 = palm)
      by (apply nth_error_nth; exact Epalm).
    unfold measure, HandMeasures.smoothed.
    rewrite Elm, Epalm, Ethumb, Eindex, Ewrist, (at_index_undefined lm 20) by lia.
    destruct w as [[m tp hd [rx ry] g] it rd].
    destruct (at_index lm 12), (at_index lm 16);
      (eexists; split; [reflexivity|]; cbn; repeat split).
Qed.

Lemma hand_of_Some (results : Results) (lm : list Landmark.t) :
  hand_of results = Some lm -> exists others, results = Some (lm :: others).
Proof.
  destruct results as [[|l others]|]; cbn; try discriminate.
  intros [= ->]; now exists others.
Qed.

Lemma handleGestures_short (hg : Results -> M unit) (lm : list Landmark.t)
    (others : list (list Landmark.t)) (w : World) :
  In hg [handleGestures_first; handleGestures; handleGestures_last] ->
  (List.length lm < 21)%nat ->
  exists w',
    hg (Some (lm :: others)) w = (TypeError, w') /\
    mode (STATE w') = mode (STATE w) /\
    gesture (STATE w') = gesture (STATE w) /\
    targetPhoto (STATE w') = targetPhoto (STATE w) /\
    handDetected (STATE w') = true /\
    items w' = items w /\
    handRotation (STATE w')
    = (if (List.length lm <=? 9)%nat then handRotation (STATE w)
       else HandMeasures.smoothed lm (handRotation (STATE w))).
Proof.
  intros Hhg Hlen.
  destruct (measure_short lm (on_STATE (set_handDetected true) w) Hlen)
    as (w' & E & Hm & Hg & Ht & Hd & Hi & Hr).
  exists w'.
  destruct Hhg as [<-|[<-|[<-|[]]]];
    (split; [cbn [hand_of]; unfold handleGestures_first, handleGestures,
               handleGestures_last; cbn [hand_of];
             unfold mbind at 1; unfold setSTATE at 1;
             unfold mbind at 1; now rewrite E
            |repeat split; assumption]).
Qed.

Lemma handleGestures_full_returns (hg : Results -> M unit) (lm : list Landmark.t)
    (others : list (list Landmark.t)) (w : World) :
  In hg [handleGestures_first; handleGestures; handleGestures_last] ->
  (21 <= List.length lm)%nat ->
  fst (hg (Some (lm :: others)) w) = Ok tt.
Proof.
  intros [<-|[<-|[<-|[]]]] Hlen.
  - now destruct (handleGestures_first_step lm others Hlen w) as [H _].
  - now destruct (handleGestures_step lm others Hlen w) as [H _].
  - now destruct (handleGestures_last_step lm others Hlen w) as [H _].
Qed.

Lemma handleGestures_absent_returns (hg : Results -> M unit) (results : Results)
    (w : World) :
  In hg [handleGestures_first; handleGestures; handleGestures_last] ->
  hand_of results = None ->
  fst (hg results w) = Ok tt.
Proof.
  intros [<-|[<-|[<-|[]]]] H.
  - now rewrite handleGestures_first_no_hand.
  - now rewrite handleGestures_no_hand.
  - now rewrite handleGestures_last_no_hand.
Qed.

End ShortHand.

(** X17. Each of the three definitions of [handleGestures] throws exactly
    when the first hand of the result has fewer than 21 landmarks.  When it
    throws, [STATE.handDetected] has been set, and the mode, the gesture,
    the target photo and the items are as before the call. *)
Theorem handleGestures_throws_exactly
    (hg : ScriptJs.Results -> ScriptJs.M unit) (results : ScriptJs.Results)
    (w : ScriptJs.World) :
  In hg [ScriptJs.handleGestures_first; ScriptJs.handleGestures;
         ScriptJs.handleGestures_last] ->
  let out := hg results w in
  (fst out = TypeError <->
   exists lm, ScriptJs.hand_of results = Some lm /\ (List.length lm < 21)%nat) /\
  (fst out = TypeError ->
   ScriptJs.handDetected (ScriptJs.STATE (snd out)) = true /\
   ScriptJs.mode (ScriptJs.STATE (snd out)) = ScriptJs.mode (ScriptJs.STATE w) /\
   ScriptJs.gesture (ScriptJs.STATE (snd out)) = ScriptJs.gesture (ScriptJs.STATE w) /\
   ScriptJs.targetPhoto (ScriptJs.STATE (snd out))
   = ScriptJs.targetPhoto (ScriptJs.STATE w) /\
   ScriptJs.items (snd out) = ScriptJs.items w).
Proof.
  intros Hhg out; subst out.
  destruct (ScriptJs.hand_of results) as [lm|] eqn:E.
  - destruct (hand_of_Some results lm E) as [others ->].
    destruct (Nat.lt_ge_cases (List.length lm) 21) as [Hlen|Hlen].
    + destruct (handleGestures_short hg lm others w Hhg Hlen)
        as (w' & -> & Hm & Hg & Ht & Hd & Hi & _).
      cbn [fst snd]; split; [split; [intros _; now exists lm | reflexivity]|].
      intros _; repeat split; assumption.
    + rewrite (handleGestures_full_returns hg lm others w Hhg Hlen).
      split; [split; [discriminate|]|discriminate].
      intros (lm' & [= <-] & Hlt); lia.
  - rewrite (handleGestures_absent_returns hg results w Hhg E).
    split; [split; [discriminate|]|discriminate].
    intros (lm & [=] & _).
Qed.

Lemma handleGestures_throws_exactly_witness :
  fst (ScriptJs.handleGestures (Some [wrist_only]) empty_world) = TypeError.
Proof.
  assert (Hin : In ScriptJs.handleGestures
                  [ScriptJs.handleGestures_first; ScriptJs.handleGestures;
                   ScriptJs.handleGestures_last]) by (right; now left).
  destruct (handleGestures_throws_exactly ScriptJs.handleGestures (Some [wrist_only])
              empty_world Hin) as [[_ H] _].
  apply H; exists wrist_only; split; [reflexivity | cbn; lia].
Defined.

(** ** The rotation the hand steers *)

Section HandRotation.

Import ScriptJs HandMeasures.

Lemma handRotation_full (hg : Results -> M unit) (lm : list Landmark.t)
    (others : list (list Landmark.t)) (w : World) :
  In hg [handleGestures_first; handleGestures; handleGestures_last] ->
  (21 <= List.length lm)%nat ->
  handRotation (STATE (snd (hg (Some (lm :: others)) w)))
  = smoothed lm (handRotation (STATE w)).
Proof.
  intros [<-|[<-|[<-|[]]]] Hlen;
    [rewrite handleGestures_first_hand by assumption
    |rewrite handleGestures_hand by assumption
    |rewrite handleGestures_last_hand by assumption]; cbv zeta;
    (destruct (pinchDist lm <? 0.05)%num;
     [match goal with |- context [triggerFocus ?w1] =>
        destruct (triggerFocus_frame w1) as (t & _ & _ & _ & _ & _ & -> & _) end;
      reflexivity|]);
    repeat match goal with |- context [if ?c then _ else _] => destruct c end;
    try reflexivity;
    destruct w as [[m tp hd hr g] it rd]; destruct m; reflexivity.
Qed.

Lemma handRotation_of_handleGestures (hg : Results -> M unit) (results : Results)
    (w : World) :
  In hg [handleGestures_first; handleGestures; handleGestures_last] ->
  handRotation (STATE (snd (hg results w)))
  = handRotation_after results (handRotation (STATE w)).
Proof.
  intros Hhg; unfold handRotation_after.
  destruct (hand_of results) as [lm|] eqn:E.
  - destruct (hand_of_Some results lm E) as [others ->].
    destruct (Nat.lt_ge_cases (List.length lm) 21) as [Hlen|Hlen].
    + now destruct (handleGestures_short hg lm others w Hhg Hlen)
        as (w' & -> & _ & _ & _ & _ & _ & Hr).
    + rewrite handRotation_full by assumption.
      destruct (Nat.leb_spec (List.length lm) 9); [lia | reflexivity].
  - destruct Hhg as [<-|[<-|[<-|[]]]];
      [rewrite handleGestures_first_no_hand by assumption
      |rewrite handleGestures_no_hand by assumption
      |rewrite handleGestures_last_no_hand by assumption]; reflexivity.
Qed.

Lemma handRotation_after_nan (results : Results) (r : Num.t * Num.t) :
  (fst r = Num.NaN -> fst (handRotation_after results r) = Num.NaN) /\
  (snd r = Num.NaN -> snd (handRotation_after results r) = Num.NaN).
Proof.
  unfold handRotation_after, smoothed.
  destruct (hand_of results) as [lm|]; [|tauto].
  destruct (List.length lm <=? 9)%nat; [tauto|].
  destruct r as [rx ry]; cbn [fst snd]; split; intros ->; reflexivity.
Qed.

Lemma smoothed_finite (lm : list Landmark.t) (px py rx ry : R) :
  Landmark.x (lm_at lm 9) = Num.Fin px ->
  Landmark.y (lm_at lm 9) = Num.Fin py ->
  smoothed lm (Num.Fin rx, Num.Fin ry)
  = (Num.Fin (rx + ((py - 0.5) * 1.5 - rx) * 0.1),
     Num.Fin (ry + ((px - 0.5) * 2.5 - ry) * 0.1)).
Proof. intros Hx Hy; unfold smoothed; rewrite Hx, Hy; reflexivity. Qed.

End HandRotation.

(** X18. In each of the three definitions of [handleGestures] the rotation
    in [STATE] after the call is the rotation before, smoothed towards the
    palm if the first hand has a landmark 9, whichever branch is taken and
    also when the call throws.  An angle that is NaN stays NaN through every
    later call: neither a hand nor its absence resets it. *)
Theorem handleGestures_rotation_nan_stays :
  Forall (fun hg : ScriptJs.Results -> ScriptJs.M unit =>
            forall (results : ScriptJs.Results) (w : ScriptJs.World),
              let before := ScriptJs.handRotation (ScriptJs.STATE w) in
              let after := ScriptJs.handRotation (ScriptJs.STATE (snd (hg results w))) in
              after = handRotation_after results before /\
              (fst before = Num.NaN -> fst after = Num.NaN) /\
              (snd before = Num.NaN -> snd after = Num.NaN))
         [ScriptJs.handleGestures_first; ScriptJs.handleGestures;
          ScriptJs.handleGestures_last].
Proof.
  apply Forall_forall; intros hg Hhg results w before after; subst before after.
  rewrite (handRotation_of_handleGestures hg results w Hhg).
  split; [reflexivity | apply handRotation_after_nan].
Qed.

Lemma handleGestures_rotation_nan_stays_witness :
  fst (ScriptJs.handRotation
         (ScriptJs.STATE (snd (ScriptJs.handleGestures_last no_hands nan_rotation_world))))
  = Num.NaN.
Proof.
  pose proof handleGestures_rotation_nan_stays as H.
  do 2 apply Forall_inv_tail in H; apply Forall_inv in H.
  exact (proj1 (proj2 (H no_hands nan_rotation_world)) eq_refl).
Defined.

(** X19. A hand of at least 10 landmarks whose palm (landmark 9) has its x
    and y between 0 and 1 pulls a rotation that is within reach (pitch
    within 0.75, yaw within 1.25) a tenth of the way to the angles of the
    palm, [(y - 0.5) * 1.5] and [(x - 0.5) * 2.5], and leaves it within
    reach; this holds for the three definitions of [handleGestures]. *)
Theorem handleGestures_rotation_in_reach
    (hg : ScriptJs.Results -> ScriptJs.M unit)
    (lm : list Landmark.t) (others : list (list Landmark.t)) (w : ScriptJs.World)
    (px py : R) :
  In hg [ScriptJs.handleGestures_first; ScriptJs.handleGestures;
         ScriptJs.handleGestures_last] ->
  (10 <= List.length lm)%nat ->
  Landmark.x (HandMeasures.lm_at lm 9) = Num.Fin px -> 0 <= px <= 1 ->
  Landmark.y (HandMeasures.lm_at lm 9) = Num.Fin py -> 0 <= py <= 1 ->
  in_reach (ScriptJs.handRotation (ScriptJs.STATE w)) ->
  let after := ScriptJs.handRotation (ScriptJs.STATE (snd (hg (Some (lm :: others)) w))) in
  in_reach after /\
  exists rx ry rx' ry',
    ScriptJs.handRotation (ScriptJs.STATE w) = (Num.Fin rx, Num.Fin ry) /\
    after = (Num.Fin rx', Num.Fin ry') /\
    rx' - (py - 0.5) * 1.5 = 0.9 * (rx - (py - 0.5) * 1.5) /\
    ry' - (px - 0.5) * 2.5 = 0.9 * (ry - (px - 0.5) * 2.5).
Proof.
  intros Hhg Hlen Hx Hpx Hy Hpy (rx & ry & Hr & Hrx & Hry) after; subst after.
  rewrite (handRotation_of_handleGestures hg _ w Hhg), Hr.
  unfold handRotation_after; cbn [ScriptJs.hand_of].
  destruct (Nat.leb_spec (List.length lm) 9); [lia|].
  rewrite (smoothed_finite lm px py rx ry Hx Hy).
  split.
  - do 2 eexists; split; [reflexivity|]; split; lra.
  - exists rx, ry; do 2 eexists; split; [reflexivity|]; split; [reflexivity|].
    split; lra.
Qed.

Lemma handleGestures_rotation_in_reach_witness :
  in_reach (ScriptJs.handRotation
              (ScriptJs.STATE (snd (ScriptJs.handleGestures (frame_of centred_hand)
                                      empty_world)))).
Proof.
  assert (Hin : In ScriptJs.handleGestures
                  [ScriptJs.handleGestures_first; ScriptJs.handleGestures;
                   ScriptJs.handleGestures_last]) by (right; now left).
  assert (Hlen : (10 <= List.length (map GestureSpec.landmark centred_hand))%nat)
    by (cbn; lia).
  assert (H01 : 0 <= 0.5 <= 1) by lra.
  assert (Hr : in_reach (ScriptJs.handRotation (ScriptJs.STATE empty_world)))
    by (exists 0, 0; split; [reflexivity | lra]).
  exact (proj1 (handleGestures_rotation_in_reach ScriptJs.handleGestures
                  (map GestureSpec.landmark centred_hand) [] empty_world 0.5 0.5
                  Hin Hlen eq_refl H01 eq_refl H01 Hr)).
Defined.

(** ** The mode and the frames before *)

Section Memory.

Import ScriptJs HandMeasures.

Lemma returns_cases (hg : Results -> M unit) (results : Results) (w : World) :
  In hg [handleGestures_first; handleGestures; handleGestures_last] ->
  fst (hg results w) = Ok tt ->
  hand_of results = None
  \/ exists lm others, results = Some (lm :: others) /\ (21 <= List.length lm)%nat.
Proof.
  intros Hhg Hok.
  destruct (hand_of results) as [lm|] eqn:E; [right | now left].
  destruct (hand_of_Some results lm E) as [others ->].
  exists lm, others; split; [reflexivity|].
  destruct (Nat.lt_ge_cases (List.length lm) 21) as [Hlen|Hlen]; [|assumption].
  destruct (handleGestures_short hg lm others w Hhg Hlen) as (w' & Ew & _).
  rewrite Ew in Hok; discriminate.
Qed.

Lemma next_forgets (g : option Gesture) (m1 m2 : Mode) :
  ModeSpec.next g m1 = ModeSpec.next g m2.
Proof. destruct g as [[| | |]|], m1, m2; reflexivity. Qed.

End Memory.

(** X20. In the current definition of [handleGestures] (lines 408-469) the
    mode after a call that returns depends on the detection result alone,
    not on the world before: the test on the mode in its NONE branch
    changes nothing.  The gesture label is not reset by a frame without a
    hand; it stays what the last hand left.  In the first definition and in the last it does
    depend on the mode before: an ambiguous hand leaves FOCUS in FOCUS and
    TREE in TREE in the first, SCATTER in SCATTER and TREE in TREE in the
    last. *)
Theorem handleGestures_mode_forgets
    (results : ScriptJs.Results) (w1 w2 : ScriptJs.World) :
  fst (ScriptJs.handleGestures results w1) = Ok tt ->
  fst (ScriptJs.handleGestures results w2) = Ok tt /\
  ScriptJs.mode (ScriptJs.STATE (snd (ScriptJs.handleGestures results w1)))
  = ScriptJs.mode (ScriptJs.STATE (snd (ScriptJs.handleGestures results w2))) /\
  (ScriptJs.hand_of results = None ->
   ScriptJs.gesture (ScriptJs.STATE (snd (ScriptJs.handleGestures results w1)))
   = ScriptJs.gesture (ScriptJs.STATE w1)) /\
  (let after hg w := ScriptJs.mode (ScriptJs.STATE (snd (hg (frame_of ambiguous_hand) w))) in
   after ScriptJs.handleGestures_first focused_world = ScriptJs.FOCUS /\
   after ScriptJs.handleGestures_first empty_world = ScriptJs.TREE /\
   after ScriptJs.handleGestures_last scattered_world = ScriptJs.SCATTER /\
   after ScriptJs.handleGestures_last empty_world = ScriptJs.TREE).
Proof.
  intros Hok.
  assert (Hin : In ScriptJs.handleGestures
                  [ScriptJs.handleGestures_first; ScriptJs.handleGestures;
                   ScriptJs.handleGestures_last]) by (right; now left).
  split; [|split; [|split]].
  - destruct (returns_cases _ results w1 Hin Hok) as [E|(lm & others & -> & Hlen)].
    + now rewrite handleGestures_no_hand.
    + now destruct (handleGestures_step lm others Hlen w2) as [H _].
  - destruct (returns_cases _ results w1 Hin Hok) as [E|(lm & others & -> & Hlen)].
    + now rewrite !handleGestures_no_hand.
    + destruct (handleGestures_step lm others Hlen w1) as (_ & _ & -> & _).
      destruct (handleGestures_step lm others Hlen w2) as (_ & _ & -> & _).
      apply next_forgets.
  - intros E; now rewrite handleGestures_no_hand.
  - cbv zeta; unfold frame_of.
    assert (Hfull : (21 <= List.length (map GestureSpec.landmark ambiguous_hand))%nat)
      by (apply frame_of_full; reflexivity).
    destruct ambiguous_hand_labels as [L1 L2].
    repeat split.
    + destruct (handleGestures_first_step _ [] Hfull focused_world) as (_ & _ & ->).
      now rewrite L1.
    + destruct (handleGestures_first_step _ [] Hfull empty_world) as (_ & _ & ->).
      now rewrite L1.
    + destruct (handleGestures_last_step _ [] Hfull scattered_world) as (_ & _ & ->).
      now rewrite L2.
    + destruct (handleGestures_last_step _ [] Hfull empty_world) as (_ & _ & ->).
      now rewrite L2.
Qed.

Lemma handleGestures_mode_forgets_witness :
  ScriptJs.mode (ScriptJs.STATE (snd (ScriptJs.handleGestures no_hands scattered_world)))
  = ScriptJs.mode (ScriptJs.STATE (snd (ScriptJs.handleGestures no_hands focused_world))).
Proof.
  exact (proj1 (proj2 (handleGestures_mode_forgets no_hands scattered_world focused_world
                         eq_refl))).
Defined.

(** ** Photos added later, and the photo a pinch selects *)

Section Selection.

Import ScriptJs ScriptJsScene.

Lemma nth_error_appended (l : list Mesh) (m : Mesh) (k : nat) (mesh : Mesh) :
  nth_error l k = Some mesh -> nth_error (l ++ [m]) k = Some mesh.
Proof.
  intros H; rewrite nth_error_app1; [assumption|].
  apply nth_error_Some; congruence.
Qed.

Lemma photos_of_appended (l : list Mesh) (m : Mesh) :
  type (userData m) = PHOTO -> photos_of (l ++ [m]) = photos_of l ++ [List.length l].
Proof.
  intros H; unfold photos_of; rewrite photos_from_app; cbn.
  unfold is_photo; now rewrite H.
Qed.

Lemma floor_is (u : R) (n j : nat) :
  INR j <= u * INR n < INR j + 1 -> Z.to_nat (Zfloor (u * INR n)) = j.
Proof.
  intros H; rewrite (Zfloor_eq (Z.of_nat j)); [apply Nat2Z.id|].
  now rewrite <- INR_IZR_INZ.
Qed.

End Selection.

(** X21. For draws in [0, 1), [addPhoto(texture)] returns and appends one
    PHOTO mesh that carries the texture, at its tree position on the
    surface of the cone, with scale 1 and its scatter position in the
    shell.  [STATE] and every mesh that was there keep their place, so a
    selected photo stays selected; the new photo is the last of the
    photos. *)
Theorem addPhoto_appends_on_cone
    (texture : ScriptJs.Texture) (w : ScriptJs.World) :
  ScriptJs.unit_draws (ScriptJs.rand w) ->
  let out := ScriptJs.addPhoto texture w in
  exists photo,
    fst out = Ok tt /\
    ScriptJs.items (snd out) = ScriptJs.items w ++ [photo] /\
    ScriptJs.STATE (snd out) = ScriptJs.STATE w /\
    ScriptJs.type (ScriptJs.userData photo) = ScriptJs.PHOTO /\
    ScriptJs.material photo = ScriptJs.framed texture /\
    ScriptJsScene.fresh photo /\
    ScriptJsScene.on_cone (ScriptJs.treePos (ScriptJs.userData photo)) /\
    ScriptJs.photos_of (ScriptJs.items (snd out))
    = ScriptJs.photos_of (ScriptJs.items w) ++ [List.length (ScriptJs.items w)] /\
    (forall k mesh,
        nth_error (ScriptJs.items w) k = Some mesh ->
        nth_error (ScriptJs.items (snd out)) k = Some mesh).
Proof.
  intros Hw out; subst out.
  destruct (addPhoto_fresh texture w Hw) as (m & w' & -> & I & F & C & T & Mt & S & _).
  exists m; cbn [fst snd]; rewrite I.
  repeat (split; [assumption || reflexivity|]).
  split; [now apply photos_of_appended|].
  intros k mesh; apply nth_error_appended.
Qed.

Lemma addPhoto_appends_on_cone_witness :
  exists photo,
    ScriptJs.items (snd (ScriptJs.addPhoto (ScriptJs.loaded 1) gallery_world))
    = ScriptJs.items gallery_world ++ [photo] /\
    ScriptJsScene.on_cone (ScriptJs.treePos (ScriptJs.userData photo)).
Proof.
  assert (H : ScriptJs.unit_draws (ScriptJs.rand gallery_world))
    by (intros n; cbn; lra).
  destruct (addPhoto_appends_on_cone (ScriptJs.loaded 1) gallery_world H)
    as (photo & _ & I & _ & _ & _ & _ & C & _).
  exists photo; split; assumption.
Defined.

(** X22. [triggerFocus] can select every photo: when the draw times the
    number of photos lies in [j, j + 1), the target is the [j]-th PHOTO
    item in the order of the items. *)
Theorem triggerFocus_selects_by_draw
    (w : ScriptJs.World) (j k : nat) :
  nth_error (ScriptJs.photos_of (ScriptJs.items w)) j = Some k ->
  INR j <= ScriptJs.rand w 0%nat * INR (List.length (ScriptJs.photos_of (ScriptJs.items w)))
        < INR j + 1 ->
  ScriptJs.triggerFocus w
  = (Ok tt, ScriptJs.on_STATE (ScriptJs.set_targetPhoto (Some k)) (ScriptJs.drawn 1 w)).
Proof.
  intros Hj Hu.
  assert (Hlen : (j < List.length (ScriptJs.photos_of (ScriptJs.items w)))%nat)
    by (apply nth_error_Some; congruence).
  unfold ScriptJs.triggerFocus, ScriptJs.mbind, ScriptJs.getItems.
  destruct (Nat.ltb_spec 0 (List.length (ScriptJs.photos_of (ScriptJs.items w)))); [|lia].
  unfold ScriptJs.random, ScriptJs.setSTATE; cbn [ScriptJs.items ScriptJs.drawn].
  now rewrite (floor_is _ _ j Hu), Hj.
Qed.

Lemma triggerFocus_selects_by_draw_witness :
  ScriptJs.targetPhoto (ScriptJs.STATE (snd (ScriptJs.triggerFocus gallery_world))) = Some 1%nat.
Proof.
  assert (Hu : INR 0 <= ScriptJs.rand gallery_world 0%nat
                        * INR (List.length (ScriptJs.photos_of (ScriptJs.items gallery_world)))
               < INR 0 + 1) by (cbn; lra).
  now rewrite (triggerFocus_selects_by_draw gallery_world 0 1 eq_refl Hu).
Defined.

(** * Properties of the photo wall (script.js, lines 694-1226) *)

(** ** The cursor *)

Section Cursor.

Import PhotoWall.

Lemma updateCursor_frame (ndcX ndcY : Num.t) (b : bool) (p : Page) :
  handState (updateCursor ndcX ndcY b p) = handState p /\
  photos (updateCursor ndcX ndcY b p) = photos p /\
  grabbedPhoto (updateCursor ndcX ndcY b p) = grabbedPhoto p /\
  snow (updateCursor ndcX ndcY b p) = snow p /\
  particlesRotationY (updateCursor ndcX ndcY b p) = particlesRotationY p.
Proof. repeat split. Qed.

Lemma updateHandStateFromInput_value (clientX clientY : R) (p : Page) :
  0 < innerWidth p -> 0 < innerHeight p ->
  let nx := clientX / innerWidth p * 2 - 1 in
  let ny := - (clientY / innerHeight p) * 2 + 1 in
  handState (updateHandStateFromInput clientX clientY p)
  = {| x := Num.Fin nx; y := Num.Fin ny; pinching := pinching (handState p);
       visible := visible (handState p); vector := (Num.Fin nx, Num.Fin ny) |} /\
  cursor (updateHandStateFromInput clientX clientY p)
  = {| left := Some (Num.Fin clientX); top := Some (Num.Fin clientY); display := true;
       pinched := pinching (handState p); borderColor := borderColor (cursor p) |}.
Proof.
  intros Hw Hh; cbv zeta; split; [reflexivity|].
  unfold updateHandStateFromInput, updateCursor; cbn.
  f_equal; do 2 f_equal; field; lra.
Qed.

End Cursor.

(** X23. In a window of positive width and height,
    [updateHandStateFromInput(clientX, clientY)] puts the cursor at
    [clientX] and [clientY] pixels, displayed: the map to normalised device
    coordinates and the map back in [updateCursor] cancel.  The normalised
    coordinates are within [-1, 1] exactly for a pointer inside the window,
    the vector used for ray casting holds them, and neither the photos nor
    the grabbed photo change. *)
Theorem updateHandStateFromInput_round_trip
    (clientX clientY : R) (p : PhotoWall.Page) :
  0 < PhotoWall.innerWidth p -> 0 < PhotoWall.innerHeight p ->
  let p' := PhotoWall.updateHandStateFromInput clientX clientY p in
  PhotoWall.left (PhotoWall.cursor p') = Some (Num.Fin clientX) /\
  PhotoWall.top (PhotoWall.cursor p') = Some (Num.Fin clientY) /\
  PhotoWall.display (PhotoWall.cursor p') = true /\
  PhotoWall.vector_in_step p' /\
  PhotoWall.photos p' = PhotoWall.photos p /\
  PhotoWall.grabbedPhoto p' = PhotoWall.grabbedPhoto p /\
  exists nx ny,
    PhotoWall.x (PhotoWall.handState p') = Num.Fin nx /\
    PhotoWall.y (PhotoWall.handState p') = Num.Fin ny /\
    (-1 <= nx <= 1 <-> 0 <= clientX <= PhotoWall.innerWidth p) /\
    (-1 <= ny <= 1 <-> 0 <= clientY <= PhotoWall.innerHeight p).
Proof.
  intros Hw Hh p'; subst p'.
  destruct (updateHandStateFromInput_value clientX clientY p Hw Hh) as [Hs Hc].
  unfold PhotoWall.vector_in_step; rewrite Hs, Hc; cbn.
  repeat (split; [reflexivity|]).
  do 2 eexists; split; [reflexivity|]; split; [reflexivity|].
  assert (Hiw : 0 < / PhotoWall.innerWidth p) by now apply Rinv_0_lt_compat.
  assert (Hih : 0 < / PhotoWall.innerHeight p) by now apply Rinv_0_lt_compat.
  assert (H1w : PhotoWall.innerWidth p * / PhotoWall.innerWidth p = 1)
    by (apply Rinv_r; lra).
  assert (H1h : PhotoWall.innerHeight p * / PhotoWall.innerHeight p = 1)
    by (apply Rinv_r; lra).
  unfold Rdiv; split; split; intros H; split; nra.
Qed.

Lemma updateHandStateFromInput_round_trip_witness :
  PhotoWall.left (PhotoWall.cursor (PhotoWall.updateHandStateFromInput 200 300 wall0))
  = Some (Num.Fin 200).
Proof.
  assert (Hw : 0 < PhotoWall.innerWidth wall0) by (cbn; lra).
  assert (Hh : 0 < PhotoWall.innerHeight wall0) by (cbn; lra).
  exact (proj1 (updateHandStateFromInput_round_trip 200 300 wall0 Hw Hh)).
Defined.

(** ** The hand *)

Section OnResults.

Import PhotoWall.

Lemma Rltb_iff (a b : R) : Rltb a b = true <-> a < b.
Proof. unfold Rltb; destruct (Rlt_dec a b); split; intros; congruence. Qed.

Lemma onResults_hand (lm : list Landmark.t) (others : list (list Landmark.t))
    (p : Page) (indexTip thumbTip : Landmark.t) :
  at_index lm 8 = Some indexTip -> at_index lm 4 = Some thumbTip ->
  onResults (Some (lm :: others)) p
  = let x' := neg (Landmark.x indexTip * 2 - 1)%num in
    let y' := (neg (Landmark.y indexTip * 2) + 1)%num in
    let pinching' :=
      (Num.hypot (Landmark.x indexTip - Landmark.x thumbTip)
                 (Landmark.y indexTip - Landmark.y thumbTip) <? 0.05)%num in
    Ok (updateCursor x' y' pinching'
          (set_handState {| x := x'; y := y'; pinching := pinching'; visible := true;
                            vector := (x', y') |} p)).
Proof.
  intros Hi Ht; unfold onResults; cbn [ScriptJs.hand_of].
  rewrite Hi, Ht; reflexivity.
Qed.

Lemma onResults_short (lm : list Landmark.t) (others : list (list Landmark.t))
    (p : Page) :
  (List.length lm <= 8)%nat -> onResults (Some (lm :: others)) p = TypeError.
Proof.
  intros H; unfold onResults; cbn [ScriptJs.hand_of].
  now rewrite (at_index_undefined lm 8).
Qed.

Lemma onResults_no_hand (results : ScriptJs.Results) (p : Page) :
  ScriptJs.hand_of results = None ->
  onResults results p
  = Ok (hideCursor
          (set_handState {| x := x (handState p); y := y (handState p);
                            pinching := pinching (handState p); visible := false;
                            vector := vector (handState p) |} p)).
Proof. intros H; unfold onResults; now rewrite H. Qed.

End OnResults.

(** X24. [onResults] throws exactly when the first hand has fewer than 9
    landmarks, in which case nothing has been written.  Without a hand it
    returns, hides the cursor and clears [handState.visible], and leaves
    the coordinates, the pinch flag and the place of the cursor as the last
    hand or pointer event left them. *)
Theorem onResults_throws_exactly
    (results : ScriptJs.Results) (p : PhotoWall.Page) :
  (PhotoWall.onResults results p = TypeError <->
   exists lm, ScriptJs.hand_of results = Some lm /\ (List.length lm <= 8)%nat) /\
  (ScriptJs.hand_of results = None ->
   exists p',
     PhotoWall.onResults results p = Ok p' /\
     PhotoWall.visible (PhotoWall.handState p') = false /\
     PhotoWall.display (PhotoWall.cursor p') = false /\
     PhotoWall.x (PhotoWall.handState p') = PhotoWall.x (PhotoWall.handState p) /\
     PhotoWall.y (PhotoWall.handState p') = PhotoWall.y (PhotoWall.handState p) /\
     PhotoWall.vector (PhotoWall.handState p') = PhotoWall.vector (PhotoWall.handState p) /\
     PhotoWall.pinching (PhotoWall.handState p')
     = PhotoWall.pinching (PhotoWall.handState p) /\
     PhotoWall.left (PhotoWall.cursor p') = PhotoWall.left (PhotoWall.cursor p) /\
     PhotoWall.top (PhotoWall.cursor p') = PhotoWall.top (PhotoWall.cursor p) /\
     PhotoWall.photos p' = PhotoWall.photos p /\
     PhotoWall.grabbedPhoto p' = PhotoWall.grabbedPhoto p).
Proof.
  split.
  - destruct (ScriptJs.hand_of results) as [lm|] eqn:E.
    + destruct (hand_of_Some results lm E) as [others ->].
      destruct (Nat.le_gt_cases (List.length lm) 8) as [Hlen|Hlen].
      * rewrite onResults_short by assumption.
        split; [intros _; now exists lm | reflexivity].
      * destruct (at_index_defined lm 8) as [tip Etip]; [lia|].
        destruct (at_index_defined lm 4) as [thumb Ethumb]; [lia|].
        rewrite (onResults_hand lm others p tip thumb Etip Ethumb); cbv zeta.
        split; [discriminate|].
        intros (lm' & [= <-] & Hle); lia.
    + rewrite onResults_no_hand by assumption.
      split; [discriminate|]; intros (lm & [=] & _).
  - intros E; rewrite onResults_no_hand by assumption.
    eexists; split; [reflexivity|]; repeat split.
Qed.

Lemma onResults_throws_exactly_witness :
  PhotoWall.onResults (Some [wrist_only]) wall0 = TypeError.
Proof.
  apply (proj1 (onResults_throws_exactly (Some [wrist_only]) wall0)).
  exists wrist_only; split; [reflexivity | cbn; lia].
Defined.

(** X25. For a first hand whose index tip (landmark 8) and thumb tip
    (landmark 4) have numbers for x and y, the index tip within the image,
    [onResults] returns with the hand visible and the normalised
    coordinates [1 - 2x] and [1 - 2y], both within [-1, 1]; the cursor is
    displayed at the mirrored place, [(1 - x)] of the width from the left
    and [y] of the height from the top; and the pinch flag is set exactly
    when the two tips are less than 0.05 apart in the image plane. *)
Theorem onResults_tracks_index_tip
    (lm : list Landmark.t) (others : list (list Landmark.t)) (p : PhotoWall.Page)
    (indexTip thumbTip : Landmark.t) (ix iy tx ty : R) :
  at_index lm 8 = Some indexTip -> at_index lm 4 = Some thumbTip ->
  Landmark.x indexTip = Num.Fin ix -> Landmark.y indexTip = Num.Fin iy ->
  Landmark.x thumbTip = Num.Fin tx -> Landmark.y thumbTip = Num.Fin ty ->
  0 <= ix <= 1 -> 0 <= iy <= 1 ->
  exists p',
    PhotoWall.onResults (Some (lm :: others)) p = Ok p' /\
    PhotoWall.visible (PhotoWall.handState p') = true /\
    PhotoWall.x (PhotoWall.handState p') = Num.Fin (1 - 2 * ix) /\
    PhotoWall.y (PhotoWall.handState p') = Num.Fin (1 - 2 * iy) /\
    -1 <= 1 - 2 * ix <= 1 /\ -1 <= 1 - 2 * iy <= 1 /\
    PhotoWall.vector_in_step p' /\
    PhotoWall.display (PhotoWall.cursor p') = true /\
    PhotoWall.left (PhotoWall.cursor p')
    = Some (Num.Fin ((1 - ix) * PhotoWall.innerWidth p)) /\
    PhotoWall.top (PhotoWall.cursor p') = Some (Num.Fin (iy * PhotoWall.innerHeight p)) /\
    (PhotoWall.pinching (PhotoWall.handState p') = true <->
     sqrt ((ix - tx) ^ 2 + (iy - ty) ^ 2) < 0.05) /\
    PhotoWall.pinched (PhotoWall.cursor p') = PhotoWall.pinching (PhotoWall.handState p') /\
    PhotoWall.photos p' = PhotoWall.photos p /\
    PhotoWall.grabbedPhoto p' = PhotoWall.grabbedPhoto p.
Proof.
  intros Hi Ht Hix Hiy Htx Hty Hx Hy.
  rewrite (onResults_hand lm others p indexTip thumbTip Hi Ht); cbv zeta.
  rewrite Hix, Hiy, Htx, Hty.
  eexists; split; [reflexivity|].
  unfold PhotoWall.vector_in_step; cbn -[pow].
  split; [reflexivity|].
  split; [f_equal; ring|]; split; [f_equal; ring|].
  split; [lra|]; split; [lra|]; split; [reflexivity|]; split; [reflexivity|].
  split; [do 2 f_equal; field|]; split; [do 2 f_equal; field|].
  split; [apply Rltb_iff | repeat split].
Qed.

Lemma onResults_tracks_index_tip_witness :
  exists p',
    PhotoWall.onResults (frame_of quarter_hand) wall0 = Ok p' /\
    PhotoWall.x (PhotoWall.handState p') = Num.Fin (1 - 2 * 0.25).
Proof.
  assert (Hx : 0 <= 0.25 <= 1) by lra.
  assert (Hy : 0 <= 0.5 <= 1) by lra.
  destruct (onResults_tracks_index_tip (map GestureSpec.landmark quarter_hand) [] wall0
              (GestureSpec.landmark (Vector3.mk 0.25 0.5 0))
              (GestureSpec.landmark (Vector3.mk 0.25 0.5 0))
              0.25 0.5 0.25 0.5 eq_refl eq_refl eq_refl eq_refl eq_refl eq_refl Hx Hy)
    as (p' & E & _ & Ex & _).
  exists p'; split; assumption.
Defined.

(** ** Without a hand *)

Section Handless.

Import PhotoWall.

Lemma updateInteractions_invisible (hit : option nat) (v : Vector3.t) (p : Page) :
  visible (handState p) = false -> updateInteractions hit v p = p.
Proof. intros H; unfold updateInteractions; now rewrite H. Qed.

Lemma listener_frame (e : Event) (p : Page) :
  visible (handState (listener e p)) = visible (handState p) /\
  grabbedPhoto (listener e p) = grabbedPhoto p /\
  photos (listener e p) = photos p /\
  particlesRotationY (listener e p) = particlesRotationY p /\
  snow (listener e p) = snow p.
Proof.
  unfold listener; destruct (visible (handState p)) eqn:E;
    [repeat split; assumption|].
  destruct e as [cx cy| | |[|[cx cy] ts]| |]; cbn; rewrite ?E; repeat split.
Qed.

Lemma animate_invisible (time : R) (hit : option nat) (v : Vector3.t) (p : Page) :
  visible (handState p) = false ->
  visible (handState (animate time hit v p)) = false /\
  grabbedPhoto (animate time hit v p) = grabbedPhoto p /\
  (grabbedPhoto p <> None ->
   photos (animate time hit v p) = photos p /\
   particlesRotationY (animate time hit v p) = particlesRotationY p).
Proof.
  intros H; unfold animate.
  rewrite updateInteractions_invisible by (destruct (grabbedPhoto p); exact H).
  destruct (grabbedPhoto p) as [g|] eqn:Eg; cbn; rewrite ?Eg.
  - split; [assumption|]; split; [reflexivity|]; intros _; split; reflexivity.
  - split; [assumption|]; split; [reflexivity|]; intros Hg; now exfalso.
Qed.

Lemma handle_handless (i : Input) (p : Page) :
  visible (handState p) = false -> handless i ->
  exists p',
    handle i p = Ok p' /\
    visible (handState p') = false /\
    grabbedPhoto p' = grabbedPhoto p /\
    (grabbedPhoto p <> None ->
     photos p' = photos p /\ particlesRotationY p' = particlesRotationY p).
Proof.
  intros Hv Hi; destruct i as [r|e|time hit v]; cbn [handle handless] in *.
  - rewrite onResults_no_hand by assumption.
    eexists; split; [reflexivity|]; repeat split.
  - destruct (listener_frame e p) as (E1 & E2 & E3 & E4 & _).
    eexists; split; [reflexivity|]; rewrite E1, E2, E3, E4; repeat split; assumption.
  - destruct (animate_invisible time hit v p Hv) as (E1 & E2 & E3).
    eexists; split; [reflexivity|]; repeat split; try assumption; now apply E3.
Qed.

End Handless.

(** X26. While no hand is in view nothing is grabbed and nothing is let
    go: over any sequence of pointer events, display frames and detection
    results without a hand, from a page whose hand is not visible, every
    call returns, the hand stays invisible and [grabbedPhoto] stays what it
    was, since [updateInteractions] returns at once.  The mouse and touch
    listeners move the cursor and set the pinch flag but cannot pick a
    photo; and a photo that was grabbed when the hand left stays grabbed,
    with the photos and the rotation of the tree frozen. *)
Theorem pointer_never_grabs (inputs : list PhotoWall.Input) (p : PhotoWall.Page) :
  PhotoWall.visible (PhotoWall.handState p) = false ->
  Forall PhotoWall.handless inputs ->
  exists p',
    PhotoWall.run inputs p = Ok p' /\
    PhotoWall.visible (PhotoWall.handState p') = false /\
    PhotoWall.grabbedPhoto p' = PhotoWall.grabbedPhoto p /\
    (PhotoWall.grabbedPhoto p <> None ->
     PhotoWall.photos p' = PhotoWall.photos p /\
     PhotoWall.particlesRotationY p' = PhotoWall.particlesRotationY p).
Proof.
  intros Hv Hin; revert p Hv.
  induction Hin as [|i inputs Hi _ IH]; intros p Hv; cbn [PhotoWall.run].
  - exists p; repeat split; assumption.
  - destruct (handle_handless i p Hv Hi) as (p1 & -> & Hv1 & Hg1 & Hf1).
    destruct (IH p1 Hv1) as (p' & E & Hv' & Hg' & Hf').
    exists p'; cbn [bind]; split; [assumption|]; split; [assumption|].
    split; [congruence|].
    intros Hg; destruct (Hf1 Hg) as [A1 B1].
    destruct Hf' as [A2 B2]; [congruence|]; split; congruence.
Qed.

Lemma pointer_never_grabs_witness :
  exists p',
    PhotoWall.run [PhotoWall.pointer (PhotoWall.mousemove 200 300);
                   PhotoWall.pointer PhotoWall.mousedown;
                   PhotoWall.frame 1 (Some 0%nat) (Vector3.mk 0 0 0)] wall0 = Ok p' /\
    PhotoWall.grabbedPhoto p' = None.
Proof.
  assert (Hv : PhotoWall.visible (PhotoWall.handState wall0) = false) by reflexivity.
  assert (Hin : Forall PhotoWall.handless
                  [PhotoWall.pointer (PhotoWall.mousemove 200 300);
                   PhotoWall.pointer PhotoWall.mousedown;
                   PhotoWall.frame 1 (Some 0%nat) (Vector3.mk 0 0 0)])
    by (repeat constructor).
  destruct (pointer_never_grabs _ wall0 Hv Hin) as (p' & E & _ & Hg & _).
  exists p'; split; assumption.
Defined.

(** ** Grabbing a photo *)

Section Grab.

Import PhotoWall.

Lemma on_nth_same {A : Type} (f : A -> A) (l : list A) :
  forall n a, nth_error l n = Some a -> nth_error (on_nth f n l) n = Some (f a).
Proof.
  induction l as [|b l IH]; intros [|n] a H; cbn in *; try discriminate.
  - now injection H as ->.
  - now apply IH.
Qed.

Lemma on_nth_other {A : Type} (f : A -> A) (l : list A) :
  forall n k, k <> n -> nth_error (on_nth f n l) k = nth_error l k.
Proof.
  induction l as [|b l IH]; intros [|n] [|k] H; cbn; try reflexivity.
  - now exfalso.
  - apply IH; congruence.
Qed.

Lemma length_multiplyScalar (v : Vector3.t) (k : R) :
  Vector3.length (Vector3.multiplyScalar v k) = Rabs k * Vector3.length v.
Proof.
  destruct v as [a b c]; unfold Vector3.length, Vector3.multiplyScalar; cbn.
  replace (a * k * (a * k) + b * k * (b * k) + c * k * (c * k))
    with (Rsqr k * (a * a + b * b + c * c)) by (unfold Rsqr; ring).
  rewrite sqrt_mult; [now rewrite sqrt_Rsqr_abs | apply Rle_0_sqr |].
  pose proof (Rle_0_sqr a); pose proof (Rle_0_sqr b); pose proof (Rle_0_sqr c).
  unfold Rsqr in *; lra.
Qed.

Lemma length_sub_pos (a b : Vector3.t) : a <> b -> 0 < Vector3.length (sub a b).
Proof.
  intros Hne.
  replace (Vector3.length (sub a b)) with (ScriptJsScene.distance a b)
    by (destruct a, b; reflexivity).
  now apply distance_pos.
Qed.

Lemma length_normalize (v : Vector3.t) :
  0 < Vector3.length v -> Vector3.length (normalize v) = 1.
Proof.
  intros H; unfold normalize; cbv zeta.
  destruct (Req_dec_T (Vector3.length v) 0) as [E|_]; [lra|].
  rewrite length_multiplyScalar, Rabs_pos_eq.
  - field; lra.
  - apply Rlt_le; unfold Rdiv; rewrite Rmult_1_l; now apply Rinv_0_lt_compat.
Qed.

Lemma distance_add (c v : Vector3.t) :
  ScriptJsScene.distance (add c v) c = Vector3.length v.
Proof.
  destruct c as [a b d], v as [x y z].
  unfold ScriptJsScene.distance, add, Vector3.length; cbn; f_equal; ring.
Qed.

Lemma held_distance (unprojected : Vector3.t) :
  unprojected <> cameraPosition ->
  ScriptJsScene.distance
    (add cameraPosition
         (Vector3.multiplyScalar (normalize (sub unprojected cameraPosition)) 15))
    cameraPosition = 15.
Proof.
  intros Hne.
  rewrite distance_add, length_multiplyScalar, length_normalize
    by now apply length_sub_pos.
  rewrite Rabs_pos_eq; lra.
Qed.

Lemma updateInteractions_visible (hit : option nat) (v : Vector3.t) (p : Page) :
  visible (handState p) = true ->
  updateInteractions hit v p
  = let held :=
      if pinching (handState p)
      then match grabbedPhoto p with Some g => Some g | None => hit end
      else None in
    let c := cursor p in
    let p1 :=
      set_grabbedPhoto held
        (set_cursor {| left := left c; top := top c; display := display c;
                       pinched := pinched c;
                       borderColor := match hit with Some _ => cyan | None => gold end |}
                    p) in
    match held with
    | Some g =>
        set_photos
          (on_nth (fun ph =>
                     set_scale (Vector3.mk 1.5 1.5 1.5)
                       (set_position
                          (add cameraPosition
                               (Vector3.multiplyScalar
                                  (normalize (sub v cameraPosition)) 15)) ph))
                  g (photos p)) p1
    | None =>
        set_photos (map (fun ph => if Rgtb (Vector3.x (scale ph)) 1
                                   then set_scale (Vector3.mk 1 1 1) ph else ph)
                        (photos p)) p1
    end.
Proof.
  intros Hv; unfold updateInteractions; rewrite Hv; cbn [negb].
  destruct p as [[hx hy hp hv hvec] c w h ph g r sr sn]; cbn in *.
  destruct hp, g as [g|], hit as [hit|]; reflexivity.
Qed.

End Grab.

(** X27. With a hand in view, [updateInteractions] while pinching holds a
    photo: the one already grabbed, else the first one under the cursor.
    The held photo is enlarged to 1.5 and put exactly 15 away from the
    camera, whatever the direction of the cursor (the unprojected point is
    not the camera itself); no other photo changes.  Without the pinch the
    photo is let go, no scale above 1 is left, and every photo stays where
    it was. *)
Theorem updateInteractions_holds_at_15
    (hit : option nat) (unprojected : Vector3.t) (p : PhotoWall.Page) :
  PhotoWall.visible (PhotoWall.handState p) = true ->
  let p' := PhotoWall.updateInteractions hit unprojected p in
  (forall h ph,
      PhotoWall.pinching (PhotoWall.handState p) = true ->
      match PhotoWall.grabbedPhoto p with Some g => Some g | None => hit end = Some h ->
      nth_error (PhotoWall.photos p) h = Some ph ->
      unprojected <> PhotoWall.cameraPosition ->
      PhotoWall.grabbedPhoto p' = Some h /\
      (exists ph',
          nth_error (PhotoWall.photos p') h = Some ph' /\
          ScriptJsScene.distance (PhotoWall.position ph') PhotoWall.cameraPosition = 15 /\
          PhotoWall.scale ph' = Vector3.mk 1.5 1.5 1.5) /\
      (forall k, k <> h ->
                 nth_error (PhotoWall.photos p') k = nth_error (PhotoWall.photos p) k)) /\
  (PhotoWall.pinching (PhotoWall.handState p) = false ->
   PhotoWall.grabbedPhoto p' = None /\
   Forall (fun ph => Vector3.x (PhotoWall.scale ph) <= 1) (PhotoWall.photos p') /\
   map PhotoWall.position (PhotoWall.photos p') = map PhotoWall.position (PhotoWall.photos p)).
Proof.
  intros Hv p'; subst p'; rewrite (updateInteractions_visible hit unprojected p Hv).
  cbv zeta; split.
  - intros h ph Hp Hg Hn Hne; rewrite Hp, Hg; cbn.
    split; [reflexivity|]; split.
    + eexists; split; [apply on_nth_same; exact Hn|]; cbn.
      split; [now apply held_distance | reflexivity].
    + intros k Hk; now apply on_nth_other.
  - intros Hp; rewrite Hp; cbn.
    split; [reflexivity|]; split.
    + apply Forall_forall; intros ph Hin.
      apply in_map_iff in Hin as (ph0 & <- & _).
      unfold Rgtb, Rltb; destruct (Rlt_dec 1 _); cbn; lra.
    + rewrite map_map; apply map_ext; intros ph.
      destruct (Rgtb _ 1); reflexivity.
Qed.

Lemma updateInteractions_holds_at_15_witness :
  PhotoWall.grabbedPhoto
    (PhotoWall.updateInteractions (Some 2%nat) (Vector3.mk 0 10 24) pinching_wall)
  = Some 2%nat.
Proof.
  assert (Hne : Vector3.mk 0 10 24 <> PhotoWall.cameraPosition)
    by (intros [= H]; lra).
  destruct (updateInteractions_holds_at_15 (Some 2%nat) (Vector3.mk 0 10 24)
              pinching_wall eq_refl) as [H _].
  exact (proj1 (H 2%nat (PhotoWall.newPhoto 2) eq_refl eq_refl eq_refl Hne)).
Defined.

(** ** Snow *)

Section Snow.

Import PhotoWall.

Lemma snowStep_value (f : Flake) :
  flakeVelocity (snowStep f) = flakeVelocity f /\
  Vector3.x (flakePosition (snowStep f))
  = Vector3.x (flakePosition f) + Vector3.x (flakeVelocity f) /\
  Vector3.z (flakePosition (snowStep f))
  = Vector3.z (flakePosition f) + Vector3.z (flakeVelocity f) /\
  -15 <= Vector3.y (flakePosition (snowStep f)) /\
  (Vector3.y (flakeVelocity f) <= 0 ->
   Vector3.y (flakePosition (snowStep f)) <= Rmax (Vector3.y (flakePosition f)) 15).
Proof.
  unfold snowStep; cbn.
  repeat (split; [reflexivity|]).
  unfold Rltb; destruct (Rlt_dec _ (-15)) as [H|H]; split; try lra.
  - intros _; apply Rmax_r.
  - intros Hv; pose proof (Rmax_l (Vector3.y (flakePosition f)) 15); lra.
Qed.

Lemma iter_snowStep (n : nat) (f : Flake) :
  let f' := Nat.iter n snowStep f in
  flakeVelocity f' = flakeVelocity f /\
  Vector3.x (flakePosition f')
  = Vector3.x (flakePosition f) + INR n * Vector3.x (flakeVelocity f) /\
  Vector3.z (flakePosition f')
  = Vector3.z (flakePosition f) + INR n * Vector3.z (flakeVelocity f) /\
  ((0 < n)%nat -> -15 <= Vector3.y (flakePosition f')) /\
  (Vector3.y (flakeVelocity f) <= 0 ->
   Vector3.y (flakePosition f') <= Rmax (Vector3.y (flakePosition f)) 15).
Proof.
  cbv zeta; induction n as [|n (IHv & IHx & IHz & _ & IHy)].
  - cbn [Nat.iter INR nat_rect].
    split; [reflexivity|]; split; [lra|]; split; [lra|].
    split; [lia | intros _; apply Rmax_l].
  - rewrite Nat.iter_succ, S_INR.
    destruct (snowStep_value (Nat.iter n snowStep f)) as (Sv & Sx & Sz & Sy & Su).
    rewrite Sv, Sx, Sz, IHv, IHx, IHz.
    split; [reflexivity|]; split; [lra|]; split; [lra|].
    split; [intros _; exact Sy|].
    intros Hv; rewrite IHv in Su.
    specialize (Su Hv); specialize (IHy Hv).
    apply Rle_trans with (1 := Su), Rmax_lub; [assumption | apply Rmax_r].
Qed.

Lemma updateInteractions_snow (hit : option nat) (v : Vector3.t) (p : Page) :
  snow (updateInteractions hit v p) = snow p.
Proof.
  destruct (visible (handState p)) eqn:Hv.
  - rewrite updateInteractions_visible by assumption; cbv zeta.
    destruct (if pinching (handState p) then _ else _); reflexivity.
  - now rewrite updateInteractions_invisible.
Qed.

Lemma animate_snow (time : R) (hit : option nat) (v : Vector3.t) (p : Page) :
  snow (animate time hit v p) = map snowStep (snow p).
Proof.
  unfold animate; rewrite updateInteractions_snow.
  destruct (grabbedPhoto p); reflexivity.
Qed.

Lemma onResults_snow (r : ScriptJs.Results) (p p' : Page) :
  onResults r p = Ok p' -> snow p' = snow p.
Proof.
  unfold onResults.
  destruct (ScriptJs.hand_of r) as [lm|]; [|now intros [= <-]].
  destruct (at_index lm 8), (at_index lm 4); cbn; try discriminate.
  now intros [= <-].
Qed.

Lemma run_snow (inputs : list Input) :
  forall p p', run inputs p = Ok p' ->
               snow p' = map (Nat.iter (displayed inputs) snowStep) (snow p).
Proof.
  induction inputs as [|i inputs IH]; intros p p'; cbn [run displayed].
  - intros [= <-]; cbn; now rewrite map_id.
  - destruct (handle i p) as [p1|] eqn:E; cbn [bind]; [|discriminate].
    intros Hrun; rewrite (IH _ _ Hrun).
    destruct i as [r|e|time hit v]; cbn [handle] in E.
    + now rewrite (onResults_snow r p p1 E).
    + injection E as <-; now destruct (listener_frame e p) as (_ & _ & _ & _ & ->).
    + injection E as <-; rewrite animate_snow, map_map.
      apply map_ext; intros f; now rewrite Nat.iter_succ_r.
Qed.

End Snow.

(** X28. Over any inputs that are handled without a throw, the snow is
    moved by the display frames only, once each.  After [n] frames a flake
    has kept its velocity and drifted by [n] times it along x and z (in
    exact arithmetic), which are never reset; from the first frame on its
    height is at least -15,
    and a flake that falls never rises above the larger of its first height
    and 15. *)
Theorem snow_after_frames
    (inputs : list PhotoWall.Input) (p p' : PhotoWall.Page) (i : nat) (f : PhotoWall.Flake) :
  PhotoWall.run inputs p = Ok p' ->
  nth_error (PhotoWall.snow p) i = Some f ->
  let n := PhotoWall.displayed inputs in
  exists f',
    nth_error (PhotoWall.snow p') i = Some f' /\
    PhotoWall.flakeVelocity f' = PhotoWall.flakeVelocity f /\
    Vector3.x (PhotoWall.flakePosition f')
    = Vector3.x (PhotoWall.flakePosition f) + INR n * Vector3.x (PhotoWall.flakeVelocity f) /\
    Vector3.z (PhotoWall.flakePosition f')
    = Vector3.z (PhotoWall.flakePosition f) + INR n * Vector3.z (PhotoWall.flakeVelocity f) /\
    ((0 < n)%nat -> -15 <= Vector3.y (PhotoWall.flakePosition f')) /\
    (Vector3.y (PhotoWall.flakeVelocity f) <= 0 ->
     Vector3.y (PhotoWall.flakePosition f')
     <= Rmax (Vector3.y (PhotoWall.flakePosition f)) 15).
Proof.
  intros Hrun Hf n; subst n.
  exists (Nat.iter (PhotoWall.displayed inputs) PhotoWall.snowStep f).
  split; [rewrite (run_snow inputs p p' Hrun); now apply map_nth_error|].
  apply iter_snowStep.
Qed.

Lemma snow_after_frames_witness :
  exists f',
    nth_error (PhotoWall.snow (PhotoWall.animate 1 None (Vector3.mk 0 0 0) wall0)) 0
    = Some f' /\
    -15 <= Vector3.y (PhotoWall.flakePosition f').
Proof.
  destruct (snow_after_frames [PhotoWall.frame 1 None (Vector3.mk 0 0 0)] wall0
              (PhotoWall.animate 1 None (Vector3.mk 0 0 0) wall0) 0
              (PhotoWall.newFlake 0.5 0.5 0.5 0.5 0.5 0.5) eq_refl eq_refl)
    as (f' & Hn & _ & _ & _ & Hy & _).
  exists f'; split; [assumption | apply Hy; cbn; lia].
Defined.



(** ** The ring of photos *)

Section Ring.

Import PhotoWall.

Lemma axisDistance_ring (angle r y : R) :
  0 <= r -> axisDistance (Vector3.mk (cos angle * r) y (sin angle * r)) = r.
Proof.
  intros Hr; unfold axisDistance; cbn [Vector3.x Vector3.z].
  replace (cos angle * r * (cos angle * r) + sin angle * r * (sin angle * r))
    with (r * r * (Rsqr (sin angle) + Rsqr (cos angle))) by (unfold Rsqr; ring).
  rewrite sin2_cos2, Rmult_1_r; now apply sqrt_square.
Qed.

Lemma photo_fraction (i : nat) :
  (i < photoCount)%nat -> 0 <= INR i / INR photoCount <= 5 / 6.
Proof.
  intros Hi.
  assert (H0 : 0 <= INR i) by apply pos_INR.
  assert (H1 : INR i <= INR 5) by (apply le_INR; unfold photoCount in Hi; lia).
  cbn [INR] in H1.
  replace (INR photoCount) with 6 by (unfold photoCount; cbn; lra).
  lra.
Qed.

Lemma newPhoto_on_ring (i : nat) :
  (i < photoCount)%nat ->
  let ph := newPhoto i in
  17 / 3 <= radius ph <= 9 /\
  3 <= originalY ph <= 34 / 3 /\
  Vector3.y (position ph) = originalY ph /\
  axisDistance (position ph) = radius ph /\
  scale ph = Vector3.mk 1 1 1.
Proof.
  intros Hi; pose proof (photo_fraction i Hi) as Ht.
  assert (Hr : 17 / 3 <= radius (newPhoto i) <= 9)
    by (unfold newPhoto, TREE_RADIUS; cbn [radius]; lra).
  cbv zeta; split; [exact Hr|].
  split; [unfold newPhoto; cbn [originalY]; lra|].
  split; [reflexivity|]; split; [|reflexivity].
  unfold newPhoto at 1; cbn [position]; apply axisDistance_ring.
  change (0 <= radius (newPhoto i)); lra.
Qed.

(** What the ring needs of a photo: all but its scale. *)
Lemma updateInteractions_other (hit : option nat) (v : Vector3.t) (p : Page)
    (k : nat) (ph : Photo) :
  grabbedPhoto (updateInteractions hit v p) <> Some k ->
  nth_error (photos p) k = Some ph ->
  exists ph',
    nth_error (photos (updateInteractions hit v p)) k = Some ph' /\
    position ph' = position ph /\ radius ph' = radius ph /\
    initialAngle ph' = initialAngle ph /\ originalY ph' = originalY ph.
Proof.
  destruct (visible (handState p)) eqn:Hv.
  - rewrite updateInteractions_visible by assumption; cbv zeta.
    destruct (if pinching (handState p) then _ else _) as [g|]; cbn.
    + intros Hg Hn; exists ph; rewrite on_nth_other by congruence.
      repeat split; assumption.
    + intros _ Hn; rewrite (map_nth_error _ _ _ Hn).
      eexists; split; [reflexivity|].
      destruct (Rgtb _ 1); repeat split.
  - rewrite updateInteractions_invisible by assumption.
    intros _ Hn; exists ph; repeat split; assumption.
Qed.

Lemma animate_free (time : R) (hit : option nat) (v : Vector3.t) (p : Page) :
  grabbedPhoto p = None ->
  animate time hit v p
  = updateInteractions hit v
      (set_snow (map snowStep (snow p))
         (set_starRotationY (- time * 0.2)
            (set_photos
               (map (fun ph =>
                       set_position
                         (Vector3.mk (cos (initialAngle ph + time * 0.05) * radius ph)
                                     (Vector3.y (position ph))
                                     (sin (initialAngle ph + time * 0.05) * radius ph)) ph)
                    (photos p))
               (set_particlesRotationY (time * 0.05) p)))).
Proof. intros H; unfold animate; rewrite H; reflexivity. Qed.

Lemma updateInteractions_rotation (hit : option nat) (v : Vector3.t) (p : Page) :
  particlesRotationY (updateInteractions hit v p) = particlesRotationY p.
Proof.
  destruct (visible (handState p)) eqn:Hv.
  - rewrite updateInteractions_visible by assumption; cbv zeta.
    destruct (if pinching (handState p) then _ else _); reflexivity.
  - now rewrite updateInteractions_invisible.
Qed.

End Ring.

(** X30. [setupPhotos] hangs each of its six photos on a ring about the
    axis of the tree: at its [radius], between 17/3 and 9, from the axis
    and at a height between 3 and 34/3.  A display frame that starts with no
    photo grabbed turns the tree to [time * 0.05] and puts every photo that
    is not grabbed in that frame back on its ring, at its initial angle
    plus the rotation of the tree, but leaves its height as it finds it:
    [originalY] is never read, so a photo that was held and let go stays at
    the height where it was held. *)
Theorem photos_ride_the_ring :
  (forall i, (i < PhotoWall.photoCount)%nat ->
             let ph := PhotoWall.newPhoto i in
             17 / 3 <= PhotoWall.radius ph <= 9 /\
             3 <= PhotoWall.originalY ph <= 34 / 3 /\
             Vector3.y (PhotoWall.position ph) = PhotoWall.originalY ph /\
             PhotoWall.axisDistance (PhotoWall.position ph) = PhotoWall.radius ph) /\
  (forall (time : R) (hit : option nat) (unprojected : Vector3.t) (p : PhotoWall.Page)
          (k : nat) (ph : PhotoWall.Photo),
      PhotoWall.grabbedPhoto p = None ->
      nth_error (PhotoWall.photos p) k = Some ph ->
      0 <= PhotoWall.radius ph ->
      let p' := PhotoWall.animate time hit unprojected p in
      PhotoWall.particlesRotationY p' = time * 0.05 /\
      (PhotoWall.grabbedPhoto p' <> Some k ->
       exists ph',
         nth_error (PhotoWall.photos p') k = Some ph' /\
         PhotoWall.position ph'
         = Vector3.mk
             (cos (PhotoWall.initialAngle ph + time * 0.05) * PhotoWall.radius ph)
             (Vector3.y (PhotoWall.position ph))
             (sin (PhotoWall.initialAngle ph + time * 0.05) * PhotoWall.radius ph) /\
         PhotoWall.axisDistance (PhotoWall.position ph') = PhotoWall.radius ph /\
         PhotoWall.radius ph' = PhotoWall.radius ph /\
         PhotoWall.initialAngle ph' = PhotoWall.initialAngle ph /\
         PhotoWall.originalY ph' = PhotoWall.originalY ph)).
Proof.
  split.
  - intros i Hi ph; subst ph.
    destruct (newPhoto_on_ring i Hi) as (Hr & Hy & Hp & Ha & _).
    repeat split; try apply Hr; try apply Hy; assumption.
  - intros time hit v p k ph Hg Hn Hr p'; subst p'.
    rewrite (animate_free time hit v p Hg).
    split; [now rewrite updateInteractions_rotation|].
    intros Hk.
    match goal with |- context [PhotoWall.updateInteractions hit v ?q] =>
      destruct (updateInteractions_other hit v q k
                  (PhotoWall.set_position
                     (Vector3.mk
                        (cos (PhotoWall.initialAngle ph + time * 0.05) * PhotoWall.radius ph)
                        (Vector3.y (PhotoWall.position ph))
                        (sin (PhotoWall.initialAngle ph + time * 0.05) * PhotoWall.radius ph))
                     ph) Hk)
        as (ph' & Hn' & Hp' & Hr' & Hi' & Hy')
    end.
    { cbn [PhotoWall.photos PhotoWall.set_snow PhotoWall.set_starRotationY
             PhotoWall.set_photos].
      now rewrite (map_nth_error _ _ _ Hn). }
    exists ph'; split; [assumption|]; rewrite Hp'; cbn.
    split; [reflexivity|]; split; [now apply axisDistance_ring|].
    repeat split; assumption.
Qed.

Lemma photos_ride_the_ring_witness :
  PhotoWall.particlesRotationY (PhotoWall.animate 2 None (Vector3.mk 0 0 0) wall0)
  = 2 * 0.05.
Proof.
  destruct photos_ride_the_ring as [Hnew Hring].
  assert (Hi : (2 < PhotoWall.photoCount)%nat) by (unfold PhotoWall.photoCount; lia).
  pose proof (Hnew 2%nat Hi) as H; cbv zeta in H; destruct H as ([Hr _] & _).
  assert (Hr0 : 0 <= PhotoWall.radius (PhotoWall.newPhoto 2))
    by (apply Rle_trans with (2 := Hr); lra).
  exact (proj1 (Hring 2 None (Vector3.mk 0 0 0) wall0 2%nat (PhotoWall.newPhoto 2)
                  eq_refl eq_refl Hr0)).
Defined.
